(** * Topup CXO Assistant: orchestration core, cache and guardrail

    A shallow embedding of
      - [agents/guardrail.py]   (policy validator),
      - [tools/cache_tool.py]   (in-memory LRU cache with TTL),
      - [agents/__init__.py]    (LangGraph orchestration and [run_query]),
    followed by the properties established about them.

    Conventions of the embedding.
      - A Python [str] is the [string] of its UTF-8 bytes.  Equality,
        concatenation, substring search and replacement are exact on every
        text.  The case mappings, the class [\w] and the white space that
        [strip] removes are those of the ASCII characters: they are exact on
        a text all of whose characters are ASCII ([Py.is_ascii]), and every
        property that depends on them is stated for such a text.
      - A Python [int] is a [Z]; a timestamp returned by [time.time()] is a
        [Z] as well (only order and addition are used).
      - [Optional[T]] is [option T]; Python truthiness is written out.
      - A call that may raise returns [Exc]. *)

From Stdlib Require Import ZArith List String Ascii Bool Lia Arith.
From Stdlib Require Import Permutation Sorting.Sorted DecimalString OrderedTypeEx.
From Equations Require Import Equations.
Import ListNotations.

Set Implicit Arguments.
Open Scope string_scope.
Open Scope list_scope.
Open Scope Z_scope.

(* ===================================================================== *)
(** ** Python values and strings *)
(* ===================================================================== *)

Module Py.

(** Outcome of a call that may raise: [Raise msg] carries [str(e)]. *)
Inductive Exc (A : Type) : Type :=
| Ok (a : A)
| Raise (msg : string).
Arguments Ok {A} a.
Arguments Raise {A} msg.

(** Truthiness of an [Optional[str]]: [None] and the empty string are
    falsy. *)
Definition truthy_str (o : option string) : bool :=
  match o with
  | None => false
  | Some s => negb (s =? EmptyString)%string
  end.

(** Truthiness of an optional list ([None] and [[]] are falsy). *)
Definition truthy_list {A} (o : option (list A)) : bool :=
  match o with
  | None | Some [] => false
  | Some (_ :: _) => true
  end.

(** Truthiness of an optional object without [__bool__]/[__len__]. *)
Definition truthy_obj {A} (o : option A) : bool :=
  match o with
  | None => false
  | Some _ => true
  end.

(** [str(n)] for an [int]. *)
Definition str_of_int (z : Z) : string := NilZero.string_of_int (Z.to_int z).

Definition code (c : ascii) : nat := nat_of_ascii c.

(** Every character of the text is an ASCII character: the domain on which
    [upper], [is_word] and [is_space] below are those of Python. *)
Fixpoint is_ascii (s : string) : bool :=
  match s with
  | EmptyString => true
  | String c s' => (code c <? 128)%nat && is_ascii s'
  end.

Definition is_lower (c : ascii) : bool := (97 <=? code c)%nat && (code c <=? 122)%nat.
Definition is_upper (c : ascii) : bool := (65 <=? code c)%nat && (code c <=? 90)%nat.
Definition is_digit (c : ascii) : bool := (48 <=? code c)%nat && (code c <=? 57)%nat.

(** The regular-expression class [\w] on an ASCII character: letters,
    digits, underscore.  (On other characters [re] follows the Unicode
    tables, which are not modelled.) *)
Definition is_word (c : ascii) : bool :=
  is_lower c || is_upper c || is_digit c || (code c =? 95)%nat.

(** [str.isspace] on an ASCII character: TAB, LF, VT, FF, CR, FS, GS, RS, US
    and space.  (Python also counts U+0085, U+00A0 and other Unicode white
    space, which is not modelled.) *)
Definition is_space (c : ascii) : bool :=
  ((9 <=? code c)%nat && (code c <=? 13)%nat)
  || ((28 <=? code c)%nat && (code c <=? 32)%nat).

Definition upper_char (c : ascii) : ascii :=
  if is_lower c then ascii_of_nat (code c - 32) else c.

(** [s.upper()] for an ASCII text: the letters a-z are mapped, every other
    character is kept.  (The Unicode case mapping of other characters is
    not modelled.) *)
Fixpoint upper (s : string) : string :=
  match s with
  | EmptyString => EmptyString
  | String c s' => String (upper_char c) (upper s')
  end.

Fixpoint lstrip (s : string) : string :=
  match s with
  | EmptyString => EmptyString
  | String c s' => if is_space c then lstrip s' else s
  end.

Fixpoint rstrip (s : string) : string :=
  match s with
  | EmptyString => EmptyString
  | String c s' =>
      match rstrip s' with
      | EmptyString => if is_space c then EmptyString else String c EmptyString
      | r => String c r
      end
  end.

(** [s.strip()] for an ASCII text. *)
Definition strip (s : string) : string := rstrip (lstrip s).

(** [s.endswith(c)] for a one-character suffix. *)
Fixpoint endswith_char (c : ascii) (s : string) : bool :=
  match s with
  | EmptyString => false
  | String a EmptyString => Ascii.eqb a c
  | String _ s' => endswith_char c s'
  end.

(** [s[:-1]] *)
Fixpoint drop_last (s : string) : string :=
  match s with
  | EmptyString => EmptyString
  | String _ EmptyString => EmptyString
  | String a s' => String a (drop_last s')
  end.

(** [c in s] for a character [c]. *)
Fixpoint contains_char (c : ascii) (s : string) : bool :=
  match s with
  | EmptyString => false
  | String a s' => Ascii.eqb a c || contains_char c s'
  end.

Definition head (s : string) : option ascii :=
  match s with
  | EmptyString => None
  | String c _ => Some c
  end.

Fixpoint last (prev : option ascii) (s : string) : option ascii :=
  match s with
  | EmptyString => prev
  | String c s' => last (Some c) s'
  end.

(** If [p] is a prefix of [s], the rest of [s] after it. *)
Fixpoint strip_prefix (p s : string) : option string :=
  match p with
  | EmptyString => Some s
  | String a p' =>
      match s with
      | EmptyString => None
      | String b s' => if Ascii.eqb a b then strip_prefix p' s' else None
      end
  end.

Definition is_word_opt (o : option ascii) : bool :=
  match o with
  | None => false
  | Some c => is_word c
  end.

(** The assertion [\b] between the character before and the one after. *)
Definition word_boundary (before after : option ascii) : bool :=
  xorb (is_word_opt before) (is_word_opt after).

(** Does [\b lit \b] match starting right here, [before] being the
    character that precedes the position? *)
Definition match_here (before : option ascii) (lit s : string) : bool :=
  word_boundary before (head s)
  && match strip_prefix lit s with
     | Some rest => word_boundary (last before lit) (head rest)
     | None => false
     end.

Fixpoint search_from (before : option ascii) (lit s : string) : bool :=
  match_here before lit s
  || match s with
     | EmptyString => false
     | String c s' => search_from (Some c) lit s'
     end.

(** [re.search(r'\b' + lit + r'\b', s)] is not [None], for a literal [lit]
    without metacharacters. *)
Definition re_search_word (lit s : string) : bool := search_from None lit s.

End Py.
Import Py.

(* ===================================================================== *)
(** ** models/schemas.py *)
(* ===================================================================== *)

Module Schemas.

(** A segment filter value: the planner emits strings, and integers for
    [term]. *)
Inductive SegValue : Type :=
| SStr (s : string)
| SInt (z : Z).

(** Python [==] on segment values; a [str] never equals an [int]. *)
Definition seg_eqb (a b : SegValue) : bool :=
  match a, b with
  | SStr x, SStr y => (x =? y)%string
  | SInt x, SInt y => (x =? y)%Z
  | _, _ => false
  end.

(** [str(v)] *)
Definition seg_str (v : SegValue) : string :=
  match v with
  | SStr s => s
  | SInt z => str_of_int z
  end.

(** Modelled from the spec: [SegmentFilters] of models/schemas.py, whose
    source is not available.  The spec describes it as a mapping of named
    segment filters to values; it is kept as an insertion-ordered mapping
    (a Python dict), and a filter that is [None] is an absent key. *)
Definition SegmentFilters : Type := list (string * SegValue).

(** Attribute access [segments.<name>]. *)
Fixpoint attr (name : string) (s : SegmentFilters) : option SegValue :=
  match s with
  | [] => None
  | (k, v) :: s' => if (k =? name)%string then Some v else attr name s'
  end.

Definition channel := attr "channel".
Definition grade := attr "grade".
Definition prod_type := attr "prod_type".
Definition repeat_type := attr "repeat_type".
Definition term := attr "term".
Definition cr_fico_band := attr "cr_fico_band".
Definition purpose := attr "purpose".

(** Modelled from the spec: [Plan] of models/schemas.py, whose source is not
    available; the fields are those the spec lists and the code reads. *)
Record Plan : Type := mkPlan {
  intent : string;
  table : string;
  metric : string;
  date_col : string;
  window : string;
  granularity : string;
  segments : SegmentFilters;
  chart : string
}.

(** Truthiness of an optional segment value ([None], the empty string and
    [0] are falsy). *)
Definition truthy_seg (o : option SegValue) : bool :=
  match o with
  | None => false
  | Some (SStr s) => negb (s =? EmptyString)%string
  | Some (SInt z) => negb (z =? 0)%Z
  end.

(** *** The cache fingerprint of a plan *)

Section CacheKey.

(** [hashlib.sha256(text.encode()).hexdigest()], taken as given. *)
Variable sha256_hexdigest : string -> string.

Local Open Scope string_scope.

Definition dquote : string := String (ascii_of_nat 34) EmptyString.

Definition quoted (s : string) : string := dquote ++ s ++ dquote.

(** Insertion of one item into a list of items sorted by key. *)
Fixpoint insert_item (kv : string * SegValue) (l : SegmentFilters)
  : SegmentFilters :=
  match l with
  | [] => [kv]
  | kv' :: l' =>
      if String.leb (fst kv) (fst kv') then kv :: l
      else kv' :: insert_item kv l'
  end.

(** The items of a mapping in the order of their keys. *)
Definition sort_keys (d : SegmentFilters) : SegmentFilters :=
  fold_right insert_item [] d.

Definition dumps_value (v : SegValue) : string :=
  match v with
  | SStr s => quoted s
  | SInt z => str_of_int z
  end.

Definition dumps_item (kv : string * SegValue) : string :=
  quoted (fst kv) ++ ": " ++ dumps_value (snd kv).

Definition dumps_segments (d : SegmentFilters) : string :=
  "{" ++ String.concat ", " (map dumps_item (sort_keys d)) ++ "}".

Definition dumps_field (name value : string) : string :=
  quoted name ++ ": " ++ value.

(** Modelled from the spec: the deterministic, order-stable serialization
    behind [Plan.cache_key] (models/schemas.py is not available): every
    mapping is written with its keys sorted. *)
Definition canonical_json (p : Plan) : string :=
  "{" ++ String.concat ", "
           [ dumps_field "chart" (quoted (chart p));
             dumps_field "date_col" (quoted (date_col p));
             dumps_field "granularity" (quoted (granularity p));
             dumps_field "intent" (quoted (intent p));
             dumps_field "metric" (quoted (metric p));
             dumps_field "segments" (dumps_segments (segments p));
             dumps_field "table" (quoted (table p));
             dumps_field "window" (quoted (window p)) ]
      ++ "}".

(** Modelled from the spec: [Plan.cache_key] of models/schemas.py, whose
    source is not available: a cryptographic hash of the canonical
    serialization. *)
Definition cache_key (p : Plan) : string :=
  sha256_hexdigest (canonical_json p).

End CacheKey.

(** The order of two items by their keys. *)
Definition key_le (a b : string * SegValue) : Prop :=
  String.leb (fst a) (fst b) = true.

(** A well-formed mapping has each key once. *)
Definition wf_segments (d : SegmentFilters) : Prop := NoDup (map fst d).

(** Two plans with identical field values: the scalar fields are equal and
    the segment mappings hold the same value under every name. *)
Definition same_fields (p1 p2 : Plan) : Prop :=
  intent p1 = intent p2 /\ table p1 = table p2 /\ metric p1 = metric p2
  /\ date_col p1 = date_col p2 /\ window p1 = window p2
  /\ granularity p1 = granularity p2 /\ chart p1 = chart p2
  /\ forall name, attr name (segments p1) = attr name (segments p2).

End Schemas.
Import Schemas.

(* ===================================================================== *)
(** ** agents/guardrail.py *)
(* ===================================================================== *)

Module Guardrail.

Local Open Scope string_scope.

(** [ALLOWED_SEGMENTS]: a dict from field name to the list of its values. *)
Definition ALLOWED_SEGMENTS : list (string * list SegValue) :=
  [ ("channel", [SStr "OMB"; SStr "Email"; SStr "Search"; SStr "D2LC";
                 SStr "DM"; SStr "LT"; SStr "Experian"; SStr "Karma";
                 SStr "Small Partners"]);
    ("grade", [SStr "P1"; SStr "P2"; SStr "P3"; SStr "P4"; SStr "P5";
               SStr "P6"]);
    ("prod_type", [SStr "Prime"; SStr "NP"; SStr "D2P"]);
    ("repeat_type", [SStr "Repeat"; SStr "New"]);
    ("term", [SInt 36; SInt 48; SInt 60; SInt 72; SInt 84]);
    ("cr_fico_band", [SStr "<640"; SStr "640-699"; SStr "700-759";
                      SStr "760+"]);
    ("purpose", [SStr "debt_consolidation"; SStr "home_improvement";
                 SStr "major_purchase"; SStr "medical"; SStr "car";
                 SStr "other"]) ].

(** [ALLOWED_SEGMENTS[field]]; every subscript in the module is one of the
    seven keys above, so the [KeyError] case is never taken. *)
Fixpoint subscript (d : list (string * list SegValue)) (field : string)
  : list SegValue :=
  match d with
  | [] => []
  | (k, vs) :: d' => if (k =? field)%string then vs else subscript d' field
  end.

Definition DANGEROUS_KEYWORDS : list string :=
  ["INSERT"; "UPDATE"; "DELETE"; "DROP"; "ALTER";
   "CREATE"; "TRUNCATE"; "REPLACE"; "MERGE"].

Definition MAX_TIME_WINDOW_DAYS : Z := 365.

Record ValidationResult : Type := mkValidationResult {
  is_valid : bool;
  error_message : option string;
  security_event : bool
}.

(** [ValidationResult(is_valid=True)] *)
Definition valid : ValidationResult := mkValidationResult true None false.

(** [x in xs] *)
Definition seg_in (x : SegValue) (xs : list SegValue) : bool :=
  existsb (seg_eqb x) xs.

(** [opt != "ALL"], where [None != "ALL"] holds. *)
Definition is_not_ALL (o : option SegValue) : bool :=
  match o with
  | Some v => negb (seg_eqb v (SStr "ALL"))
  | None => true
  end.

(** [opt not in xs] ([None] is in no list of allowed values). *)
Definition not_in (o : option SegValue) (xs : list SegValue) : bool :=
  match o with
  | Some v => negb (seg_in v xs)
  | None => true
  end.

(** [str(opt)] inside an f-string. *)
Definition fmt (o : option SegValue) : string :=
  match o with
  | Some v => seg_str v
  | None => "None"
  end.

(** [', '.join(map(str, ALLOWED_SEGMENTS[field]))] *)
Definition joined (field : string) : string :=
  String.concat ", " (map seg_str (subscript ALLOWED_SEGMENTS field)).

Fixpoint first_keyword (kws : list string) (sql_upper : string)
  : option string :=
  match kws with
  | [] => None
  | keyword :: rest =>
      if re_search_word keyword sql_upper then Some keyword
      else first_keyword rest sql_upper
  end.

Definition _check_sql_safety (sql : string) : ValidationResult :=
  let sql_upper := upper sql in
  match first_keyword DANGEROUS_KEYWORDS sql_upper with
  | Some keyword =>
      mkValidationResult false
        (Some ("SQL query contains forbidden keyword: " ++ keyword)) true
  | None => valid
  end.

Definition _check_multiple_statements (sql : string) : ValidationResult :=
  let sql_stripped := strip sql in
  let sql_stripped :=
    if endswith_char ";" sql_stripped then drop_last sql_stripped
    else sql_stripped in
  if contains_char ";" sql_stripped then
    mkValidationResult false
      (Some "SQL query contains multiple statements (semicolons not allowed)")
      true
  else valid.

Definition _validate_segment_filters (plan : Plan) : ValidationResult :=
  let segments := segments plan in
  if truthy_seg (channel segments) && is_not_ALL (channel segments)
     && not_in (channel segments) (subscript ALLOWED_SEGMENTS "channel")
  then mkValidationResult false
         (Some ("Invalid channel value: '" ++ fmt (channel segments) ++ "'. "
                ++ "Allowed values: " ++ joined "channel"
                ++ " or 'ALL' for grouping")) false
  else if truthy_seg (grade segments) && is_not_ALL (grade segments)
     && not_in (grade segments) (subscript ALLOWED_SEGMENTS "grade")
  then mkValidationResult false
         (Some ("Invalid grade value: '" ++ fmt (grade segments) ++ "'. "
                ++ "Allowed values: " ++ joined "grade"
                ++ " or 'ALL' for grouping")) false
  else if truthy_seg (prod_type segments) && is_not_ALL (prod_type segments)
     && not_in (prod_type segments) (subscript ALLOWED_SEGMENTS "prod_type")
  then mkValidationResult false
         (Some ("Invalid prod_type value: '" ++ fmt (prod_type segments)
                ++ "'. " ++ "Allowed values: " ++ joined "prod_type"
                ++ " or 'ALL' for grouping")) false
  else if truthy_seg (repeat_type segments)
     && not_in (repeat_type segments)
          (subscript ALLOWED_SEGMENTS "repeat_type")
  then mkValidationResult false
         (Some ("Invalid repeat_type value: '" ++ fmt (repeat_type segments)
                ++ "'. " ++ "Allowed values: " ++ joined "repeat_type")) false
  else if truthy_seg (term segments)
     && not_in (term segments) (subscript ALLOWED_SEGMENTS "term")
  then mkValidationResult false
         (Some ("Invalid term value: " ++ fmt (term segments) ++ ". "
                ++ "Allowed values: " ++ joined "term")) false
  else if truthy_seg (cr_fico_band segments)
     && not_in (cr_fico_band segments)
          (subscript ALLOWED_SEGMENTS "cr_fico_band")
  then mkValidationResult false
         (Some ("Invalid cr_fico_band value: '"
                ++ fmt (cr_fico_band segments) ++ "'. "
                ++ "Allowed values: " ++ joined "cr_fico_band")) false
  else if truthy_seg (purpose segments)
     && not_in (purpose segments) (subscript ALLOWED_SEGMENTS "purpose")
  then mkValidationResult false
         (Some ("Invalid purpose value: '" ++ fmt (purpose segments) ++ "'. "
                ++ "Allowed values: " ++ joined "purpose")) false
  else valid.

(** The local dict [window_days] and [window_days.get(w, 30)]. *)
Definition window_days : list (string * Z) :=
  [ ("last_7d", 7); ("last_full_week", 7); ("last_30d", 30);
    ("last_full_month", 31); ("last_3_full_months", 93) ].

Fixpoint dict_get (d : list (string * Z)) (k : string) (default : Z) : Z :=
  match d with
  | [] => default
  | (k', v) :: d' => if (k' =? k)%string then v else dict_get d' k default
  end.

Definition _validate_time_window (plan : Plan) : ValidationResult :=
  let days := dict_get window_days (window plan) 30 in
  if days >? MAX_TIME_WINDOW_DAYS then
    mkValidationResult false
      (Some ("Time window exceeds maximum allowed ("
             ++ str_of_int MAX_TIME_WINDOW_DAYS ++ " days). "
             ++ "Requested window: " ++ window plan ++ " (~"
             ++ str_of_int days ++ " days). "
             ++ "Please use a shorter time window or explicitly request a longer period."))
      false
  else valid.

(** [validate]; the calls to [logger] and [_log_security_event] only write
    log records and are left out. *)
Definition validate (plan : Plan) (sql : string) : ValidationResult :=
  let sql_check := _check_sql_safety sql in
  if negb (is_valid sql_check) then sql_check else
  let semicolon_check := _check_multiple_statements sql in
  if negb (is_valid semicolon_check) then semicolon_check else
  let segment_check := _validate_segment_filters plan in
  if negb (is_valid segment_check) then segment_check else
  let window_check := _validate_time_window plan in
  if negb (is_valid window_check) then window_check else
  valid.

End Guardrail.

(* ===================================================================== *)
(** ** tools/cache_tool.py *)
(* ===================================================================== *)

Module CacheTool.

Section LRU.

(** The cached value (a dict) and the two conversions applied to its ['df']
    item at the cache boundary ([pickle.dumps] on [set], [pickle.loads] on
    [get]). *)
Variable V : Type.
Variable serialize deserialize : V -> V.

Record CacheEntry : Type := mkCacheEntry {
  value : V;
  created_at : Z;
  expires_at : Z
}.

(** [CacheEntry(value, ttl)], [now] being the reading of [time.time()]. *)
Definition CacheEntry_init (now : Z) (value : V) (ttl : Z) : CacheEntry :=
  let created_at := now in
  mkCacheEntry value created_at (created_at + ttl).

(** [entry.is_expired()], [now] being the reading of [time.time()]. *)
Definition is_expired (now : Z) (entry : CacheEntry) : bool :=
  now >? expires_at entry.

(** An [OrderedDict[str, CacheEntry]]: the items in order, first to last. *)
Definition OrderedDict : Type := list (string * CacheEntry).

Definition keys (d : OrderedDict) : list string := map fst d.

(** [d.get(key)] *)
Fixpoint getitem (key : string) (d : OrderedDict) : option CacheEntry :=
  match d with
  | [] => None
  | (k, e) :: d' => if (k =? key)%string then Some e else getitem key d'
  end.

(** [key in d] *)
Definition contains (key : string) (d : OrderedDict) : bool :=
  match getitem key d with
  | Some _ => true
  | None => false
  end.

(** [del d[key]] *)
Definition delitem (key : string) (d : OrderedDict) : OrderedDict :=
  filter (fun kv => negb (fst kv =? key)%string) d.

(** [d[key] = entry]: an existing key keeps its position, a new key goes
    last. *)
Fixpoint setitem (key : string) (entry : CacheEntry) (d : OrderedDict)
  : OrderedDict :=
  match d with
  | [] => [(key, entry)]
  | (k, e) :: d' =>
      if (k =? key)%string then (k, entry) :: d'
      else (k, e) :: setitem key entry d'
  end.

(** [d.move_to_end(key)] *)
Definition move_to_end (key : string) (d : OrderedDict) : OrderedDict :=
  match getitem key d with
  | Some e => delitem key d ++ [(key, e)]
  | None => d
  end.

(** [d.popitem(last=False)], the dict without its first item. *)
Definition popitem_first (d : OrderedDict) : OrderedDict := tl d.

Record InMemoryLRUCache : Type := mkCache {
  max_size : Z;
  default_ttl : Z;
  _cache : OrderedDict
}.

(** [InMemoryLRUCache(max_size, default_ttl)] *)
Definition init (max_size default_ttl : Z) : InMemoryLRUCache :=
  mkCache max_size default_ttl [].

Definition with_cache (self : InMemoryLRUCache) (d : OrderedDict)
  : InMemoryLRUCache :=
  mkCache (max_size self) (default_ttl self) d.

(** [self.get(key)]; the clock is read (by [is_expired]) only when the key is
    present. *)
Definition get (now : Z) (key : string) (self : InMemoryLRUCache)
  : option V * InMemoryLRUCache :=
  match getitem key (_cache self) with
  | None => (None, self)
  | Some entry =>
      if is_expired now entry then
        (None, with_cache self (delitem key (_cache self)))
      else
        (Some (deserialize (value entry)),
         with_cache self (move_to_end key (_cache self)))
  end.

(** [self.set(key, value, ex)] *)
Definition set (now : Z) (key : string) (value : V) (ex : option Z)
  (self : InMemoryLRUCache) : InMemoryLRUCache :=
  let ttl := match ex with Some t => t | None => default_ttl self end in
  let serialized_value := serialize value in
  let entry := CacheEntry_init now serialized_value ttl in
  let d := if contains key (_cache self) then delitem key (_cache self)
           else _cache self in
  let d := setitem key entry d in
  if Z.of_nat (List.length d) >? max_size self
  then with_cache self (popitem_first d)
  else with_cache self d.

(** [self.clear()] *)
Definition clear (self : InMemoryLRUCache) : InMemoryLRUCache :=
  with_cache self [].

(** [self.size()] *)
Definition size (self : InMemoryLRUCache) : Z :=
  Z.of_nat (List.length (_cache self)).

(** [self.cleanup_expired()]; [clock key] is the reading of [time.time()]
    taken when the entry of [key] is examined. *)
Definition cleanup_expired (clock : string -> Z) (self : InMemoryLRUCache)
  : Z * InMemoryLRUCache :=
  let expired_keys :=
    map fst (filter (fun kv => is_expired (clock (fst kv)) (snd kv))
               (_cache self)) in
  (Z.of_nat (List.length expired_keys),
   with_cache self (fold_left (fun d key => delitem key d) expired_keys
                      (_cache self))).

(** The operations a client can issue, for reasoning about histories. *)
Inductive Op : Type :=
| OpGet (now : Z) (key : string)
| OpSet (now : Z) (key : string) (value : V) (ex : option Z)
| OpClear
| OpCleanup (clock : string -> Z).

Definition step (self : InMemoryLRUCache) (op : Op) : InMemoryLRUCache :=
  match op with
  | OpGet now key => snd (get now key self)
  | OpSet now key value ex => set now key value ex self
  | OpClear => clear self
  | OpCleanup clock => snd (cleanup_expired clock self)
  end.

Definition run (self : InMemoryLRUCache) (ops : list Op) : InMemoryLRUCache :=
  fold_left step ops self.

(** Does the operation count as an access of [key]?  A [set] always does; a
    [get] does when it hits (the key is present and not expired). *)
Definition touches (self : InMemoryLRUCache) (op : Op) (key : string) : bool :=
  match op with
  | OpGet now k =>
      (k =? key)%string
      && match getitem k (_cache self) with
         | Some entry => negb (is_expired now entry)
         | None => false
         end
  | OpSet _ k _ _ => (k =? key)%string
  | OpClear | OpCleanup _ => false
  end.

(** The rank in the history (1 for the first operation) of the last access
    of [key] among [ops] run from [self]; [base] when there is none. *)
Fixpoint last_access (self : InMemoryLRUCache) (ops : list Op) (n : nat)
  (base : string -> nat) (key : string) : nat :=
  match ops with
  | [] => base key
  | op :: ops' =>
      last_access (step self op) ops' (S n)
        (fun k => if touches self op k then S n else base k) key
  end.

End LRU.

Arguments OpGet {V} now key.
Arguments OpClear {V}.
Arguments OpCleanup {V} clock.

End CacheTool.

(* ===================================================================== *)
(** ** agents/__init__.py *)
(* ===================================================================== *)

Module Orchestrator.

Import Guardrail.

(** One record of [df.to_dict(orient="records")], a Plotly specification and
    a conversation message are dicts. *)
Definition Row : Type := list (string * string).
Definition ChartSpec : Type := list (string * string).
Definition Message : Type := list (string * string).

(** Modelled from the spec: [Insight] of models/schemas.py, whose source is
    not available; an opaque narrative artifact with the four fields the
    orchestrator fills in. *)
Record Insight : Type := mkInsight {
  title : string;
  summary : string;
  bullets : list string;
  drivers : list string
}.

(** The [insight] slot holds an [Insight] object, or the dict made by
    [model_dump()] when it comes from the cache. *)
Inductive InsightValue : Type :=
| InsightObject (i : Insight)
| InsightDict (d : Insight).

(** The bundle stored under a cache key: a dict with the three keys
    ["df_dict"], ["chart_spec"] and ["insight"]. *)
Record CacheValue : Type := mkCacheValue {
  cv_df_dict : option (list Row);
  cv_chart_spec : option ChartSpec;
  cv_insight : option Insight
}.

(** The bundle has no ['df'] item, so both conversions leave it as it is. *)
Definition Cache : Type := CacheTool.InMemoryLRUCache CacheValue.

Record GraphState : Type := mkGraphState {
  user_query : string;
  conversation_history : list Message;
  intent : option string;
  plan : option Plan;
  sql : option string;
  df_dict : option (list Row);
  chart_spec : option ChartSpec;
  insight : option InsightValue;
  error : option string;
  cache_key : option string;
  cache_hit : bool
}.

Definition set_intent (v : option string) (s : GraphState) : GraphState :=
  mkGraphState (user_query s) (conversation_history s) v (plan s) (sql s)
    (df_dict s) (chart_spec s) (insight s) (error s) (cache_key s)
    (cache_hit s).

Definition set_plan (v : option Plan) (s : GraphState) : GraphState :=
  mkGraphState (user_query s) (conversation_history s) (intent s) v (sql s)
    (df_dict s) (chart_spec s) (insight s) (error s) (cache_key s)
    (cache_hit s).

Definition set_df_dict (v : option (list Row)) (s : GraphState) : GraphState :=
  mkGraphState (user_query s) (conversation_history s) (intent s) (plan s)
    (sql s) v (chart_spec s) (insight s) (error s) (cache_key s)
    (cache_hit s).

Definition set_chart_spec (v : option ChartSpec) (s : GraphState)
  : GraphState :=
  mkGraphState (user_query s) (conversation_history s) (intent s) (plan s)
    (sql s) (df_dict s) v (insight s) (error s) (cache_key s) (cache_hit s).

Definition set_insight (v : option InsightValue) (s : GraphState)
  : GraphState :=
  mkGraphState (user_query s) (conversation_history s) (intent s) (plan s)
    (sql s) (df_dict s) (chart_spec s) v (error s) (cache_key s)
    (cache_hit s).

Definition set_error (v : option string) (s : GraphState) : GraphState :=
  mkGraphState (user_query s) (conversation_history s) (intent s) (plan s)
    (sql s) (df_dict s) (chart_spec s) (insight s) v (cache_key s)
    (cache_hit s).

Definition set_cache_key (v : option string) (s : GraphState) : GraphState :=
  mkGraphState (user_query s) (conversation_history s) (intent s) (plan s)
    (sql s) (df_dict s) (chart_spec s) (insight s) (error s) v (cache_hit s).

Definition set_cache_hit (v : bool) (s : GraphState) : GraphState :=
  mkGraphState (user_query s) (conversation_history s) (intent s) (plan s)
    (sql s) (df_dict s) (chart_spec s) (insight s) (error s) (cache_key s) v.

(** What [run_query] returns. *)
Record Response : Type := mkResponse {
  r_plan : option Plan;
  r_chart_spec : option ChartSpec;
  r_insight : option Insight;
  r_error : option string;
  r_cache_hit : bool
}.

(** The nodes of the graph. *)
Inductive Node : Type :=
| router | memory | planner | cache_check | guardrail
| sql_executor | chart | insights | cache_store.

(** What a run leaves in the record: the nodes entered and the calls made
    to the collaborators and to the cache, as they happen. *)
Inductive Event : Type :=
| Enter (n : Node)
| CallClassify
| CallExplain
| CallMakePlan
| CallCacheGet (key : string)
| CallValidate (plan : Plan) (sql : string)
| CallSqlRun
| CallChartBuild
| CallSummarize
| CallCacheSet (key : string) (value : CacheValue) (ex : option Z).

Section Pipeline.

(** The world outside the core: whatever the collaborators and the clock
    depend on and change. *)
Variable Env : Type.

(** [time.time()] *)
Variable time_time : Env -> Z * Env.

(** The external collaborators; each may raise. *)
Variable router_classify :
  string -> list Message -> Env -> Exc string * Env.
Variable MEMORY_AGENT_AVAILABLE : bool.
Variable memory_agent_explain : string -> Env -> Exc string * Env.
Variable planner_make_plan :
  string -> option string -> list Message -> Env -> Exc Plan * Env.
Variable sql_tool_run : Plan -> Env -> Exc (list Row) * Env.
Variable chart_tool_build : Plan -> list Row -> Env -> Exc ChartSpec * Env.
Variable insights_agent_summarize :
  Plan -> list Row -> Env -> Exc Insight * Env.
Variable sha256_hexdigest : string -> string.

(** The process state: the environment, the module-level singleton
    [_cache_instance] of cache_tool, and the record of calls. *)
Record World : Type := mkWorld {
  env : Env;
  _cache_instance : option Cache;
  calls : list Event
}.

Definition M (A : Type) : Type := World -> A * World.

Definition ret {A} (a : A) : M A := fun w => (a, w).

Definition bind {A B} (c : M A) (k : A -> M B) : M B :=
  fun w => let (a, w') := c w in k a w'.

Notation "x <- c ;; k" := (bind c (fun x => k))
  (at level 61, c at next level, right associativity).
Notation "c ;;; k" := (bind c (fun _ => k))
  (at level 61, right associativity).

(** A call to a collaborator: it is recorded and acts on the environment. *)
Definition call {A} (ev : Event) (f : Env -> A * Env) : M A :=
  fun w =>
    let (a, e) := f (env w) in
    (a, mkWorld e (_cache_instance w) (calls w ++ [ev])).

Definition record (ev : Event) : M unit :=
  fun w => (tt, mkWorld (env w) (_cache_instance w) (calls w ++ [ev])).

Definition read_clock : M Z :=
  fun w =>
    let (now, e) := time_time (env w) in
    (now, mkWorld e (_cache_instance w) (calls w)).

(** [cache_tool.get_cache()] *)
Definition get_cache : M Cache :=
  fun w =>
    match _cache_instance w with
    | Some c => (c, w)
    | None =>
        let c := CacheTool.init CacheValue 100 600 in
        (c, mkWorld (env w) (Some c) (calls w))
    end.

Definition put_cache (c : Cache) : M unit :=
  fun w => (tt, mkWorld (env w) (Some c) (calls w)).

(** [cache_tool.get(key)] *)
Definition cache_tool_get (key : string) : M (option CacheValue) :=
  record (CallCacheGet key) ;;;
  cache <- get_cache ;;
  if CacheTool.contains key (CacheTool._cache cache) then
    now <- read_clock ;;
    let (r, cache') := CacheTool.get (fun v => v) now key cache in
    put_cache cache' ;;;
    ret r
  else ret None.

(** [cache_tool.set(key, value, ex)] *)
Definition cache_tool_set (key : string) (value : CacheValue)
  (ex : option Z) : M unit :=
  record (CallCacheSet key value ex) ;;;
  cache <- get_cache ;;
  now <- read_clock ;;
  put_cache (CacheTool.set (fun v => v) now key value ex cache).

Definition model_dump (i : Insight) : Insight := i.

Local Open Scope string_scope.

Definition router_node (state : GraphState) : M GraphState :=
  r <- call CallClassify
         (router_classify (user_query state) (conversation_history state)) ;;
  match r with
  | Ok intent => ret (set_intent (Some intent) state)
  | Raise e =>
      ret (set_intent (Some "trend")
             (set_error (Some ("Intent classification failed: " ++ e))
                state))
  end.

Definition memory_node (state : GraphState) : M GraphState :=
  if negb MEMORY_AGENT_AVAILABLE then
    ret (set_insight
           (Some (InsightObject
              (mkInsight "Explanation"
                 "The explanation feature is not yet configured. Please ensure the RAG tool is initialized."
                 [] []))) state)
  else
    r <- call CallExplain (memory_agent_explain (user_query state)) ;;
    match r with
    | Ok explanation =>
        ret (set_insight
               (Some (InsightObject (mkInsight "Explanation" explanation [] [])))
               state)
    | Raise e =>
        ret (set_insight
               (Some (InsightObject
                  (mkInsight "Explanation"
                     "Unable to retrieve explanation. Please try rephrasing your question."
                     [] [])))
               (set_error (Some ("Explanation retrieval failed: " ++ e))
                  state))
    end.

Definition planner_node (state : GraphState) : M GraphState :=
  r <- call CallMakePlan
         (planner_make_plan (user_query state) (intent state)
            (conversation_history state)) ;;
  match r with
  | Ok plan =>
      ret (set_cache_key (Some (Schemas.cache_key sha256_hexdigest plan))
             (set_plan (Some plan) state))
  | Raise e => ret (set_error (Some ("Query planning failed: " ++ e)) state)
  end.

Definition cache_check_node (state : GraphState) : M GraphState :=
  if negb (truthy_str (cache_key state)) then
    ret (set_cache_hit false state)
  else
    match cache_key state with
    | None => ret (set_cache_hit false state)
    | Some key =>
        cached_result <- cache_tool_get key ;;
        match cached_result with
        | Some cached =>
            ret (set_insight (option_map InsightDict (cv_insight cached))
                   (set_chart_spec (cv_chart_spec cached)
                      (set_df_dict (cv_df_dict cached)
                         (set_cache_hit true state))))
        | None => ret (set_cache_hit false state)
        end
    end.

Definition guardrail_node (state : GraphState) : M GraphState :=
  match plan state with
  | None => ret (set_error (Some "No plan to validate") state)
  | Some plan =>
      record (CallValidate plan EmptyString) ;;;
      let validation_result := Guardrail.validate plan EmptyString in
      if negb (is_valid validation_result) then
        ret (set_error (error_message validation_result) state)
      else ret state
  end.

Definition sql_executor_node (state : GraphState) : M GraphState :=
  match plan state with
  | None => ret (set_error (Some "No plan to execute") state)
  | Some plan =>
      r <- call CallSqlRun (sql_tool_run plan) ;;
      match r with
      | Ok records => ret (set_df_dict (Some records) state)
      | Raise e =>
          ret (set_error (Some ("Query execution failed: " ++ e)) state)
      end
  end.

Definition chart_node (state : GraphState) : M GraphState :=
  match plan state, df_dict state with
  | Some plan, Some (row :: rows) =>
      r <- call CallChartBuild (chart_tool_build plan (row :: rows)) ;;
      match r with
      | Ok spec => ret (set_chart_spec (Some spec) state)
      | Raise _ => ret state
      end
  | _, _ => ret state
  end.

Definition insights_node (state : GraphState) : M GraphState :=
  match plan state, df_dict state with
  | Some plan, Some (row :: rows) =>
      r <- call CallSummarize (insights_agent_summarize plan (row :: rows)) ;;
      match r with
      | Ok i => ret (set_insight (Some (InsightObject i)) state)
      | Raise _ => ret state
      end
  | _, _ => ret state
  end.

Definition cache_store_node (state : GraphState) : M GraphState :=
  if negb (truthy_str (cache_key state)) then ret state
  else if truthy_str (error state) then ret state
  else if negb (truthy_list (df_dict state)) then ret state
  else if negb (truthy_list (chart_spec state))
          && negb (truthy_obj (insight state)) then ret state
  else
    match cache_key state, insight state with
    | Some key, Some (InsightDict _) =>
        (* a dict has no [model_dump]: the [AttributeError] is caught *)
        ret state
    | Some key, Some (InsightObject i) =>
        cache_tool_set key
          (mkCacheValue (df_dict state) (chart_spec state)
             (Some (model_dump i))) (Some 600) ;;;
        ret state
    | Some key, None =>
        cache_tool_set key
          (mkCacheValue (df_dict state) (chart_spec state) None)
          (Some 600) ;;;
        ret state
    | None, _ => ret state
    end.

Definition should_use_memory (state : GraphState) : string :=
  match intent state with
  | Some i => if (i =? "explain")%string then "memory" else "planner"
  | None => "planner"
  end.

Definition should_skip_execution (state : GraphState) : string :=
  if cache_hit state then "end"
  else if truthy_str (error state) then "end"
  else "guardrail".

Definition should_continue_after_guardrail (state : GraphState) : string :=
  if truthy_str (error state) then "end" else "sql".

(** Defined in the module but not wired into the graph. *)
Definition should_continue_after_sql_executor (state : GraphState) : string :=
  if truthy_str (error state) then "end" else "chart".

(** The graph built by [create_graph]: the function of each node ... *)
Definition node_function (n : Node) : GraphState -> M GraphState :=
  match n with
  | router => router_node
  | memory => memory_node
  | planner => planner_node
  | cache_check => cache_check_node
  | guardrail => guardrail_node
  | sql_executor => sql_executor_node
  | chart => chart_node
  | insights => insights_node
  | cache_store => cache_store_node
  end.

(** ... and its edges; [None] is [END]. *)
Definition next_node (n : Node) (state : GraphState) : option Node :=
  match n with
  | router =>
      if (should_use_memory state =? "memory")%string then Some memory
      else Some planner
  | memory => None
  | planner => Some cache_check
  | cache_check =>
      if (should_skip_execution state =? "guardrail")%string
      then Some guardrail else None
  | guardrail =>
      if (should_continue_after_guardrail state =? "sql")%string
      then Some sql_executor else None
  | sql_executor => Some chart
  | chart => Some insights
  | insights => Some cache_store
  | cache_store => None
  end.

(** The step bound of the graph runtime ([recursion_limit]). *)
Definition recursion_limit : nat := 25.

Fixpoint run_from (limit : nat) (n : Node) (state : GraphState)
  : M (Exc GraphState) :=
  match limit with
  | O => ret (Raise "Recursion limit reached without hitting a stop condition")
  | S limit' =>
      record (Enter n) ;;;
      state' <- node_function n state ;;
      match next_node n state' with
      | None => ret (Ok state')
      | Some n' => run_from limit' n' state'
      end
  end.

(** [app.invoke(initial_state)], the entry point being [router]. *)
Definition invoke (initial_state : GraphState) : M (Exc GraphState) :=
  run_from recursion_limit router initial_state.

(** The state [run_query] starts every attempt from
    ([conversation_history or []]). *)
Definition make_initial_state (user_query : string)
  (conversation_history : option (list Message)) : GraphState :=
  mkGraphState user_query
    (match conversation_history with Some h => h | None => [] end)
    None None None None None None None None false.

(** The [while attempt < max_retries] loop of [run_query]; the result is the
    value of [final_state] when the loop is left. *)
Equations? retry_loop (max_retries attempt : Z)
  (final_state : option GraphState) (initial_state : GraphState)
  : M (option GraphState) by wf (Z.to_nat (max_retries - attempt)) lt :=
retry_loop max_retries attempt final_state initial_state
  with Z_lt_dec attempt max_retries => {
  | right _ => ret final_state
  | left _ =>
      r <- invoke initial_state ;;
      match r with
      | Ok final_state' =>
          if negb (truthy_str (error final_state')) then
            ret (Some final_state')
          else
            retry_loop max_retries (attempt + 1) (Some final_state')
              (if (attempt + 1 <? max_retries)%Z
               then set_error None initial_state else initial_state)
      | Raise e =>
          retry_loop max_retries (attempt + 1)
            (if (attempt + 1 >=? max_retries)%Z
             then Some (set_error
                          (Some ("Query execution failed after "
                                 ++ str_of_int max_retries ++ " attempts: "
                                 ++ e)) initial_state)
             else final_state)
            initial_state
      end }.
Proof. all: lia. Qed.

(** [run_query(user_query, conversation_history, max_retries)];
    [final_state.get] on [None] raises [AttributeError]. *)
Definition run_query (user_query : string)
  (conversation_history : option (list Message)) (max_retries : Z)
  : M (Exc Response) :=
  let initial_state := make_initial_state user_query conversation_history in
  final_state <- retry_loop max_retries 0 None initial_state ;;
  match final_state with
  | None => ret (Raise "'NoneType' object has no attribute 'get'")
  | Some final_state =>
      let insight_data :=
        match insight final_state with
        | Some (InsightDict d) => Some d
        | Some (InsightObject i) => Some (model_dump i)
        | None => None
        end in
      ret (Ok (mkResponse (plan final_state) (chart_spec final_state)
                 insight_data (error final_state) (cache_hit final_state)))
  end.

End Pipeline.

End Orchestrator.

(* ===================================================================== *)
(** * Vocabulary of the properties *)
(* ===================================================================== *)

Module Spec.

Import Guardrail.
Local Open Scope string_scope.

(** A literal that starts and ends with a word character, as every
    keyword does. *)
Definition wordlike (lit : string) : Prop :=
  is_word_opt (head lit) = true /\ is_word_opt (last None lit) = true.

(** [kw] appears in [sql] as a whole word, in any letter case: the text
    splits as [pre ++ w ++ post] where [w] is [kw] up to case and no word
    character touches [w] on either side. *)
Definition whole_word (kw sql : string) : Prop :=
  exists pre w post,
    sql = pre ++ w ++ post /\ upper w = kw
    /\ is_word_opt (last None pre) = false
    /\ is_word_opt (head post) = false.

(** The seven segment filters, in the order the validator examines them. *)
Definition SEGMENT_FIELDS : list string :=
  ["channel"; "grade"; "prod_type"; "repeat_type"; "term"; "cr_fico_band";
   "purpose"].

(** The fields for which the validator lets the sentinel through. *)
Definition accepts_ALL (field : string) : bool :=
  existsb (String.eqb field) ["channel"; "grade"; "prod_type"].

(** A populated value of [field] is acceptable. *)
Definition value_accepted (field : string) (v : SegValue) : bool :=
  (accepts_ALL field && seg_eqb v (SStr "ALL"))
  || seg_in v (subscript ALLOWED_SEGMENTS field).

(** The claim's reading, with the sentinel allowed in every field. *)
Definition value_accepted_as_claimed (field : string) (v : SegValue) : bool :=
  seg_eqb v (SStr "ALL") || seg_in v (subscript ALLOWED_SEGMENTS field).

(** The filter [field] of the plan is populated with a value that is not
    acceptable. *)
Definition offending (plan : Plan) (field : string) : bool :=
  match attr field (segments plan) with
  | Some v => truthy_seg (Some v) && negb (value_accepted field v)
  | None => false
  end.

Definition first_offender (plan : Plan) : option string :=
  find (offending plan) SEGMENT_FIELDS.

(** The message for an offending field: its name, the value, and the
    allowed set. *)
Definition segment_error (plan : Plan) (field : string) : string :=
  let q := if (field =? "term")%string then EmptyString else "'" in
  "Invalid " ++ field ++ " value: " ++ q
  ++ fmt (attr field (segments plan)) ++ q ++ ". Allowed values: "
  ++ joined field
  ++ (if accepts_ALL field then " or 'ALL' for grouping" else EmptyString).

(** The outcome of the two rules that look at the plan only. *)
Definition validate_plan_rules (plan : Plan) : ValidationResult :=
  let segment_check := _validate_segment_filters plan in
  if negb (is_valid segment_check) then segment_check else
  let window_check := _validate_time_window plan in
  if negb (is_valid window_check) then window_check else
  valid.

(** The outcome of the first three rules. *)
Definition validate_first_three (plan : Plan) (sql : string)
  : ValidationResult :=
  let sql_check := _check_sql_safety sql in
  if negb (is_valid sql_check) then sql_check else
  let semicolon_check := _check_multiple_statements sql in
  if negb (is_valid semicolon_check) then semicolon_check else
  let segment_check := _validate_segment_filters plan in
  if negb (is_valid segment_check) then segment_check else
  valid.

(** The plan used by the test-suite of the validator, with the given
    segment filters. *)
Definition sample_plan (segments : SegmentFilters) : Plan :=
  mkPlan "trend" "cps_tb" "issued_amnt" "issued_d" "last_30d" "weekly"
    segments "line".

End Spec.
Import Spec.

Module CacheSpec.

Import CacheTool.

Section Vocabulary.

Variable V : Type.

(** The operation is not a [set] of [key]. *)
Definition no_set_on (key : string) (op : Op V) : Prop :=
  match op with
  | OpSet _ k _ _ => k <> key
  | _ => True
  end.

(** The cache holds [max_size] entries. *)
Definition full (c : InMemoryLRUCache V) : Prop :=
  Z.of_nat (List.length (_cache c)) = max_size c.

(** [key] is stored and its entry has not expired at [now]. *)
Definition live (now : Z) (key : string) (c : InMemoryLRUCache V) : Prop :=
  exists e, getitem key (_cache c) = Some e /\ is_expired now e = false.

(** The recency invariant of a cache whose accesses are ranked by [f] and
    whose history has [n] operations: each key is stored once, the items are
    in the strict order of their last access, and no rank exceeds [n]. *)
Definition recency_inv (n : nat) (f : string -> nat) (d : OrderedDict V)
  : Prop :=
  NoDup (keys d)
  /\ StronglySorted lt (map f (keys d))
  /\ Forall (fun r => (r <= n)%nat) (map f (keys d)).

(** Every entry stored under [key] expires at [t]. *)
Definition expiry_inv (key : string) (t : Z) (d : OrderedDict V) : Prop :=
  forall e, In (key, e) d -> expires_at e = t.

(** The capacity bound: never more than [max_size] entries (none when
    [max_size] is not positive). *)
Definition size_inv (c : InMemoryLRUCache V) : Prop :=
  Z.of_nat (List.length (_cache c)) <= Z.max 0 (max_size c).

End Vocabulary.

End CacheSpec.
Import CacheSpec.


Module PipelineSpec.

Import Guardrail Orchestrator.
Local Open Scope string_scope.

Definition is_cache_set (ev : Event) : bool :=
  match ev with
  | CallCacheSet _ _ _ => true
  | _ => false
  end.

(** The record holds a write to the cache. *)
Definition cache_written (evs : list Event) : Prop :=
  exists key value ex, In (CallCacheSet key value ex) evs.

(** The state is one [cache_store_node] writes: it has a cache key, no
    error, at least one row, and a chart specification or an insight. *)
Definition storable (s : GraphState) : Prop :=
  truthy_str (cache_key s) = true
  /\ truthy_str (error s) = false
  /\ truthy_list (df_dict s) = true
  /\ (truthy_list (chart_spec s) = true \/ truthy_obj (insight s) = true).

(** The number of nodes that a run entering [n] can still go through. *)
Definition rank (n : Node) : nat :=
  match n with
  | router => 8
  | planner => 7
  | cache_check => 6
  | guardrail => 5
  | sql_executor => 4
  | chart => 3
  | insights => 2
  | cache_store => 1
  | memory => 1
  end.

(** A call to the validator passes the empty string as the SQL text. *)
Definition validates_empty_sql (ev : Event) : Prop :=
  match ev with
  | CallValidate _ sql => sql = EmptyString
  | _ => True
  end.

(** The number of times the graph was started: the entries of [router]. *)
Definition invocations (evs : list Event) : nat :=
  List.length
    (filter (fun ev => match ev with Enter router => true | _ => false end)
       evs).

Section Summary.

Variable sha256_hexdigest : string -> string.

(** What one node does: the calls it records and the state it returns. *)
Definition NodeSpec (n : Node) (s s' : GraphState) (evs : list Event)
  : Prop :=
  match n with
  | router =>
      evs = [CallClassify]
      /\ ((exists i, s' = set_intent (Some i) s)
          \/ (exists e,
                s' = set_intent (Some "trend")
                       (set_error
                          (Some ("Intent classification failed: " ++ e)) s)))
  | memory =>
      (evs = [] \/ evs = [CallExplain])
      /\ cache_hit s' = cache_hit s /\ intent s' = intent s
  | planner =>
      evs = [CallMakePlan]
      /\ ((exists p,
             s' = set_cache_key (Some (Schemas.cache_key sha256_hexdigest p))
                    (set_plan (Some p) s))
          \/ (exists e,
                s' = set_error (Some ("Query planning failed: " ++ e)) s))
  | cache_check =>
      (evs = [] \/ exists key, evs = [CallCacheGet key])
      /\ error s' = error s /\ plan s' = plan s /\ intent s' = intent s
  | guardrail =>
      match plan s with
      | None => evs = [] /\ s' = set_error (Some "No plan to validate") s
      | Some p =>
          evs = [CallValidate p EmptyString]
          /\ s' = if is_valid (validate p EmptyString) then s
                  else set_error (error_message (validate p EmptyString)) s
      end
  | sql_executor =>
      (evs = [] \/ evs = [CallSqlRun])
      /\ cache_hit s' = cache_hit s /\ intent s' = intent s
  | chart =>
      (evs = [] \/ evs = [CallChartBuild])
      /\ cache_hit s' = cache_hit s /\ intent s' = intent s
      /\ error s' = error s
  | insights =>
      (evs = [] \/ evs = [CallSummarize])
      /\ cache_hit s' = cache_hit s /\ intent s' = intent s
      /\ error s' = error s
  | cache_store =>
      s' = s
      /\ (evs = []
          \/ (storable s
              /\ exists key value, evs = [CallCacheSet key value (Some 600)]))
  end.

End Summary.

(** Sample collaborators for closed examples: the environment is a clock
    that every call advances by one. *)
Definition SampleEnv : Type := nat.

Definition sample_time (e : SampleEnv) : Z * SampleEnv := (Z.of_nat e, S e).

Definition classify_fails (q : string) (h : list Message) (e : SampleEnv)
  : Exc string * SampleEnv := (Raise "API error", S e).

Definition classify_trend (q : string) (h : list Message) (e : SampleEnv)
  : Exc string * SampleEnv := (Ok "trend", S e).

Definition classify_explain (q : string) (h : list Message) (e : SampleEnv)
  : Exc string * SampleEnv := (Ok "explain", S e).

Definition sample_explain (q : string) (e : SampleEnv)
  : Exc string * SampleEnv :=
  (Ok "Funding rate is the percentage of submissions that result in issuance.",
   S e).

Definition sample_make_plan (q : string) (i : option string)
  (h : list Message) (e : SampleEnv) : Exc Plan * SampleEnv :=
  (Ok (sample_plan []), S e).

Definition sample_sql_run (p : Plan) (e : SampleEnv)
  : Exc (list Row) * SampleEnv :=
  (Ok [[("week", "2024-W01"); ("metric_value", "1000000")]], S e).

Definition sample_chart_build (p : Plan) (rows : list Row) (e : SampleEnv)
  : Exc ChartSpec * SampleEnv := (Ok [("data", "[]"); ("layout", "{}")], S e).

Definition sample_summarize (p : Plan) (rows : list Row) (e : SampleEnv)
  : Exc Insight * SampleEnv :=
  (Ok (mkInsight "Trend Analysis" "Issuance shows stable trend." [] []), S e).

Definition sample_hash (text : string) : string := text.

Definition sample_world : World SampleEnv := mkWorld 0%nat None [].

(** [run_query] with the sample collaborators, for a given classifier. *)
Definition sample_run_query
  (classify : string -> list Message -> SampleEnv -> Exc string * SampleEnv)
  : string -> option (list Message) -> Z -> M SampleEnv (Exc Response) :=
  run_query sample_time classify true sample_explain sample_make_plan
    sample_sql_run sample_chart_build sample_summarize sample_hash.

Definition sample_invoke
  (classify : string -> list Message -> SampleEnv -> Exc string * SampleEnv)
  : GraphState -> M SampleEnv (Exc GraphState) :=
  invoke sample_time classify true sample_explain sample_make_plan
    sample_sql_run sample_chart_build sample_summarize sample_hash.

End PipelineSpec.
Import PipelineSpec.


(* ===================================================================== *)
(** * Further code: string helpers, tools/sql_tool.py, agents/planner.py *)
(* ===================================================================== *)

Module PyMore.

Local Open Scope string_scope.

(** [s.count(c)] for a character [c]. *)
Fixpoint count_char (c : ascii) (s : string) : nat :=
  match s with
  | EmptyString => 0
  | String a s' => (if Ascii.eqb a c then 1 else 0) + count_char c s'
  end.

Definition lower_char (c : ascii) : ascii :=
  if is_upper c then ascii_of_nat (code c + 32) else c.

(** [s.lower()] for an ASCII text. *)
Fixpoint lower (s : string) : string :=
  match s with
  | EmptyString => EmptyString
  | String c s' => String (lower_char c) (lower s')
  end.

(** [s.startswith(p)] *)
Definition startswith (p s : string) : bool :=
  match strip_prefix p s with
  | Some _ => true
  | None => false
  end.

(** [needle in hay] for strings. *)
Fixpoint contains (needle hay : string) : bool :=
  startswith needle hay
  || match hay with
     | EmptyString => false
     | String _ hay' => contains needle hay'
     end.

Definition is_empty (s : string) : bool :=
  match s with
  | EmptyString => true
  | String _ _ => false
  end.

(** [s.replace(old, new)]: every occurrence of [old], left to right and
    without overlap; [skip] counts the characters of the occurrence being
    replaced that are still to be passed over. *)
Fixpoint replace_from (old new s : string) (skip : nat) : string :=
  match s with
  | EmptyString => if is_empty old then new else EmptyString
  | String c s' =>
      match skip with
      | S k => replace_from old new s' k
      | O =>
          if startswith old s then
            if is_empty old then new ++ String c (replace_from old new s' 0)
            else new ++ replace_from old new s' (String.length old - 1)
          else String c (replace_from old new s' 0)
      end
  end.

Definition replace (old new s : string) : string := replace_from old new s 0.

(** [x in xs] for a list of strings. *)
Definition str_in (x : string) (xs : list string) : bool :=
  existsb (String.eqb x) xs.

End PyMore.
Import PyMore.

Module SqlTool.

Import Guardrail.
Local Open Scope string_scope.

(** [_build_segment_filters]: the dict of filter placeholders, in the order
    its keys are written. *)
Definition _build_segment_filters (plan : Plan) : list (string * string) :=
  let segments := segments plan in
  [ ("channel_filter",
     if truthy_seg (channel segments) && is_not_ALL (channel segments)
     then "AND channel = '" ++ fmt (channel segments) ++ "'"
     else EmptyString);
    ("grade_filter",
     if truthy_seg (grade segments) && is_not_ALL (grade segments)
     then "AND grade = '" ++ fmt (grade segments) ++ "'"
     else EmptyString);
    ("prod_type_filter",
     if truthy_seg (prod_type segments) && is_not_ALL (prod_type segments)
     then "AND prod_type = '" ++ fmt (prod_type segments) ++ "'"
     else EmptyString);
    ("repeat_type_filter",
     if truthy_seg (repeat_type segments)
     then "AND repeat_type = '" ++ fmt (repeat_type segments) ++ "'"
     else EmptyString);
    ("term_filter",
     if truthy_seg (term segments)
     then "AND term = " ++ fmt (term segments)
     else EmptyString);
    ("fico_band_filter",
     if truthy_seg (cr_fico_band segments)
     then "AND cr_fico_band = '" ++ fmt (cr_fico_band segments) ++ "'"
     else EmptyString);
    ("purpose_filter",
     if truthy_seg (purpose segments)
     then "AND purpose = '" ++ fmt (purpose segments) ++ "'"
     else EmptyString) ].

End SqlTool.

Module Planner.

Local Open Scope string_scope.

Definition set_granularity (v : string) (p : Plan) : Plan :=
  mkPlan (intent p) (table p) (metric p) (date_col p) (window p) v
    (segments p) (chart p).

Definition set_chart (v : string) (p : Plan) : Plan :=
  mkPlan (intent p) (table p) (metric p) (date_col p) (window p)
    (granularity p) (segments p) v.

Definition set_table (v : string) (p : Plan) : Plan :=
  mkPlan (intent p) v (metric p) (date_col p) (window p) (granularity p)
    (segments p) (chart p).

Definition set_date_col (v : string) (p : Plan) : Plan :=
  mkPlan (intent p) (table p) (metric p) v (window p) (granularity p)
    (segments p) (chart p).

Definition set_metric (v : string) (p : Plan) : Plan :=
  mkPlan (intent p) (table p) v (date_col p) (window p) (granularity p)
    (segments p) (chart p).

(** The local dict [chart_mapping] of [_apply_default_rules]. *)
Definition chart_mapping : list (string * string) :=
  [ ("trend", "line"); ("variance", "line");
    ("forecast_vs_actual", "grouped_bar");
    ("forecast_gap_analysis", "waterfall"); ("funnel", "funnel");
    ("distribution", "pie"); ("relationship", "scatter");
    ("multi_metric", "line"); ("explain", "line") ].

Fixpoint lookup (d : list (string * string)) (k : string) : option string :=
  match d with
  | [] => None
  | (k', v) :: d' => if (k' =? k)%string then Some v else lookup d' k
  end.

(** [_apply_default_rules(plan, user_query)]; the assignments to the plan
    are made in the order of the source. *)
Definition _apply_default_rules (plan : Plan) (user_query : string) : Plan :=
  let user_query_lower := lower user_query in
  let plan :=
    if negb (contains "daily" user_query_lower)
       && negb (contains "weekly" user_query_lower)
       && negb (contains "monthly" user_query_lower)
    then
      if str_in (window plan)
           ["last_7d"; "last_full_week"; "last_30d"; "last_full_month"; "mtd"]
      then set_granularity "daily" plan
      else if str_in (window plan)
                ["last_3_full_months"; "last_full_quarter"; "qtd"]
      then set_granularity "weekly" plan
      else if str_in (window plan) ["last_full_year"; "ytd"]
      then set_granularity "monthly" plan
      else set_granularity "weekly" plan
    else plan in
  let plan :=
    match lookup chart_mapping (intent plan) with
    | Some c => set_chart c plan
    | None => plan
    end in
  let plan :=
    if str_in (intent plan) ["forecast_vs_actual"; "forecast_gap_analysis"]
    then set_date_col "date" (set_table "forecast_df" plan)
    else set_table "cps_tb" plan in
  let plan :=
    if str_in (intent plan) ["trend"; "variance"]
       && contains "_count" (metric plan)
    then
      if negb (contains "number" user_query_lower)
         && negb (contains "count" user_query_lower)
      then set_metric (replace "_count" "_amnt" (metric plan)) plan
      else plan
    else plan in
  plan.

(** [_validate_plan(plan)]; the warnings it logs are left out. *)
Definition _validate_plan (plan : Plan) : Plan :=
  let plan :=
    if (table plan =? "forecast_df")%string
       && negb (date_col plan =? "date")%string
    then set_date_col "date" plan else plan in
  let plan :=
    if (table plan =? "cps_tb")%string && (date_col plan =? "date")%string
    then set_date_col "app_submit_d" plan else plan in
  let plan :=
    if (intent plan =? "forecast_vs_actual")%string then
      if negb (contains "forecast" (lower (metric plan)))
         && negb (contains "actual" (lower (metric plan)))
      then set_metric "issued_amnt" plan
      else plan
    else plan in
  plan.

(** The post-processing [make_plan] applies to the plan it parsed. *)
Definition post_process (plan : Plan) (user_query : string) : Plan :=
  _validate_plan (_apply_default_rules plan user_query).

End Planner.


(** Vocabulary for the statement rule of the validator. *)
Module TextSpec.

Local Open Scope string_scope.

(** Every character of [s] is white space. *)
Fixpoint all_space (s : string) : bool :=
  match s with
  | EmptyString => true
  | String c s' => is_space c && all_space s'
  end.

(** [sql] holds a single statement: no semicolon at all, or exactly one,
    followed by white space only. *)
Definition single_statement (sql : string) : Prop :=
  count_char ";" sql = 0%nat
  \/ exists body ws,
       sql = body ++ ";" ++ ws
       /\ count_char ";" body = 0%nat /\ all_space ws = true.

End TextSpec.
Import TextSpec.


(** Vocabulary for histories of cache operations. *)
Module CacheHistory.

Import CacheTool.

Section Vocabulary.

Variable V : Type.

(** The arguments [(now, value, ex)] of the latest [set] of [key] in the
    history [ops], if there is one. *)
Fixpoint last_set (key : string) (ops : list (Op V))
  : option (Z * V * option Z) :=
  match ops with
  | [] => None
  | op :: ops' =>
      match last_set key ops' with
      | Some x => Some x
      | None =>
          match op with
          | OpSet now k v ex =>
              if (k =? key)%string then Some (now, v, ex) else None
          | _ => None
          end
      end
  end.

(** The entry is kept by a sweep that reads [clock key] when it examines
    [key]. *)
Definition kept (clock : string -> Z) (kv : string * CacheEntry V) : bool :=
  negb (is_expired (clock (fst kv)) (snd kv)).

End Vocabulary.

End CacheHistory.
Import CacheHistory.


(** Vocabulary for the runs of the graph. *)
Module GraphSpec.

Import Guardrail Orchestrator.
Local Open Scope string_scope.

(** The nodes entered, in order, according to the record. *)
Fixpoint entered (evs : list Event) : list Node :=
  match evs with
  | [] => []
  | Enter n :: evs' => n :: entered evs'
  | _ :: evs' => entered evs'
  end.

(** The four routes through the graph of [create_graph]. *)
Definition route_explain : list Node := [router; memory].
Definition route_short : list Node := [router; planner; cache_check].
Definition route_rejected : list Node :=
  [router; planner; cache_check; guardrail].
Definition route_full : list Node :=
  [router; planner; cache_check; guardrail; sql_executor; chart; insights;
   cache_store].

(** The insight [memory_node] builds around a text. *)
Definition explanation (text : string) : option InsightValue :=
  Some (InsightObject (mkInsight "Explanation" text [] [])).

(** The state [cache_check_node] returns on a hit. *)
Definition served (cached : CacheValue) (s : GraphState) : GraphState :=
  set_insight (option_map InsightDict (cv_insight cached))
    (set_chart_spec (cv_chart_spec cached)
       (set_df_dict (cv_df_dict cached) (set_cache_hit true s))).

(** The bundle [cache_store_node] writes for a state. *)
Definition bundle (s : GraphState) : CacheValue :=
  mkCacheValue (df_dict s) (chart_spec s)
    match insight s with
    | Some (InsightObject i) => Some (model_dump i)
    | _ => None
    end.

Section Effects.

Variable sha256_hexdigest : string -> string.

(** What one node does, in full: the calls it records and how the state it
    returns is made from the one it got. *)
Definition NodeEffect (n : Node) (s s' : GraphState) (evs : list Event)
  : Prop :=
  match n with
  | router =>
      evs = [CallClassify]
      /\ ((exists i, s' = set_intent (Some i) s)
          \/ (exists e,
                s' = set_intent (Some "trend")
                       (set_error
                          (Some ("Intent classification failed: " ++ e)) s)))
  | memory =>
      (evs = [] /\ exists x, s' = set_insight (explanation x) s)
      \/ (evs = [CallExplain]
          /\ ((exists x, s' = set_insight (explanation x) s)
              \/ (exists x e,
                    s' = set_insight (explanation x)
                           (set_error
                              (Some ("Explanation retrieval failed: " ++ e))
                              s))))
  | planner =>
      evs = [CallMakePlan]
      /\ ((exists p,
             s' = set_cache_key (Some (Schemas.cache_key sha256_hexdigest p))
                    (set_plan (Some p) s))
          \/ (exists e,
                s' = set_error (Some ("Query planning failed: " ++ e)) s))
  | cache_check =>
      (evs = [] /\ truthy_str (cache_key s) = false
       /\ s' = set_cache_hit false s)
      \/ (exists key,
            cache_key s = Some key /\ evs = [CallCacheGet key]
            /\ (s' = set_cache_hit false s
                \/ exists cached, s' = served cached s))
  | guardrail =>
      match plan s with
      | None => evs = [] /\ s' = set_error (Some "No plan to validate") s
      | Some p =>
          evs = [CallValidate p EmptyString]
          /\ s' = if is_valid (validate p EmptyString) then s
                  else set_error (error_message (validate p EmptyString)) s
      end
  | sql_executor =>
      match plan s with
      | None => evs = [] /\ s' = set_error (Some "No plan to execute") s
      | Some p =>
          evs = [CallSqlRun]
          /\ ((exists rows, s' = set_df_dict (Some rows) s)
              \/ (exists e,
                    s' = set_error (Some ("Query execution failed: " ++ e))
                           s))
      end
  | chart =>
      (evs = [] /\ s' = s
       /\ (plan s = None \/ truthy_list (df_dict s) = false))
      \/ (evs = [CallChartBuild]
          /\ plan s <> None /\ truthy_list (df_dict s) = true
          /\ (s' = s \/ exists spec, s' = set_chart_spec (Some spec) s))
  | insights =>
      (evs = [] /\ s' = s
       /\ (plan s = None \/ truthy_list (df_dict s) = false))
      \/ (evs = [CallSummarize]
          /\ plan s <> None /\ truthy_list (df_dict s) = true
          /\ (s' = s
              \/ exists i, s' = set_insight (Some (InsightObject i)) s))
  | cache_store =>
      s' = s
      /\ (evs = []
          \/ (storable s
              /\ exists key,
                   cache_key s = Some key
                   /\ evs = [CallCacheSet key (bundle s) (Some 600)]))
  end.

End Effects.

End GraphSpec.
Import GraphSpec.


(** Vocabulary for the filter clauses and for the planner's rules. *)
Module FilterSpec.

Import Guardrail.
Local Open Scope string_scope.

(** The clause that filters [field] on the value [v]; [term] is compared
    without quotes. *)
Definition clause_for (field : string) (v : SegValue) : string :=
  if (field =? "term")%string then "AND " ++ field ++ " = " ++ seg_str v
  else "AND " ++ field ++ " = '" ++ seg_str v ++ "'".

(** Every clause that filters a field on one of its allowed values. *)
Definition allowed_clauses : list string :=
  flat_map (fun fv => map (clause_for (fst fv)) (snd fv)) ALLOWED_SEGMENTS.

(** The intents answered from the forecast table. *)
Definition forecast_intent (i : string) : bool :=
  str_in i ["forecast_vs_actual"; "forecast_gap_analysis"].

End FilterSpec.
Import FilterSpec.


(** tools/sql_tool.py, continued: the forecast columns of a metric. *)
Module SqlForecast.

Local Open Scope string_scope.

Definition issuance_columns : list (string * string) :=
  [ ("forecast_col", "forecast_issuance");
    ("outlook_col", "outlook_issuance");
    ("actual_col", "actual_issuance") ].

(** [_build_forecast_columns(metric)]: the dict of the three column names. *)
Definition _build_forecast_columns (metric : string)
  : list (string * string) :=
  if contains "submit" (lower metric) then
    [ ("forecast_col", "forecast_app_submits");
      ("outlook_col", "outlook_app_submits");
      ("actual_col", "actual_app_submits") ]
  else if contains "approv" (lower metric) then
    [ ("forecast_col", "forecast_apps_approved");
      ("outlook_col", "outlook_apps_approved");
      ("actual_col", "actual_apps_approved") ]
  else if contains "issue" (lower metric)
          || contains "issuance" (lower metric) then
    [ ("forecast_col", "forecast_issuance");
      ("outlook_col", "outlook_issuance");
      ("actual_col", "actual_issuance") ]
  else
    [ ("forecast_col", "forecast_issuance");
      ("outlook_col", "outlook_issuance");
      ("actual_col", "actual_issuance") ].

End SqlForecast.


(** tools/sql_tool.py, continued: the grouping column [run] chooses. *)
Module SqlRun.

Local Open Scope string_scope.

(** [opt == "ALL"] *)
Definition is_ALL (o : option SegValue) : bool :=
  match o with
  | Some v => seg_eqb v (SStr "ALL")
  | None => false
  end.

(** The value [run] gives [segment_by] for a plan whose intent is
    "distribution": the first filter that holds the sentinel "ALL", else the
    first populated filter after [channel], else "channel". *)
Definition distribution_segment_by (plan : Plan) : string :=
  let segments := segments plan in
  if is_ALL (channel segments) then "channel"
  else if is_ALL (grade segments) then "grade"
  else if is_ALL (prod_type segments) then "prod_type"
  else if is_ALL (cr_fico_band segments) then "cr_fico_band"
  else if is_ALL (repeat_type segments) then "repeat_type"
  else if is_ALL (term segments) then "term"
  else if is_ALL (purpose segments) then "purpose"
  else if truthy_seg (grade segments) then "grade"
  else if truthy_seg (prod_type segments) then "prod_type"
  else if truthy_seg (cr_fico_band segments) then "cr_fico_band"
  else if truthy_seg (repeat_type segments) then "repeat_type"
  else if truthy_seg (term segments) then "term"
  else if truthy_seg (purpose segments) then "purpose"
  else "channel".

End SqlRun.


(* ===================================================================== *)
(** ** agents/router.py *)
(* ===================================================================== *)

Module Router.

Import Orchestrator.
Local Open Scope string_scope.

(** The local list [valid_intents] of [classify]. *)
Definition valid_intents : list string :=
  ["trend"; "variance"; "forecast_vs_actual"; "funnel"; "distribution";
   "relationship"; "multi_metric"; "explain"].

Section Classify.

Variable Env : Type.

(** What [classify] does inside its [try] up to [args.get("intent")]: it
    gets the client, builds the prompt, calls the OpenAI API and parses the
    answer.  [Ok (Some i)] is an answer whose intent is the string [i],
    [Ok None] an answer without an intent, [Raise] any exception raised on
    the way (no client, a failed call, no function call in the answer,
    arguments that are not JSON).  An intent that is not a string is in no
    list of strings and ends like an invalid one. *)
Variable openai_intent :
  string -> list Message -> Env -> Exc (option string) * Env.

(** [classify(user_query, conversation_history)].  The [ValueError]s raised
    for a missing and for an invalid intent, like every exception of the
    call, are caught by the [except Exception] of the function, which
    answers "trend": [classify] returns a string and never raises. *)
Definition classify (user_query : string)
  (conversation_history : list Message) (e : Env) : string * Env :=
  let (r, e') := openai_intent user_query conversation_history e in
  match r with
  | Ok (Some intent) =>
      if negb (truthy_str (Some intent)) then ("trend", e')
      else if negb (str_in intent valid_intents) then ("trend", e')
      else (intent, e')
  | Ok None => ("trend", e')
  | Raise _ => ("trend", e')
  end.

(** The call [router.classify(...)] as [router_node] makes it. *)
Definition classify_call (user_query : string)
  (conversation_history : list Message) (e : Env) : Exc string * Env :=
  let (intent, e') := classify user_query conversation_history e in
  (Ok intent, e').

End Classify.



End Router.


(* ===================================================================== *)
(** * Properties *)
(* ===================================================================== *)

(** ** Strings and the word-boundary search *)

Module PyFacts.

Local Open Scope string_scope.

Lemma append_assoc (a b c : string) : (a ++ b) ++ c = a ++ (b ++ c).
Proof. induction a as [|x a IH]; simpl; [reflexivity | now rewrite IH]. Qed.

Lemma upper_app (a b : string) : upper (a ++ b) = upper a ++ upper b.
Proof. induction a as [|x a IH]; simpl; [reflexivity | now rewrite IH]. Qed.

(** Case mapping does not change the class of a character. *)
Lemma is_word_upper_char (c : ascii) : is_word (upper_char c) = is_word c.
Proof. destruct c as [[] [] [] [] [] [] [] []]; reflexivity. Qed.

Lemma is_word_last_upper (before : option ascii) (s : string) :
  is_word_opt (last (option_map upper_char before) (upper s))
  = is_word_opt (last before s).
Proof.
  revert before; induction s as [|c s IH]; intros before; simpl.
  - destruct before; simpl; [apply is_word_upper_char | reflexivity].
  - apply (IH (Some c)).
Qed.

Lemma is_word_last_upper_None (s : string) :
  is_word_opt (last None (upper s)) = is_word_opt (last None s).
Proof. exact (is_word_last_upper None s). Qed.

Lemma is_word_head_upper (s : string) :
  is_word_opt (head (upper s)) = is_word_opt (head s).
Proof. destruct s; simpl; [reflexivity | apply is_word_upper_char]. Qed.

(** A split of [upper s] comes from a split of [s]. *)
Lemma upper_split (s a b : string) :
  upper s = a ++ b ->
  exists x y, s = x ++ y /\ upper x = a /\ upper y = b.
Proof.
  revert s; induction a as [|c a IH]; intros s H; simpl in H.
  - exists EmptyString, s. auto.
  - destruct s as [|d s]; simpl in H; [discriminate|].
    injection H as Hc Hs. destruct (IH _ Hs) as (x & y & -> & Hx & Hy).
    exists (String d x), y. simpl. now rewrite Hc, Hx, Hy.
Qed.

Lemma strip_prefix_spec (p s r : string) :
  strip_prefix p s = Some r <-> s = p ++ r.
Proof.
  revert s; induction p as [|a p IH]; intros s; simpl.
  - split; [now intros [= ->] | now intros ->].
  - destruct s as [|b s]; [split; discriminate|].
    destruct (Ascii.eqb_spec a b) as [->|Hab].
    + rewrite IH. split; [now intros -> | now intros [= ->]].
    + split; [discriminate | intros [= Hb _]; now elim Hab].
Qed.

Lemma last_nonempty (b1 b2 : option ascii) (c : ascii) (s : string) :
  last b1 (String c s) = last b2 (String c s).
Proof. reflexivity. Qed.

Lemma head_app_wordlike (lit rest : string) :
  wordlike lit -> is_word_opt (head (lit ++ rest)) = true.
Proof. intros [H _]. destruct lit; simpl in *; [discriminate | exact H]. Qed.

Lemma last_wordlike (before : option ascii) (lit : string) :
  wordlike lit -> is_word_opt (last before lit) = true.
Proof. intros [H1 H2]. destruct lit; simpl in *; [discriminate | exact H2]. Qed.

Lemma match_here_spec (before : option ascii) (lit s : string) :
  wordlike lit ->
  match_here before lit s = true <->
  exists post, s = lit ++ post /\ is_word_opt before = false
               /\ is_word_opt (head post) = false.
Proof.
  intros W. unfold match_here, word_boundary. split.
  - intros H. apply andb_true_iff in H as [H1 H2].
    destruct (strip_prefix lit s) as [rest|] eqn:E; [|discriminate].
    apply strip_prefix_spec in E. subst s. exists rest.
    rewrite (head_app_wordlike rest W) in H1.
    rewrite (last_wordlike before W) in H2.
    split; [reflexivity|].
    destruct (is_word_opt before), (is_word_opt (head rest));
      simpl in *; auto; discriminate.
  - intros (post & -> & Hb & Hp).
    rewrite (head_app_wordlike post W), Hb. simpl.
    assert (E : strip_prefix lit (lit ++ post) = Some post)
      by now apply strip_prefix_spec.
    rewrite E, (last_wordlike before W), Hp. reflexivity.
Qed.

(** The search succeeds exactly when the text splits around an occurrence
    of the literal that has no word character on either side. *)
Lemma search_from_spec (lit : string) :
  wordlike lit ->
  forall (s : string) (before : option ascii),
  search_from before lit s = true <->
  exists pre post, s = pre ++ lit ++ post
                   /\ is_word_opt (last before pre) = false
                   /\ is_word_opt (head post) = false.
Proof.
  intros W. split.
  - revert before. induction s as [|c s IH]; intros before H; simpl in H;
      apply orb_true_iff in H as [H|H].
    + apply (match_here_spec before _ W) in H as (post & E & Hb & Hp).
      exists EmptyString, post. auto.
    + discriminate.
    + apply (match_here_spec before _ W) in H as (post & E & Hb & Hp).
      exists EmptyString, post. auto.
    + destruct (IH _ H) as (pre & post & -> & Hb & Hp).
      exists (String c pre), post. auto.
  - intros (pre & post & -> & Hb & Hp). revert before Hb.
    induction pre as [|c pre IH]; intros before Hb.
    + simpl in Hb.
      assert (M : match_here before lit (lit ++ post) = true).
      { apply match_here_spec; [exact W|]. exists post. auto. }
      simpl (EmptyString ++ _). destruct (lit ++ post); simpl; rewrite M;
        reflexivity.
    + simpl. apply orb_true_iff. right. apply IH. exact Hb.
Qed.

End PyFacts.

(** ** The guardrail *)

Module GuardrailFacts.

Import Guardrail PyFacts.
Local Open Scope string_scope.

Lemma keywords_wordlike : Forall wordlike DANGEROUS_KEYWORDS.
Proof. repeat constructor. Qed.

(** The regular-expression search on the upper-cased text finds the keyword
    exactly when it is a whole word of the text, in any letter case. *)
Lemma re_search_word_upper (kw sql : string) :
  wordlike kw ->
  re_search_word kw (upper sql) = true <-> whole_word kw sql.
Proof.
  intros W. unfold re_search_word. rewrite (search_from_spec W). split.
  - intros (pre & post & E & Hb & Hp).
    apply upper_split in E as (x & y & -> & Hx & Hy).
    apply upper_split in Hy as (w & z & -> & Hw & Hz).
    exists x, w, z. subst pre post. repeat split; auto.
    + now rewrite <- is_word_last_upper_None.
    + now rewrite <- is_word_head_upper.
  - intros (pre & w & post & -> & Hw & Hb & Hp).
    exists (upper pre), (upper post). rewrite !upper_app, Hw.
    repeat split.
    + now rewrite is_word_last_upper_None.
    + now rewrite is_word_head_upper.
Qed.

Lemma first_keyword_some (kws : list string) (s kw : string) :
  first_keyword kws s = Some kw -> In kw kws /\ re_search_word kw s = true.
Proof.
  induction kws as [|k kws IH]; simpl; [discriminate|].
  destruct (re_search_word k s) eqn:E.
  - intros [= <-]. auto.
  - intros H. destruct (IH H). auto.
Qed.

Lemma first_keyword_none (kws : list string) (s : string) :
  first_keyword kws s = None <->
  forall kw, In kw kws -> re_search_word kw s = false.
Proof.
  induction kws as [|k kws IH]; simpl.
  - split; [intros _ kw [] | reflexivity].
  - destruct (re_search_word k s) eqn:E.
    + split; [discriminate|]. intros H. specialize (H k (or_introl eq_refl)).
      congruence.
    + rewrite IH. split.
      * intros H kw [<-|Hin]; auto.
      * intros H kw Hin. apply H. now right.
Qed.

(** The keyword rule rejects exactly the texts that hold a denylisted
    keyword as a whole word. *)
Lemma check_sql_safety_spec (sql : string) :
  is_valid (_check_sql_safety sql) = false <->
  exists kw, In kw DANGEROUS_KEYWORDS /\ whole_word kw sql.
Proof.
  unfold _check_sql_safety.
  destruct (first_keyword DANGEROUS_KEYWORDS (upper sql)) as [kw|] eqn:E;
    simpl.
  - split; [intros _ | reflexivity].
    apply first_keyword_some in E as [Hin Hs]. exists kw. split; [exact Hin|].
    apply re_search_word_upper; [|exact Hs].
    exact (proj1 (Forall_forall _ _) keywords_wordlike kw Hin).
  - split; [discriminate|]. intros (kw & Hin & Hw).
    rewrite first_keyword_none in E. specialize (E kw Hin).
    apply re_search_word_upper in Hw; [congruence|].
    exact (proj1 (Forall_forall _ _) keywords_wordlike kw Hin).
Qed.

Lemma check_sql_safety_result (sql : string) :
  _check_sql_safety sql = valid
  \/ exists kw, In kw DANGEROUS_KEYWORDS /\
       _check_sql_safety sql =
       mkValidationResult false
         (Some ("SQL query contains forbidden keyword: " ++ kw)) true.
Proof.
  unfold _check_sql_safety.
  destruct (first_keyword DANGEROUS_KEYWORDS (upper sql)) as [kw|] eqn:E.
  - right. exists kw. apply first_keyword_some in E as [Hin _]. auto.
  - now left.
Qed.

Lemma dict_get_bound (d : list (string * Z)) (k : string) (def bound : Z) :
  Forall (fun kv => snd kv <= bound) d -> def <= bound ->
  dict_get d k def <= bound.
Proof.
  intros Hd Hdef. induction Hd as [|[k' v] d Hv _ IH]; simpl; [exact Hdef|].
  destruct (k' =? k)%string; [exact Hv | exact IH].
Qed.

Lemma dict_get_default (d : list (string * Z)) (k : string) (def : Z) :
  existsb (String.eqb k) (map fst d) = false -> dict_get d k def = def.
Proof.
  induction d as [|[k' v] d IH]; simpl; [reflexivity|].
  rewrite (String.eqb_sym k k'). destruct (k' =? k)%string; simpl;
    [discriminate | exact IH].
Qed.

Lemma window_days_at_most_93 : Forall (fun kv => snd kv <= 93) window_days.
Proof. repeat constructor; simpl; lia. Qed.

(** Every window code maps to a day count of at most 93. *)
Lemma window_days_bound (code : string) :
  dict_get window_days code 30 <= 93.
Proof. apply dict_get_bound; [exact window_days_at_most_93 | lia]. Qed.

Lemma validate_time_window_valid (plan : Plan) :
  _validate_time_window plan = valid.
Proof.
  unfold _validate_time_window, MAX_TIME_WINDOW_DAYS.
  pose proof (window_days_bound (window plan)) as H.
  destruct (dict_get window_days (window plan) 30 >? 365) eqn:E;
    [|reflexivity].
  apply Z.gtb_lt in E. lia.
Qed.

End GuardrailFacts.

Import GuardrailFacts.

(** C10.  The time-window rule never rejects: a known window code maps to at
    most 93 days and an unknown one to the default of 30, both under the
    ceiling of 365 days, so [_validate_time_window] answers valid for every
    plan and [validate] is decided by its first three rules. *)
Theorem time_window_rule_never_rejects :
  forall (plan : Plan) (sql : string),
    Forall (fun kv => snd kv <= 93) Guardrail.window_days
    /\ ((existsb (String.eqb (window plan)) (map fst Guardrail.window_days)
         = true
         /\ Guardrail.dict_get Guardrail.window_days (window plan) 30 <= 93)
        \/ (existsb (String.eqb (window plan))
              (map fst Guardrail.window_days) = false
            /\ Guardrail.dict_get Guardrail.window_days (window plan) 30
               = 30))
    /\ 93 < Guardrail.MAX_TIME_WINDOW_DAYS
    /\ Guardrail._validate_time_window plan = Guardrail.valid
    /\ Guardrail.validate plan sql = validate_first_three plan sql.
Proof.
  intros plan sql. split; [|split; [|split; [|split]]].
  - exact window_days_at_most_93.
  - destruct (existsb (String.eqb (window plan))
                (map fst Guardrail.window_days)) eqn:E.
    + left. split; [reflexivity | apply window_days_bound].
    + right. split; [reflexivity | now apply dict_get_default].
  - reflexivity.
  - apply validate_time_window_valid.
  - unfold Guardrail.validate, validate_first_three.
    rewrite validate_time_window_valid. reflexivity.
Qed.

(** C7.  On an ASCII text, [validate] answers invalid, flagged as a security
    event, whenever a denylisted keyword occurs in the SQL text as a whole
    word, in any letter case; a text in which no keyword occurs as a whole
    word (a keyword that is only part of a longer identifier, such as
    INSERT_DATE) passes the keyword rule.  (On a text with other characters
    the case mapping and the word boundaries are those of Unicode, which are
    not modelled.) *)
Theorem forbidden_keyword_whole_word :
  forall (plan : Plan) (sql : string),
    is_ascii sql = true ->
    (Guardrail.is_valid (Guardrail._check_sql_safety sql) = false <->
     exists kw, In kw Guardrail.DANGEROUS_KEYWORDS /\ whole_word kw sql)
    /\ ((exists kw, In kw Guardrail.DANGEROUS_KEYWORDS /\ whole_word kw sql) ->
        Guardrail.is_valid (Guardrail.validate plan sql) = false
        /\ Guardrail.security_event (Guardrail.validate plan sql) = true
        /\ exists kw, In kw Guardrail.DANGEROUS_KEYWORDS /\
             Guardrail.error_message (Guardrail.validate plan sql)
             = Some ("SQL query contains forbidden keyword: " ++ kw)%string)
    /\ ((forall kw, In kw Guardrail.DANGEROUS_KEYWORDS -> ~ whole_word kw sql) ->
        Guardrail._check_sql_safety sql = Guardrail.valid).
Proof.
  intros plan sql _. split; [apply check_sql_safety_spec|]. split.
  - intros H. apply check_sql_safety_spec in H.
    unfold Guardrail.validate.
    destruct (check_sql_safety_result sql) as [E|(kw & Hin & E)];
      rewrite E in *; simpl in *; [discriminate|].
    repeat split. exists kw. auto.
  - intros H.
    destruct (check_sql_safety_result sql) as [E|(kw & Hin & E)];
      [exact E|].
    exfalso.
    assert (F : Guardrail.is_valid (Guardrail._check_sql_safety sql) = false)
      by now rewrite E.
    apply check_sql_safety_spec in F as (kw' & Hin' & Hw). exact (H kw' Hin' Hw).
Qed.

Lemma forbidden_keyword_whole_word_witness :
  (Guardrail.is_valid
     (Guardrail.validate (sample_plan []) "select 1 from t where drop = 2")
   = false
   /\ Guardrail.security_event
        (Guardrail.validate (sample_plan []) "select 1 from t where drop = 2")
      = true)
  /\ Guardrail._check_sql_safety "SELECT INSERT_DATE FROM cps_tb"
     = Guardrail.valid.
Proof.
  split.
  - destruct (forbidden_keyword_whole_word (sample_plan [])
                "select 1 from t where drop = 2" eq_refl) as (_ & H & _).
    destruct H as (H1 & H2 & _); [|split; assumption].
    exists "DROP". split; [simpl; tauto|].
    exists "select 1 from t where ", "drop", " = 2". repeat split.
  - destruct (forbidden_keyword_whole_word (sample_plan [])
                "SELECT INSERT_DATE FROM cps_tb" eq_refl) as (H1 & _ & H3).
    apply H3. intros kw Hin Hw.
    assert (F : Guardrail.is_valid
                  (Guardrail._check_sql_safety "SELECT INSERT_DATE FROM cps_tb")
                = false) by (apply H1; exists kw; auto).
    vm_compute in F. discriminate.
Defined.

Module SegmentFacts.

Import Guardrail.
Local Open Scope string_scope.

Lemma offending_channel (plan : Plan) :
  offending plan "channel"
  = truthy_seg (channel (segments plan)) && is_not_ALL (channel (segments plan))
    && not_in (channel (segments plan)) (subscript ALLOWED_SEGMENTS "channel").
Proof.
  unfold offending, channel, value_accepted.
  destruct (attr "channel" (segments plan)) as [v|]; [|reflexivity].
  change (accepts_ALL "channel") with true. unfold is_not_ALL, not_in.
  rewrite negb_orb, andb_assoc. reflexivity.
Qed.

Lemma offending_grade (plan : Plan) :
  offending plan "grade"
  = truthy_seg (grade (segments plan)) && is_not_ALL (grade (segments plan))
    && not_in (grade (segments plan)) (subscript ALLOWED_SEGMENTS "grade").
Proof.
  unfold offending, grade, value_accepted.
  destruct (attr "grade" (segments plan)) as [v|]; [|reflexivity].
  change (accepts_ALL "grade") with true. unfold is_not_ALL, not_in.
  rewrite negb_orb, andb_assoc. reflexivity.
Qed.

Lemma offending_prod_type (plan : Plan) :
  offending plan "prod_type"
  = truthy_seg (prod_type (segments plan))
    && is_not_ALL (prod_type (segments plan))
    && not_in (prod_type (segments plan))
         (subscript ALLOWED_SEGMENTS "prod_type").
Proof.
  unfold offending, prod_type, value_accepted.
  destruct (attr "prod_type" (segments plan)) as [v|]; [|reflexivity].
  change (accepts_ALL "prod_type") with true. unfold is_not_ALL, not_in.
  rewrite negb_orb, andb_assoc. reflexivity.
Qed.

(** For a field without the sentinel the test is membership alone. *)
Lemma offending_plain (plan : Plan) (field : string) :
  accepts_ALL field = false ->
  offending plan field
  = truthy_seg (attr field (segments plan))
    && not_in (attr field (segments plan)) (subscript ALLOWED_SEGMENTS field).
Proof.
  intros H. unfold offending, value_accepted. rewrite H.
  destruct (attr field (segments plan)) as [v|]; reflexivity.
Qed.

(** The cascade of [_validate_segment_filters] reports the first offending
    field, in the order of [SEGMENT_FIELDS]. *)
Lemma validate_segment_filters_spec (plan : Plan) :
  _validate_segment_filters plan
  = match first_offender plan with
    | Some field =>
        mkValidationResult false (Some (segment_error plan field)) false
    | None => valid
    end.
Proof.
  unfold _validate_segment_filters, first_offender, SEGMENT_FIELDS.
  cbn [find].
  rewrite <- offending_channel, <- offending_grade, <- offending_prod_type.
  unfold repeat_type, term, cr_fico_band, purpose.
  rewrite <- (offending_plain plan "repeat_type" eq_refl),
          <- (offending_plain plan "term" eq_refl),
          <- (offending_plain plan "cr_fico_band" eq_refl),
          <- (offending_plain plan "purpose" eq_refl).
  destruct (offending plan "channel"); [reflexivity|].
  destruct (offending plan "grade"); [reflexivity|].
  destruct (offending plan "prod_type"); [reflexivity|].
  destruct (offending plan "repeat_type"); [reflexivity|].
  destruct (offending plan "term"); [reflexivity|].
  destruct (offending plan "cr_fico_band"); [reflexivity|].
  destruct (offending plan "purpose"); reflexivity.
Qed.

Lemma first_offender_spec (plan : Plan) (field : string) :
  first_offender plan = Some field ->
  In field SEGMENT_FIELDS /\ offending plan field = true
  /\ exists before after,
       SEGMENT_FIELDS = (before ++ field :: after)%list
       /\ forall f, In f before -> offending plan f = false.
Proof.
  unfold first_offender. generalize SEGMENT_FIELDS as l.
  induction l as [|f l IH]; simpl; [discriminate|].
  destruct (offending plan f) eqn:E.
  - intros [= <-]. repeat split; auto. exists [], l. split; [reflexivity|].
    intros ? [].
  - intros H. destruct (IH H) as (Hin & Ho & before & after & -> & Hb).
    repeat split; auto. exists (f :: before), after. split; [reflexivity|].
    intros g [<-|Hg]; auto.
Qed.

Lemma first_offender_none (plan : Plan) :
  first_offender plan = None <->
  forall f, In f SEGMENT_FIELDS -> offending plan f = false.
Proof.
  unfold first_offender. split.
  - intros H f Hin. exact (find_none _ _ H f Hin).
  - intros H. destruct (find (offending plan) SEGMENT_FIELDS) as [f|] eqn:E;
      [|reflexivity].
    apply find_some in E as [Hin Ho]. rewrite (H f Hin) in Ho. discriminate.
Qed.

Lemma validate_segment_filters_no_security_event (plan : Plan) :
  security_event (_validate_segment_filters plan) = false.
Proof.
  rewrite validate_segment_filters_spec.
  destruct (first_offender plan); reflexivity.
Qed.

(** With an empty SQL text the two text rules pass, and the answer is the
    one of the two plan rules. *)
Lemma validate_empty_sql (plan : Plan) :
  validate plan EmptyString = validate_plan_rules plan.
Proof. reflexivity. Qed.

Lemma validate_plan_rules_segments (plan : Plan) :
  validate_plan_rules plan = _validate_segment_filters plan.
Proof.
  unfold validate_plan_rules. rewrite validate_time_window_valid.
  rewrite validate_segment_filters_spec.
  destruct (first_offender plan); reflexivity.
Qed.

Lemma validate_plan_rules_no_security_event (plan : Plan) :
  security_event (validate_plan_rules plan) = false.
Proof.
  rewrite validate_plan_rules_segments.
  apply validate_segment_filters_no_security_event.
Qed.

(** A rejection by the plan rules carries a non-empty message. *)
Lemma validate_plan_rules_message (plan : Plan) :
  is_valid (validate_plan_rules plan) = false ->
  truthy_str (error_message (validate_plan_rules plan)) = true.
Proof.
  rewrite validate_plan_rules_segments, validate_segment_filters_spec.
  destruct (first_offender plan); [reflexivity | discriminate].
Qed.

End SegmentFacts.

Import SegmentFacts.

(** C2, the failing input: the plan whose [repeat_type] filter is the
    sentinel "ALL" has every populated filter equal to the sentinel or to an
    allowed member, and [validate] rejects it all the same, with a message
    that does not offer the sentinel. *)
Lemma segment_sentinel_counterexample :
  let plan := sample_plan [("repeat_type", SStr "ALL")] in
  (forall field v,
      In field SEGMENT_FIELDS ->
      attr field (segments plan) = Some v ->
      truthy_seg (Some v) = true ->
      value_accepted_as_claimed field v = true)
  /\ Guardrail.validate plan "SELECT 1"
     = Guardrail.mkValidationResult false
         (Some "Invalid repeat_type value: 'ALL'. Allowed values: Repeat, New")
         false.
Proof.
  split; [|reflexivity].
  intros field v Hin Hattr _. unfold SEGMENT_FIELDS in Hin. simpl in Hin.
  decompose [or] Hin; try contradiction; subst field; vm_compute in Hattr;
    try discriminate.
  injection Hattr as <-. reflexivity.
Qed.

(** C2 (what the code does).  The segment rule accepts a plan exactly when
    every populated (truthy) filter holds a member of its field's allowed
    set or, for [channel], [grade] and [prod_type] only, the sentinel "ALL":
    for [repeat_type], [term], [cr_fico_band] and [purpose] the sentinel is
    rejected like any value outside the allowed set, although the executor
    groups by those fields on the same sentinel.  When the rule rejects, the
    answer names the first offending field in the order channel, grade,
    prod_type, repeat_type, term, cr_fico_band, purpose, with the offending
    value and the field's allowed set, and is not a security event; and
    [validate] returns this answer whenever the SQL text passes the two text
    rules. *)
Theorem segment_values_checked :
  forall (plan : Plan) (sql : string),
    (Guardrail.is_valid (Guardrail._validate_segment_filters plan) = true <->
     forall field v,
       In field SEGMENT_FIELDS ->
       attr field (segments plan) = Some v ->
       truthy_seg (Some v) = true ->
       value_accepted field v = true)
    /\ (Guardrail.is_valid (Guardrail._validate_segment_filters plan) = false ->
        exists field before after,
          SEGMENT_FIELDS = before ++ field :: after
          /\ (forall f, In f before -> offending plan f = false)
          /\ offending plan field = true
          /\ Guardrail._validate_segment_filters plan
             = Guardrail.mkValidationResult false
                 (Some (segment_error plan field)) false)
    /\ (Guardrail.is_valid (Guardrail._check_sql_safety sql) = true ->
        Guardrail.is_valid (Guardrail._check_multiple_statements sql) = true ->
        Guardrail.validate plan sql
        = Guardrail._validate_segment_filters plan)
    /\ (forall field,
          In field ["repeat_type"; "term"; "cr_fico_band"; "purpose"]%string ->
          attr field (segments plan) = Some (SStr "ALL") ->
          (forall f, In f SEGMENT_FIELDS -> f <> field ->
                     attr f (segments plan) = None) ->
          SqlRun.distribution_segment_by plan = field
          /\ Guardrail._validate_segment_filters plan
             = Guardrail.mkValidationResult false
                 (Some (segment_error plan field)) false).
Proof.
  intros plan sql. split; [|split; [|split]].
  - rewrite validate_segment_filters_spec.
    destruct (first_offender plan) as [f|] eqn:E; cbn [Guardrail.is_valid].
    + split; [discriminate|]. intros H.
      apply first_offender_spec in E as (Hin & Ho & _).
      unfold offending in Ho.
      destruct (attr f (segments plan)) as [v|] eqn:Ev; [|discriminate].
      apply andb_true_iff in Ho as [Ht Hn].
      rewrite (H f v Hin Ev Ht) in Hn. discriminate.
    + split; [|reflexivity]. intros _ field v Hin Ev Ht.
      pose proof (proj1 (first_offender_none plan) E field Hin) as Ho.
      unfold offending in Ho. rewrite Ev, Ht in Ho.
      now apply negb_false_iff in Ho.
  - rewrite validate_segment_filters_spec.
    destruct (first_offender plan) as [f|] eqn:E; simpl; [|discriminate].
    intros _. destruct (first_offender_spec _ E) as (_ & Ho & b & a & Hs & Hb).
    exists f, b, a. auto.
  - intros H1 H2. unfold Guardrail.validate. rewrite H1, H2. simpl.
    rewrite validate_time_window_valid. simpl.
    rewrite validate_segment_filters_spec.
    destruct (first_offender plan); reflexivity.
  - intros field Hf A N.
    assert (O : forall f, In f SEGMENT_FIELDS -> f <> field ->
                          offending plan f = false).
    { intros f Hin Hn. unfold offending. now rewrite (N f Hin Hn). }
    rewrite validate_segment_filters_spec.
    unfold SqlRun.distribution_segment_by, first_offender, SEGMENT_FIELDS,
      channel, grade, prod_type, repeat_type, term, cr_fico_band, purpose.
    cbn [In] in Hf.
    destruct Hf as [<-|[<-|[<-|[<-|[]]]]]; cbn [find];
      repeat match goal with
             | |- context [offending plan ?f] =>
                 first [ rewrite (O f) by (cbn; intuition discriminate)
                       | replace (offending plan f) with true
                           by (unfold offending; rewrite A; reflexivity) ]
             | |- context [attr ?f (segments plan)] =>
                 first [ rewrite A
                       | rewrite (N f) by (cbn; intuition discriminate) ]
             end;
      split; reflexivity.
Qed.

Lemma segment_values_checked_witness :
  Guardrail.validate (sample_plan [("channel", SStr "ALL"); ("term", SInt 60)])
    "SELECT * FROM cps_tb"
  = Guardrail.valid
  /\ (exists field,
        Guardrail._validate_segment_filters
          (sample_plan [("channel", SStr "Email"); ("grade", SStr "P99")])
        = Guardrail.mkValidationResult false
            (Some (segment_error
                     (sample_plan [("channel", SStr "Email");
                                   ("grade", SStr "P99")]) field)) false)
  /\ (SqlRun.distribution_segment_by (sample_plan [("purpose", SStr "ALL")])
      = "purpose"%string
      /\ Guardrail.validate (sample_plan [("purpose", SStr "ALL")])
           "SELECT * FROM cps_tb"
         = Guardrail.mkValidationResult false
             (Some (segment_error (sample_plan [("purpose", SStr "ALL")])
                      "purpose")) false).
Proof.
  split; [|split].
  - destruct (segment_values_checked
                (sample_plan [("channel", SStr "ALL"); ("term", SInt 60)])
                "SELECT * FROM cps_tb") as (H1 & _ & H3 & _).
    rewrite (H3 eq_refl eq_refl).
    assert (V : Guardrail.is_valid
                  (Guardrail._validate_segment_filters
                     (sample_plan [("channel", SStr "ALL");
                                   ("term", SInt 60)])) = true).
    { apply H1. intros field v Hin Hattr _. unfold SEGMENT_FIELDS in Hin.
      simpl in Hin.
      decompose [or] Hin; try contradiction; subst field;
        vm_compute in Hattr; try discriminate; injection Hattr as <-;
        reflexivity. }
    revert V. vm_compute. reflexivity.
  - destruct (segment_values_checked
                (sample_plan [("channel", SStr "Email"); ("grade", SStr "P99")])
                EmptyString) as (_ & H2 & _).
    destruct (H2 eq_refl) as (field & _ & _ & _ & _ & _ & E).
    exists field. exact E.
  - destruct (segment_values_checked (sample_plan [("purpose", SStr "ALL")])
                "SELECT * FROM cps_tb") as (_ & _ & H3 & H4).
    rewrite (H3 eq_refl eq_refl).
    apply (H4 "purpose"%string); [simpl; tauto | reflexivity |].
    intros f Hin Hn. unfold SEGMENT_FIELDS in Hin. simpl in Hin.
    decompose [or] Hin; try contradiction; subst f; try reflexivity.
    now elim Hn.
Defined.

(** ** The cache *)

Module CacheFacts.

Import CacheTool.

Section Facts.

Variable V : Type.
Variable serialize deserialize : V -> V.

Local Abbreviation OD := (OrderedDict V).
Local Abbreviation LRU := (InMemoryLRUCache V).

Lemma getitem_In (k : string) (d : OD) (e : CacheEntry V) :
  getitem k d = Some e -> In (k, e) d.
Proof.
  induction d as [|[k' e'] d IH]; simpl; [discriminate|].
  destruct (String.eqb_spec k' k) as [->|_].
  - intros [= ->]. now left.
  - intros H. right. auto.
Qed.

Lemma contains_keys (k : string) (d : OD) :
  contains k d = true <-> In k (keys d).
Proof.
  unfold contains. induction d as [|[k' e'] d IH]; simpl.
  - split; [discriminate | intros []].
  - destruct (String.eqb_spec k' k) as [->|N].
    + split; auto.
    + rewrite IH. split; [auto | intros [E|H]; [now elim N | exact H]].
Qed.

Lemma contains_false (k : string) (d : OD) :
  contains k d = false <-> ~ In k (keys d).
Proof.
  rewrite <- contains_keys. destruct (contains k d); split; congruence.
Qed.

Lemma keys_delitem (k : string) (d : OD) :
  keys (delitem k d) = filter (fun x => negb (x =? k)%string) (keys d).
Proof.
  induction d as [|[k' e'] d IH]; simpl; [reflexivity|].
  destruct (k' =? k)%string; simpl; now rewrite IH.
Qed.

Lemma In_delitem (k : string) (d : OD) (kv : string * CacheEntry V) :
  In kv (delitem k d) -> In kv d /\ fst kv <> k.
Proof.
  unfold delitem. rewrite filter_In. intros [H1 H2]. split; [exact H1|].
  apply negb_true_iff, String.eqb_neq in H2. exact H2.
Qed.

Lemma not_In_keys_delitem (k : string) (d : OD) : ~ In k (keys (delitem k d)).
Proof.
  rewrite keys_delitem, filter_In. intros [_ H].
  now rewrite String.eqb_refl in H.
Qed.

Lemma delitem_absent (k : string) (d : OD) :
  ~ In k (keys d) -> delitem k d = d.
Proof.
  induction d as [|[k' e'] d IH]; simpl; [reflexivity|]. intros H.
  destruct (String.eqb_spec k' k) as [->|_]; simpl.
  - elim H. now left.
  - rewrite IH; [reflexivity | intros H'; apply H; now right].
Qed.

Lemma setitem_absent (k : string) (e : CacheEntry V) (d : OD) :
  ~ In k (keys d) -> setitem k e d = d ++ [(k, e)].
Proof.
  induction d as [|[k' e'] d IH]; simpl; [reflexivity|]. intros H.
  destruct (String.eqb_spec k' k) as [->|_].
  - elim H. now left.
  - rewrite IH; [reflexivity | intros H'; apply H; now right].
Qed.

Lemma keys_app (d1 d2 : OD) : keys (d1 ++ d2) = keys d1 ++ keys d2.
Proof. apply map_app. Qed.

Lemma getitem_app_absent (k : string) (d1 d2 : OD) :
  ~ In k (keys d1) -> getitem k (d1 ++ d2) = getitem k d2.
Proof.
  induction d1 as [|[k' e'] d IH]; simpl; [reflexivity|]. intros H.
  destruct (String.eqb_spec k' k) as [->|_].
  - elim H. now left.
  - apply IH. intros H'. apply H. now right.
Qed.

Lemma getitem_app_present (k : string) (d1 d2 : OD) (e : CacheEntry V) :
  getitem k d1 = Some e -> getitem k (d1 ++ d2) = Some e.
Proof.
  induction d1 as [|[k' e'] d IH]; simpl; [discriminate|].
  destruct (k' =? k)%string; auto.
Qed.

Lemma getitem_delitem_other (k k' : string) (d : OD) :
  k' <> k -> getitem k (delitem k' d) = getitem k d.
Proof.
  intros N. induction d as [|[k0 e0] d IH]; simpl; [reflexivity|].
  destruct (String.eqb_spec k0 k') as [->|N0]; simpl.
  - destruct (String.eqb_spec k' k) as [E|_]; [now elim N | exact IH].
  - destruct (k0 =? k)%string; [reflexivity | exact IH].
Qed.

(** With each key stored once, deleting a stored key removes one item. *)
Lemma length_delitem (k : string) (d : OD) :
  NoDup (keys d) -> In k (keys d) ->
  S (List.length (delitem k d)) = List.length d.
Proof.
  induction d as [|[k' e'] d IH]; simpl; [intros _ []|].
  intros ND Hin. apply NoDup_cons_iff in ND as [Hn ND].
  destruct (String.eqb_spec k' k) as [->|N]; simpl.
  - rewrite delitem_absent by exact Hn. reflexivity.
  - f_equal. apply IH; [exact ND|]. destruct Hin as [E|H]; [now elim N|exact H].
Qed.

Lemma length_delitem_le (k : string) (d : OD) :
  (List.length (delitem k d) <= List.length d)%nat.
Proof. apply filter_length_le. Qed.

Lemma NoDup_keys_delitem (k : string) (d : OD) :
  NoDup (keys d) -> NoDup (keys (delitem k d)).
Proof. rewrite keys_delitem. apply NoDup_filter. Qed.

Lemma NoDup_keys_touch (k : string) (e : CacheEntry V) (d : OD) :
  NoDup (keys d) -> NoDup (keys (delitem k d ++ [(k, e)])).
Proof.
  intros ND. rewrite keys_app. simpl.
  apply NoDup_app; [now apply NoDup_keys_delitem | repeat constructor; auto |].
  intros x Hx [<-|[]]. revert Hx. apply not_In_keys_delitem.
Qed.

Lemma NoDup_keys_tl (d : OD) : NoDup (keys d) -> NoDup (keys (tl d)).
Proof. destruct d; simpl; [auto | intros H; now inversion H]. Qed.

Lemma fold_delitem_incl (ks : list string) (d : OD) (kv : string * CacheEntry V) :
  In kv (fold_left (fun d key => delitem key d) ks d) -> In kv d.
Proof.
  revert d; induction ks as [|k ks IH]; simpl; intros d H; [exact H|].
  apply IH in H. now apply In_delitem in H.
Qed.

(** *** The recency order *)

Lemma Forall_map_filter {A B} (P : B -> Prop) (f : A -> B) (p : A -> bool)
  (l : list A) :
  Forall P (map f l) -> Forall P (map f (filter p l)).
Proof.
  induction l as [|a l IH]; simpl; [auto|]. intros H. inversion H; subst.
  destruct (p a); simpl; auto.
Qed.

Lemma sorted_map_filter {A} (f : A -> nat) (p : A -> bool) (l : list A) :
  StronglySorted lt (map f l) -> StronglySorted lt (map f (filter p l)).
Proof.
  induction l as [|a l IH]; simpl; [auto|]. intros H.
  apply StronglySorted_inv in H as [H1 H2].
  destruct (p a); simpl; [constructor|]; auto using Forall_map_filter.
Qed.

Lemma sorted_snoc (l : list nat) (y : nat) :
  StronglySorted lt l -> Forall (fun x => (x < y)%nat) l ->
  StronglySorted lt (l ++ [y]).
Proof.
  induction l as [|a l IH]; simpl; intros H1 H2.
  - repeat constructor.
  - apply StronglySorted_inv in H1 as [H1 H3]. inversion H2; subst.
    constructor; [auto|]. apply Forall_app. split; [exact H3|].
    repeat constructor. assumption.
Qed.

Lemma map_ext_keys (f g : string -> nat) (l : list string) :
  (forall k, In k l -> g k = f k) -> map g l = map f l.
Proof. intros H. apply map_ext_in. exact H. Qed.

Lemma recency_delitem (n : nat) (f : string -> nat) (k : string) (d : OD) :
  recency_inv n f d -> recency_inv n f (delitem k d).
Proof.
  intros (H1 & H2 & H3). unfold recency_inv. rewrite keys_delitem.
  repeat split;
    auto using NoDup_filter, sorted_map_filter, Forall_map_filter.
Qed.

Lemma recency_tl (n : nat) (f : string -> nat) (d : OD) :
  recency_inv n f d -> recency_inv n f (tl d).
Proof.
  intros (H1 & H2 & H3). destruct d as [|[k e] d]; simpl in *.
  - repeat split; auto.
  - inversion H1; subst. apply StronglySorted_inv in H2 as [H2 _].
    inversion H3; subst. repeat split; auto.
Qed.

Lemma recency_fold_delitem (n : nat) (f : string -> nat) (ks : list string)
  (d : OD) :
  recency_inv n f d ->
  recency_inv n f (fold_left (fun d key => delitem key d) ks d).
Proof.
  revert d; induction ks as [|k ks IH]; simpl; intros d H; [exact H|].
  apply IH. now apply recency_delitem.
Qed.

(** An operation that accesses no stored key leaves the ranks in place. *)
Lemma recency_same (n : nat) (f g : string -> nat) (d : OD) :
  recency_inv n f d -> (forall k, In k (keys d) -> g k = f k) ->
  recency_inv (S n) g d.
Proof.
  intros (H1 & H2 & H3) E. unfold recency_inv.
  rewrite (map_ext_keys f g _ E). repeat split; auto.
  eapply Forall_impl; [|exact H3]. simpl. intros; lia.
Qed.

(** An access of [k] makes it the most recently used key. *)
Lemma recency_touch (n : nat) (f g : string -> nat) (k : string)
  (e : CacheEntry V) (d : OD) :
  recency_inv n f d ->
  g k = S n -> (forall x, x <> k -> g x = f x) ->
  recency_inv (S n) g (delitem k d ++ [(k, e)]).
Proof.
  intros H Gk Go. pose proof (recency_delitem k H) as (H1 & H2 & H3).
  destruct H as (ND & _ & _).
  assert (E : map g (keys (delitem k d)) = map f (keys (delitem k d))).
  { apply map_ext_keys. intros x Hx. apply Go. intros ->.
    revert Hx. apply not_In_keys_delitem. }
  split; [now apply NoDup_keys_touch|].
  rewrite keys_app, map_app, E. simpl. rewrite Gk. split.
  - apply sorted_snoc; [exact H2|]. eapply Forall_impl; [|exact H3].
    simpl. intros; lia.
  - apply Forall_app. split; [|repeat constructor].
    eapply Forall_impl; [|exact H3]. simpl. intros; lia.
Qed.

Local Abbreviation step := (step serialize deserialize).
Local Abbreviation run := (run serialize deserialize).
Local Abbreviation last_access := (last_access serialize deserialize).

Lemma set_cache (now : Z) (k : string) (v : V) (ex : option Z) (c : LRU) :
  let ttl := match ex with Some t => t | None => default_ttl c end in
  let d := delitem k (_cache c)
           ++ [(k, CacheEntry_init now (serialize v) ttl)] in
  _cache (set serialize now k v ex c)
  = if Z.of_nat (List.length d) >? max_size c then tl d else d.
Proof.
  unfold set. simpl.
  assert (E : setitem k
                (CacheEntry_init now (serialize v)
                   match ex with Some t => t | None => default_ttl c end)
                (if contains k (_cache c) then delitem k (_cache c)
                 else _cache c)
              = delitem k (_cache c)
                ++ [(k, CacheEntry_init now (serialize v)
                          match ex with Some t => t | None => default_ttl c end)]).
  { destruct (contains k (_cache c)) eqn:C.
    - apply setitem_absent, not_In_keys_delitem.
    - apply contains_false in C. rewrite delitem_absent by exact C.
      now apply setitem_absent. }
  rewrite E.
  destruct (Z.of_nat _ >? max_size c); reflexivity.
Qed.

Lemma recency_step (n : nat) (f : string -> nat) (c : LRU) (op : Op V) :
  recency_inv n f (_cache c) ->
  recency_inv (S n) (fun k => if touches c op k then S n else f k)
    (_cache (step c op)).
Proof.
  intros H. destruct op as [now k|now k v ex| |clock]; simpl.
  - unfold get. destruct (getitem k (_cache c)) as [e|] eqn:G.
    + destruct (is_expired now e) eqn:X; simpl.
      * apply recency_same with (f := f); [now apply recency_delitem|].
        intros x _. now rewrite andb_false_r.
      * unfold move_to_end. rewrite G.
        apply recency_touch with (f := f); [exact H| |].
        -- now rewrite String.eqb_refl.
        -- intros x N. apply not_eq_sym, String.eqb_neq in N. now rewrite N.
    + simpl. apply recency_same with (f := f); [exact H|].
      intros x _. now rewrite andb_false_r.
  - rewrite set_cache.
    match goal with
    | |- recency_inv _ ?g (if _ then tl ?d else ?d) =>
        assert (T : recency_inv (S n) g d)
    end.
    { apply recency_touch with (f := f); [exact H| |].
      - now rewrite String.eqb_refl.
      - intros x N. apply not_eq_sym, String.eqb_neq in N. now rewrite N. }
    destruct (Z.of_nat _ >? max_size c); [now apply recency_tl | exact T].
  - repeat split; constructor.
  - apply recency_same with (f := f); [|reflexivity].
    now apply recency_fold_delitem.
Qed.

(** The invariant holds along every history: the items of the cache are in
    the strict order of their last access. *)
Lemma recency_run (ops : list (Op V)) :
  forall (n : nat) (f : string -> nat) (c : LRU),
    recency_inv n f (_cache c) ->
    recency_inv (n + List.length ops) (fun k => last_access c ops n f k)
      (_cache (run c ops)).
Proof.
  induction ops as [|op ops IH]; intros n f c H; simpl.
  - rewrite Nat.add_0_r. exact H.
  - rewrite <- Nat.add_succ_comm. apply IH. now apply recency_step.
Qed.

Lemma step_max_size (c : LRU) (op : Op V) : max_size (step c op) = max_size c.
Proof.
  destruct op as [now k|now k v ex| |clock]; simpl; try reflexivity.
  - unfold get. destruct (getitem k (_cache c)); [|reflexivity].
    destruct (is_expired now c0); reflexivity.
  - unfold set. simpl. destruct (Z.of_nat _ >? max_size c); reflexivity.
Qed.

Lemma step_default_ttl (c : LRU) (op : Op V) :
  default_ttl (step c op) = default_ttl c.
Proof.
  destruct op as [now k|now k v ex| |clock]; simpl; try reflexivity.
  - unfold get. destruct (getitem k (_cache c)); [|reflexivity].
    destruct (is_expired now c0); reflexivity.
  - unfold set. simpl. destruct (Z.of_nat _ >? max_size c); reflexivity.
Qed.

Lemma run_max_size (ops : list (Op V)) (c : LRU) :
  max_size (run c ops) = max_size c.
Proof.
  revert c; induction ops as [|op ops IH]; intros c; [reflexivity|].
  change (max_size (run (step c op) ops) = max_size c).
  rewrite IH. apply step_max_size.
Qed.

Lemma run_default_ttl (ops : list (Op V)) (c : LRU) :
  default_ttl (run c ops) = default_ttl c.
Proof.
  revert c; induction ops as [|op ops IH]; intros c; [reflexivity|].
  change (default_ttl (run (step c op) ops) = default_ttl c).
  rewrite IH. apply step_default_ttl.
Qed.

(** *** Capacity *)

Lemma length_delitem_present (k : string) (d : OD) :
  In k (keys d) -> (S (List.length (delitem k d)) <= List.length d)%nat.
Proof.
  induction d as [|[k' e'] d IH]; simpl; [intros []|]. intros Hin.
  destruct (String.eqb_spec k' k) as [->|N]; simpl.
  - pose proof (length_delitem_le k d). lia.
  - destruct Hin as [E|H]; [now elim N|]. specialize (IH H). lia.
Qed.

Lemma size_step (c : LRU) (op : Op V) : size_inv c -> size_inv (step c op).
Proof.
  unfold size_inv. intros H. rewrite step_max_size.
  destruct op as [now k|now k v ex| |clock]; simpl.
  - unfold get. destruct (getitem k (_cache c)) as [e|] eqn:G; [|exact H].
    destruct (is_expired now e); simpl.
    + pose proof (length_delitem_le k (_cache c)). lia.
    + unfold move_to_end. rewrite G, length_app. simpl.
      assert (In k (keys (_cache c))).
      { apply contains_keys. unfold contains. now rewrite G. }
      pose proof (length_delitem_present k (_cache c) H0). lia.
  - rewrite set_cache. cbv zeta.
    pose proof (length_delitem_le k (_cache c)) as L.
    set (e := CacheEntry_init _ _ _).
    destruct (Z.of_nat (List.length (delitem k (_cache c) ++ [(k, e)]))
              >? max_size c) eqn:G.
    + destruct (delitem k (_cache c)) as [|x l]; simpl in *;
        [lia | rewrite length_app; simpl; lia].
    + rewrite Z.gtb_ltb in G. apply Z.ltb_ge in G. lia.
  - lia.
  - assert (forall ks (d : OD),
               (List.length (fold_left (fun d key => delitem key d) ks d)
                <= List.length d)%nat) as F.
    { induction ks as [|x ks IH]; simpl; intros d; [lia|].
      specialize (IH (delitem x d)). pose proof (length_delitem_le x d). lia. }
    match goal with |- context [fold_left _ ?ks ?d] => specialize (F ks d) end.
    lia.
Qed.

Lemma size_run (ops : list (Op V)) (c : LRU) : size_inv c -> size_inv (run c ops).
Proof.
  revert c; induction ops as [|op ops IH]; intros c H; [exact H|].
  change (size_inv (run (step c op) ops)). apply IH. now apply size_step.
Qed.

(** *** Expiry *)

Lemma expiry_after_set (now : Z) (key : string) (v : V) (ex : option Z)
  (c : LRU) :
  expiry_inv key
    (now + match ex with Some t => t | None => default_ttl c end)
    (_cache (set serialize now key v ex c)).
Proof.
  rewrite set_cache. cbv zeta. intros e Hin.
  assert (H : In (key, e)
                (delitem key (_cache c)
                 ++ [(key, CacheEntry_init now (serialize v)
                             match ex with
                             | Some t => t
                             | None => default_ttl c
                             end)])).
  { destruct (Z.of_nat _ >? max_size c); [|exact Hin].
    destruct (delitem key (_cache c) ++ _); simpl in *; [contradiction|].
    now right. }
  apply in_app_or in H as [H|[H|[]]].
  - apply In_delitem in H as [_ N]. now elim N.
  - injection H as <-. reflexivity.
Qed.

Lemma expiry_step (key : string) (t : Z) (c : LRU) (op : Op V) :
  no_set_on key op -> expiry_inv key t (_cache c) ->
  expiry_inv key t (_cache (step c op)).
Proof.
  intros N H e. destruct op as [now k|now k v ex| |clock]; simpl.
  - unfold get. destruct (getitem k (_cache c)) as [e'|] eqn:G; [|apply H].
    destruct (is_expired now e'); simpl.
    + intros Hin. apply In_delitem in Hin as [Hin _]. now apply H.
    + unfold move_to_end. rewrite G. intros Hin.
      apply in_app_or in Hin as [Hin|[Hin|[]]].
      * apply In_delitem in Hin as [Hin _]. now apply H.
      * injection Hin as -> ->. apply H. now apply getitem_In.
  - rewrite set_cache. cbv zeta. simpl in N. intros Hin.
    assert (Hin' : In (key, e)
                     (delitem k (_cache c)
                      ++ [(k, CacheEntry_init now (serialize v)
                                match ex with
                                | Some t => t
                                | None => default_ttl c
                                end)])).
    { destruct (Z.of_nat _ >? max_size c); [|exact Hin].
      destruct (delitem k (_cache c) ++ _); simpl in *; [contradiction|].
      now right. }
    apply in_app_or in Hin' as [Hin'|[Hin'|[]]].
    + apply In_delitem in Hin' as [Hin' _]. now apply H.
    + injection Hin' as E _. now elim N.
  - intros [].
  - intros Hin. apply fold_delitem_incl in Hin. now apply H.
Qed.

Lemma expiry_run (key : string) (t : Z) (ops : list (Op V)) (c : LRU) :
  Forall (no_set_on key) ops -> expiry_inv key t (_cache c) ->
  expiry_inv key t (_cache (run c ops)).
Proof.
  intros F. revert c. induction F as [|op ops N _ IH]; intros c H; [exact H|].
  change (expiry_inv key t (_cache (run (step c op) ops))).
  apply IH. now apply expiry_step.
Qed.

(** A read after the expiry instant of every entry of the key finds
    nothing, and leaves no entry of the key behind. *)
Lemma get_after_expiry (key : string) (t r : Z) (c : LRU) :
  expiry_inv key t (_cache c) -> r > t ->
  fst (get deserialize r key c) = None
  /\ contains key (_cache (snd (get deserialize r key c))) = false.
Proof.
  intros H R. unfold get.
  destruct (getitem key (_cache c)) as [e|] eqn:G; simpl.
  - pose proof (H e (getitem_In _ _ G)) as E. unfold is_expired. rewrite E.
    assert (X : (r >? t) = true) by (apply Z.gtb_lt; lia). rewrite X. simpl.
    split; [reflexivity|]. apply contains_false, not_In_keys_delitem.
  - split; [reflexivity|]. unfold contains. now rewrite G.
Qed.

(** *** Eviction *)

Lemma set_cache_absent (now : Z) (k : string) (v : V) (ex : option Z)
  (c : LRU) :
  contains k (_cache c) = false ->
  let ttl := match ex with Some t => t | None => default_ttl c end in
  let d := _cache c ++ [(k, CacheEntry_init now (serialize v) ttl)] in
  _cache (set serialize now k v ex c)
  = if Z.of_nat (List.length d) >? max_size c then tl d else d.
Proof.
  intros C. rewrite set_cache. cbv zeta.
  apply contains_false in C. rewrite delitem_absent by exact C. reflexivity.
Qed.

(** Writing a new key into a full cache drops the first item, whose last
    access is older than that of every other item. *)
Lemma set_overflow (n : nat) (f : string -> nat) (now : Z) (key : string)
  (v : V) (ex : option Z) (c : LRU) :
  recency_inv n f (_cache c) -> full c -> 1 <= max_size c ->
  contains key (_cache c) = false ->
  exists k0 e0 rest,
    _cache c = (k0, e0) :: rest
    /\ _cache (set serialize now key v ex c)
       = rest ++ [(key, CacheEntry_init now (serialize v)
                          match ex with
                          | Some t => t
                          | None => default_ttl c
                          end)]
    /\ forall k, In k (keys rest) -> (f k0 < f k)%nat.
Proof.
  intros (ND & S & _) Fu M C. unfold full in Fu.
  rewrite set_cache_absent by exact C. cbv zeta.
  destruct (_cache c) as [|[k0 e0] rest] eqn:D; simpl in Fu; [lia|].
  exists k0, e0, rest. split; [reflexivity|]. split.
  - assert (G : (Z.of_nat (List.length (((k0, e0) :: rest)
                    ++ [(key, CacheEntry_init now (serialize v)
                                match ex with
                                | Some t => t
                                | None => default_ttl c
                                end)])) >? max_size c) = true).
    { apply Z.gtb_lt. rewrite length_app. simpl. simpl in Fu. lia. }
    rewrite G. reflexivity.
  - simpl in S. apply StronglySorted_inv in S as [_ S].
    rewrite Forall_forall in S. intros k Hk. apply S. now apply in_map.
Qed.

(** A hit moves the entry to the last position; a new key written next
    into the full cache then drops the first of the other items. *)
Lemma get_then_set (now1 now : Z) (k' key : string) (v : V) (ex : option Z)
  (c : LRU) :
  NoDup (keys (_cache c)) -> full c -> 2 <= max_size c ->
  live now1 k' c -> contains key (_cache c) = false ->
  exists e' k0 e0 rest,
    getitem k' (_cache c) = Some e'
    /\ fst (get deserialize now1 k' c) = Some (deserialize (value e'))
    /\ _cache (snd (get deserialize now1 k' c))
       = delitem k' (_cache c) ++ [(k', e')]
    /\ delitem k' (_cache c) = (k0, e0) :: rest
    /\ _cache (set serialize now key v ex (snd (get deserialize now1 k' c)))
       = rest ++ [(k', e');
                  (key, CacheEntry_init now (serialize v)
                          match ex with
                          | Some t => t
                          | None => default_ttl c
                          end)].
Proof.
  intros ND Fu M (e' & G & X) C. unfold full in Fu.
  assert (Hin : In k' (keys (_cache c))).
  { apply contains_keys. unfold contains. now rewrite G. }
  pose proof (length_delitem k' (_cache c) ND Hin) as L.
  destruct (delitem k' (_cache c)) as [|[k0 e0] rest] eqn:D;
    [simpl in L; lia|].
  exists e', k0, e0, rest.
  assert (Eg : get deserialize now1 k' c
               = (Some (deserialize (value e')),
                  with_cache c (((k0, e0) :: rest) ++ [(k', e')]))).
  { unfold get. rewrite G, X. unfold move_to_end. now rewrite G, D. }
  rewrite Eg. simpl fst. simpl snd.
  split; [exact G|]. split; [reflexivity|]. split; [reflexivity|].
  split; [reflexivity|].
  assert (C1 : contains key
                 (_cache (with_cache c (((k0, e0) :: rest) ++ [(k', e')])))
               = false).
  { apply contains_false. cbn [_cache with_cache]. rewrite keys_app.
    intros H. apply in_app_or in H as [H|[<-|[]]].
    - rewrite <- D, keys_delitem in H. apply filter_In in H as [H _].
      apply contains_false in C. contradiction.
    - apply contains_false in C. contradiction. }
  rewrite set_cache_absent by exact C1. cbv zeta.
  cbn [_cache with_cache max_size default_ttl].
  assert (Gt : (Z.of_nat (List.length ((((k0, e0) :: rest) ++ [(k', e')])
                    ++ [(key, CacheEntry_init now (serialize v)
                                match ex with
                                | Some t => t
                                | None => default_ttl c
                                end)])) >? max_size c) = true).
  { apply Z.gtb_lt. rewrite !length_app. simpl. simpl in L. lia. }
  simpl in Gt. simpl. rewrite Gt. simpl. rewrite <- app_assoc. reflexivity.
Qed.

(** Writing a stored key replaces its entry, makes it the last item, and
    leaves the number of entries as it was. *)
Lemma set_overwrite (now : Z) (key : string) (v : V) (ex : option Z)
  (c : LRU) :
  NoDup (keys (_cache c)) -> size_inv c ->
  contains key (_cache c) = true ->
  _cache (set serialize now key v ex c)
  = delitem key (_cache c)
    ++ [(key, CacheEntry_init now (serialize v)
                match ex with
                | Some t => t
                | None => default_ttl c
                end)]
  /\ size (set serialize now key v ex c) = size c.
Proof.
  intros ND Sz C. unfold size_inv in Sz. apply contains_keys in C.
  pose proof (length_delitem key (_cache c) ND C) as L.
  assert (E : _cache (set serialize now key v ex c)
              = delitem key (_cache c)
                ++ [(key, CacheEntry_init now (serialize v)
                            match ex with
                            | Some t => t
                            | None => default_ttl c
                            end)]).
  { rewrite set_cache. cbv zeta.
    match goal with
    | |- (if ?b then _ else _) = _ => assert (G : b = false); [|now rewrite G]
    end.
    rewrite Z.gtb_ltb. apply Z.ltb_ge. rewrite length_app. simpl. lia. }
  split; [exact E|]. unfold size. rewrite E, length_app. simpl. lia.
Qed.

End Facts.

End CacheFacts.

Import CacheFacts.

(** C6, as stated, fails in its last clause: the comparison of [is_expired]
    is strict, so an entry stored with a time-to-live of zero is still
    returned by the next read when that read sees the very same clock value
    as the write. *)
Lemma zero_ttl_same_instant_is_a_hit :
  fst (CacheTool.get (fun v => v) 0 "key1"
         (CacheTool.set (fun v => v) 0 "key1" 5%nat (Some 0)
            (CacheTool.init nat 10 60)))
  = Some 5%nat.
Proof. reflexivity. Qed.

(** C6, amended.  A key stored at time [s] with time-to-live [ttl] (the
    argument [ex], or the default of the cache) is absent at every read time
    after [s + ttl]: [get] returns [None] and drops the entry, whatever
    reads, writes of other keys, clears and sweeps happened in between.  In
    particular, with [ttl <= 0] every read whose clock value is after [s]
    finds it expired, and with [ttl < 0] so does a read at the clock value
    [s] itself. *)
Theorem expired_entry_is_absent :
  forall (V : Type) (serialize deserialize : V -> V)
         (c : CacheTool.InMemoryLRUCache V) (s : Z) (key : string) (value : V)
         (ex : option Z) (ops : list (CacheTool.Op V)) (r : Z),
    let ttl := match ex with
               | Some t => t
               | None => CacheTool.default_ttl c
               end in
    let c' := CacheTool.run serialize deserialize
                (CacheTool.set serialize s key value ex c) ops in
    Forall (no_set_on key) ops ->
    (r > s + ttl ->
     fst (CacheTool.get deserialize r key c') = None
     /\ CacheTool.contains key
          (CacheTool._cache (snd (CacheTool.get deserialize r key c')))
        = false)
    /\ (ttl <= 0 -> r > s ->
        fst (CacheTool.get deserialize r key c') = None)
    /\ (ttl < 0 -> r >= s ->
        fst (CacheTool.get deserialize r key c') = None).
Proof.
  intros V serialize deserialize c s key value ex ops r ttl c' F.
  assert (I : expiry_inv key (s + ttl) (CacheTool._cache c')).
  { apply expiry_run; [exact F|]. apply expiry_after_set. }
  split; [|split].
  - intros R. now apply get_after_expiry with (t := s + ttl).
  - intros T R.
    apply (get_after_expiry deserialize (t := s + ttl)); [exact I | lia].
  - intros T R.
    apply (get_after_expiry deserialize (t := s + ttl)); [exact I | lia].
Qed.

Lemma expired_entry_is_absent_witness :
  let c := CacheTool.init nat 10 60 in
  let ops := [CacheTool.OpSet 1 "key2" 7%nat None; CacheTool.OpGet 2 "key1"] in
  fst (CacheTool.get (fun v => v) 4 "key1"
         (CacheTool.run (fun v => v) (fun v => v)
            (CacheTool.set (fun v => v) 0 "key1" 5%nat (Some 3) c) ops))
  = None
  /\ fst (CacheTool.get (fun v => v) 1 "key1"
            (CacheTool.run (fun v => v) (fun v => v)
               (CacheTool.set (fun v => v) 0 "key1" 5%nat (Some 0) c) []))
     = None
  /\ fst (CacheTool.get (fun v => v) 0 "key1"
            (CacheTool.run (fun v => v) (fun v => v)
               (CacheTool.set (fun v => v) 0 "key1" 5%nat (Some (-1)) c) []))
     = None.
Proof.
  split; [|split].
  - destruct (@expired_entry_is_absent nat (fun v => v) (fun v => v)
                (CacheTool.init nat 10 60) 0 "key1" 5%nat (Some 3)
                [CacheTool.OpSet 1 "key2" 7%nat None; CacheTool.OpGet 2 "key1"]
                4) as [H _].
    + repeat constructor. simpl. discriminate.
    + destruct H as [H _]; [simpl; lia | exact H].
  - destruct (@expired_entry_is_absent nat (fun v => v) (fun v => v)
                (CacheTool.init nat 10 60) 0 "key1" 5%nat (Some 0) [] 1)
      as (_ & H & _).
    + constructor.
    + apply H; lia.
  - destruct (@expired_entry_is_absent nat (fun v => v) (fun v => v)
                (CacheTool.init nat 10 60) 0 "key1" 5%nat (Some (-1)) [] 0)
      as (_ & _ & H).
    + constructor.
    + apply H; lia.
Defined.


(** C5, as stated, fails when the capacity is one: the only entry is read
    (a hit, which makes it the most recently used one) and the next write of
    a new key evicts it all the same. *)
Lemma lru_capacity_one_counterexample :
  let c := CacheTool.set (fun v => v) 0 "key1" 1%nat None
             (CacheTool.init nat 1 60) in
  let c1 := snd (CacheTool.get (fun v => v) 1 "key1" c) in
  full c
  /\ live 1 "key1" c
  /\ fst (CacheTool.get (fun v => v) 1 "key1" c) = Some 1%nat
  /\ CacheTool.contains "key1"
       (CacheTool._cache (CacheTool.set (fun v => v) 2 "key2" 2%nat None c1))
     = false.
Proof.
  cbv zeta. split; [reflexivity|]. split; [|split; reflexivity].
  eexists. split; reflexivity.
Qed.

(** C5, amended.  Let the cache be in any state reached from the empty cache
    by a history of operations, the last access of a key being its latest
    [set] or hit in that history.
    (a) Writing a new key into a cache that holds [max_size >= 1] entries
        evicts exactly one entry, the first item, whose last access is older
        than that of every other entry; the others stay, in order, followed
        by the new key.
    (b) With [max_size >= 2], a hit on a live entry moves it to the last
        (most recently used) position, and the write of a new key that
        follows evicts the first of the other entries, not the one read.
    (c) Writing a key that is stored replaces its entry, moves it to the
        last position, and leaves the number of entries unchanged.
    (d) With [max_size <= 0] the cache is always empty: the entry written is
        itself the one evicted. *)
Theorem lru_eviction_order :
  forall (V : Type) (serialize deserialize : V -> V)
         (max_size default_ttl : Z) (ops : list (CacheTool.Op V)),
    let c0 := CacheTool.init V max_size default_ttl in
    let c := CacheTool.run serialize deserialize c0 ops in
    let rank := CacheTool.last_access serialize deserialize c0 ops 0
                  (fun _ => 0%nat) in
    let entry now value ex :=
      CacheTool.CacheEntry_init now (serialize value)
        match ex with Some t => t | None => default_ttl end in
    (forall now key value ex,
        full c -> 1 <= max_size ->
        CacheTool.contains key (CacheTool._cache c) = false ->
        exists k0 e0 rest,
          CacheTool._cache c = (k0, e0) :: rest
          /\ CacheTool._cache (CacheTool.set serialize now key value ex c)
             = rest ++ [(key, entry now value ex)]
          /\ forall k, In k (CacheTool.keys rest) -> (rank k0 < rank k)%nat)
    /\ (forall now1 k' now key value ex,
        full c -> 2 <= max_size -> live now1 k' c ->
        CacheTool.contains key (CacheTool._cache c) = false ->
        exists e' k0 e0 rest,
          CacheTool.getitem k' (CacheTool._cache c) = Some e'
          /\ fst (CacheTool.get deserialize now1 k' c)
             = Some (deserialize (CacheTool.value e'))
          /\ CacheTool._cache (snd (CacheTool.get deserialize now1 k' c))
             = CacheTool.delitem k' (CacheTool._cache c) ++ [(k', e')]
          /\ CacheTool.delitem k' (CacheTool._cache c) = (k0, e0) :: rest
          /\ CacheTool._cache
               (CacheTool.set serialize now key value ex
                  (snd (CacheTool.get deserialize now1 k' c)))
             = rest ++ [(k', e'); (key, entry now value ex)])
    /\ (forall now key value ex,
        CacheTool.contains key (CacheTool._cache c) = true ->
        CacheTool._cache (CacheTool.set serialize now key value ex c)
        = CacheTool.delitem key (CacheTool._cache c)
          ++ [(key, entry now value ex)]
        /\ CacheTool.size (CacheTool.set serialize now key value ex c)
           = CacheTool.size c)
    /\ (forall now key value ex,
        max_size <= 0 ->
        CacheTool._cache c = []
        /\ CacheTool._cache (CacheTool.set serialize now key value ex c) = []).
Proof.
  intros V serialize deserialize max_size default_ttl ops c0 c rank entry.
  assert (R : recency_inv (0 + List.length ops) rank (CacheTool._cache c)).
  { apply recency_run. repeat split; constructor. }
  assert (Sz : size_inv c).
  { apply size_run. unfold size_inv. simpl. lia. }
  assert (M : CacheTool.max_size c = max_size) by apply run_max_size.
  assert (T : CacheTool.default_ttl c = default_ttl) by apply run_default_ttl.
  unfold entry. rewrite <- T. split; [|split; [|split]].
  - intros now key value ex Fu Hm C.
    rewrite <- M in Hm.
    eapply set_overflow; [exact R | exact Fu | exact Hm | exact C].
  - intros now1 k' now key value ex Fu Hm L C. rewrite <- M in Hm.
    destruct R as (ND & _).
    now apply get_then_set.
  - intros now key value ex C. destruct R as (ND & _).
    now apply set_overwrite.
  - intros now key value ex Hm. unfold size_inv in Sz. rewrite M in Sz.
    assert (E : CacheTool._cache c = []).
    { destruct (CacheTool._cache c); [reflexivity | simpl in Sz; lia]. }
    split; [exact E|]. rewrite set_cache. cbv zeta. rewrite E, M. simpl.
    destruct (1 >? max_size) eqn:G; [reflexivity|].
    rewrite Z.gtb_ltb in G. apply Z.ltb_ge in G. lia.
Qed.

Lemma lru_eviction_order_witness :
  let ops := [CacheTool.OpSet 0 "key1" 1%nat None;
              CacheTool.OpSet 1 "key2" 2%nat None;
              CacheTool.OpSet 2 "key3" 3%nat None] in
  let c := CacheTool.run (fun v => v) (fun v => v)
             (CacheTool.init nat 3 60) ops in
  (exists e, CacheTool._cache (CacheTool.set (fun v => v) 5 "key4" 4%nat None c)
             = tl (CacheTool._cache c) ++ [("key4", e)])
  /\ (exists rest,
        CacheTool._cache
          (CacheTool.set (fun v => v) 5 "key4" 4%nat None
             (snd (CacheTool.get (fun v => v) 4 "key1" c)))
        = rest ++ [("key1", CacheTool.CacheEntry_init 0 1%nat 60);
                   ("key4", CacheTool.CacheEntry_init 5 4%nat 60)])
  /\ CacheTool.size (CacheTool.set (fun v => v) 6 "key2" 9%nat None c)
     = CacheTool.size c.
Proof.
  intros ops c.
  destruct (@lru_eviction_order nat (fun v => v) (fun v => v) 3 60 ops)
    as (A & B & C & _).
  split; [|split].
  - destruct (A 5 "key4" 4%nat None) as (k0 & e0 & rest & E1 & E2 & _);
      [reflexivity | lia | reflexivity |].
    eexists. fold c in E1, E2. rewrite E2, E1. reflexivity.
  - destruct (B 4 "key1" 5 "key4" 4%nat None)
      as (e' & k0 & e0 & rest & G & _ & _ & _ & E);
      [reflexivity | lia | eexists; split; reflexivity | reflexivity |].
    exists rest. fold c in E, G. rewrite E.
    vm_compute in G. injection G as <-. reflexivity.
  - destruct (C 6 "key2" 9%nat None) as [_ E]; [reflexivity|]. exact E.
Defined.

(** ** The cache fingerprint *)

Module SchemasFacts.

Local Open Scope string_scope.

Lemma compare_refl (a : string) : String.compare a a = Eq.
Proof.
  pose proof (String.compare_antisym a a) as H.
  destruct (String.compare a a); simpl in H; congruence.
Qed.

Lemma leb_iff (a b : string) :
  String.leb a b = true <-> a = b \/ String_as_OT.lt a b.
Proof.
  unfold String.leb. destruct (String.compare a b) eqn:E.
  - apply String.compare_eq_iff in E. tauto.
  - apply String_as_OT.cmp_lt in E. tauto.
  - split; [discriminate|]. intros [->|H].
    + rewrite compare_refl in E. discriminate.
    + apply String_as_OT.cmp_lt in H. unfold String_as_OT.cmp in H. congruence.
Qed.

Lemma leb_trans (a b c : string) :
  String.leb a b = true -> String.leb b c = true -> String.leb a c = true.
Proof.
  rewrite !leb_iff. intros [->|H1] [->|H2]; auto.
  right. eapply String_as_OT.lt_trans; eassumption.
Qed.

Lemma insert_item_perm (kv : string * SegValue) (l : SegmentFilters) :
  Permutation (insert_item kv l) (kv :: l).
Proof.
  induction l as [|kv' l IH]; simpl; [reflexivity|].
  destruct (String.leb (fst kv) (fst kv')); [reflexivity|].
  rewrite IH. apply perm_swap.
Qed.

Lemma sort_keys_perm (d : SegmentFilters) : Permutation (sort_keys d) d.
Proof.
  induction d as [|kv d IH]; simpl; [reflexivity|].
  rewrite insert_item_perm. now constructor.
Qed.

Lemma insert_item_sorted (kv : string * SegValue) (l : SegmentFilters) :
  StronglySorted key_le l -> StronglySorted key_le (insert_item kv l).
Proof.
  induction l as [|kv' l IH]; simpl; intros H.
  - repeat constructor.
  - apply StronglySorted_inv in H as [H1 H2].
    destruct (String.leb (fst kv) (fst kv')) eqn:E.
    + constructor; [now constructor|]. constructor; [exact E|].
      eapply Forall_impl; [|exact H2]. intros x Hx. unfold key_le in *.
      eapply leb_trans; eassumption.
    + constructor; [auto|].
      assert (L : key_le kv' kv).
      { unfold key_le. destruct (String.leb_total (fst kv) (fst kv'));
          congruence. }
      eapply Permutation_Forall; [symmetry; apply insert_item_perm|].
      now constructor.
Qed.

Lemma sort_keys_sorted (d : SegmentFilters) : StronglySorted key_le (sort_keys d).
Proof.
  induction d as [|kv d IH]; simpl; [constructor|].
  now apply insert_item_sorted.
Qed.

Lemma attr_In (k : string) (v : SegValue) (l : SegmentFilters) :
  attr k l = Some v -> In k (map fst l).
Proof.
  induction l as [|[k' v'] l IH]; simpl; [discriminate|].
  destruct (String.eqb_spec k' k) as [->|_]; auto.
Qed.

Lemma attr_absent (k : string) (l : SegmentFilters) :
  ~ In k (map fst l) -> attr k l = None.
Proof.
  induction l as [|[k' v'] l IH]; simpl; [reflexivity|]. intros H.
  destruct (String.eqb_spec k' k) as [->|_]; [elim H; now left|].
  apply IH. intros H'. apply H. now right.
Qed.

(** On mappings with each key once, a lookup does not depend on the order
    of the items. *)
Lemma attr_perm (l1 l2 : SegmentFilters) :
  Permutation l1 l2 -> wf_segments l1 ->
  forall k, attr k l1 = attr k l2.
Proof.
  unfold wf_segments.
  induction 1 as [|[k0 v0] l1 l2 P IH|[k0 v0] [k1 v1] l|l1 l2 l3 P1 IH1 P2 IH2];
    intros ND k; simpl in *.
  - reflexivity.
  - inversion ND; subst. now rewrite IH.
  - inversion ND as [|? ? N _]; subst.
    destruct (String.eqb_spec k0 k) as [->|_];
      destruct (String.eqb_spec k1 k) as [->|_]; try reflexivity.
    elim N. now left.
  - rewrite IH1 by exact ND. apply IH2.
    eapply Permutation_NoDup; [|exact ND]. now apply Permutation_map.
Qed.

(** Two sorted mappings with each key once and the same contents are the
    same list. *)
Lemma sorted_unique (l1 l2 : SegmentFilters) :
  StronglySorted key_le l1 -> StronglySorted key_le l2 ->
  wf_segments l1 -> wf_segments l2 ->
  (forall k, attr k l1 = attr k l2) -> l1 = l2.
Proof.
  unfold wf_segments. revert l2.
  induction l1 as [|[k1 v1] t1 IH]; intros [|[k2 v2] t2] S1 S2 N1 N2 E.
  - reflexivity.
  - specialize (E k2). simpl in E. rewrite String.eqb_refl in E. discriminate.
  - specialize (E k1). simpl in E. rewrite String.eqb_refl in E. discriminate.
  - apply StronglySorted_inv in S1 as [S1 F1].
    apply StronglySorted_inv in S2 as [S2 F2].
    simpl in N1, N2. inversion N1 as [|? ? A1 D1]; subst.
    inversion N2 as [|? ? A2 D2]; subst.
    rewrite Forall_forall in F1, F2.
    assert (K : k1 = k2).
    { pose proof (E k1) as E1. pose proof (E k2) as E2. simpl in E1, E2.
      rewrite String.eqb_refl in E1, E2.
      destruct (String.eqb_spec k2 k1) as [->|N21]; [reflexivity|].
      destruct (String.eqb_spec k1 k2) as [->|N12]; [reflexivity|].
      symmetry in E1. apply attr_In in E1. apply attr_In in E2.
      apply in_map_iff in E1 as ([a b] & <- & I1).
      apply in_map_iff in E2 as ([a' b'] & <- & I2).
      apply String.leb_antisym; [exact (F1 _ I2) | exact (F2 _ I1)]. }
    subst k2.
    assert (W : v1 = v2).
    { specialize (E k1). simpl in E. rewrite String.eqb_refl in E. congruence. }
    subst v2. f_equal. apply IH; auto.
    intros k. destruct (String.eqb_spec k1 k) as [<-|N].
    + now rewrite !attr_absent.
    + specialize (E k). simpl in E.
      apply String.eqb_neq in N. now rewrite N in E.
Qed.

Lemma sort_keys_wf (d : SegmentFilters) : wf_segments d -> wf_segments (sort_keys d).
Proof.
  unfold wf_segments. intros H. eapply Permutation_NoDup; [|exact H].
  apply Permutation_map. symmetry. apply sort_keys_perm.
Qed.

(** The sorted items depend on the contents of the mapping only. *)
Lemma sort_keys_canonical (d1 d2 : SegmentFilters) :
  wf_segments d1 -> wf_segments d2 ->
  (forall k, attr k d1 = attr k d2) -> sort_keys d1 = sort_keys d2.
Proof.
  intros W1 W2 E.
  apply sorted_unique; auto using sort_keys_sorted, sort_keys_wf.
  intros k.
  rewrite (attr_perm (sort_keys_perm d1) (sort_keys_wf W1) k).
  rewrite (attr_perm (sort_keys_perm d2) (sort_keys_wf W2) k).
  apply E.
Qed.

End SchemasFacts.

Import SchemasFacts.

(** C1.  Two plans whose field values are identical field for field (the
    scalar fields are equal and the segment mappings hold the same value
    under every name, whatever the order in which their items were entered)
    have the same cache key: the fingerprint is a hash of a serialization
    that writes every mapping with its keys sorted. *)
Theorem identical_plans_same_fingerprint :
  forall (sha256_hexdigest : string -> string) (p1 p2 : Plan),
    wf_segments (segments p1) -> wf_segments (segments p2) ->
    same_fields p1 p2 ->
    canonical_json p1 = canonical_json p2
    /\ cache_key sha256_hexdigest p1 = cache_key sha256_hexdigest p2.
Proof.
  intros h p1 p2 W1 W2 (E1 & E2 & E3 & E4 & E5 & E6 & E7 & E8).
  assert (C : canonical_json p1 = canonical_json p2).
  { unfold canonical_json, dumps_segments.
    rewrite (sort_keys_canonical W1 W2 E8), E1, E2, E3, E4, E5, E6, E7.
    reflexivity. }
  split; [exact C|]. unfold cache_key. now rewrite C.
Qed.

Lemma identical_plans_same_fingerprint_witness :
  cache_key (fun text => text)
    (sample_plan [("channel", SStr "Email"); ("term", SInt 60)])
  = cache_key (fun text => text)
      (sample_plan [("term", SInt 60); ("channel", SStr "Email")]).
Proof.
  apply (@identical_plans_same_fingerprint (fun text => text)
           (sample_plan [("channel", SStr "Email"); ("term", SInt 60)])
           (sample_plan [("term", SInt 60); ("channel", SStr "Email")])).
  - repeat constructor; simpl; intuition discriminate.
  - repeat constructor; simpl; intuition discriminate.
  - repeat split. intros name. apply attr_perm.
    + apply perm_swap.
    + repeat constructor; simpl; intuition discriminate.
Defined.

(** ** The pipeline *)

Module PipelineFacts.

Import Guardrail Orchestrator.

Section Facts.

Variable Env : Type.
Variable time_time : Env -> Z * Env.
Variable router_classify :
  string -> list Message -> Env -> Exc string * Env.
Variable MEMORY_AGENT_AVAILABLE : bool.
Variable memory_agent_explain : string -> Env -> Exc string * Env.
Variable planner_make_plan :
  string -> option string -> list Message -> Env -> Exc Plan * Env.
Variable sql_tool_run : Plan -> Env -> Exc (list Row) * Env.
Variable chart_tool_build : Plan -> list Row -> Env -> Exc ChartSpec * Env.
Variable insights_agent_summarize :
  Plan -> list Row -> Env -> Exc Insight * Env.
Variable sha256_hexdigest : string -> string.

Local Abbreviation node_function :=
  (node_function time_time router_classify MEMORY_AGENT_AVAILABLE
     memory_agent_explain planner_make_plan sql_tool_run chart_tool_build
     insights_agent_summarize sha256_hexdigest).
Local Abbreviation run_from :=
  (run_from time_time router_classify MEMORY_AGENT_AVAILABLE
     memory_agent_explain planner_make_plan sql_tool_run chart_tool_build
     insights_agent_summarize sha256_hexdigest).
Local Abbreviation invoke :=
  (invoke time_time router_classify MEMORY_AGENT_AVAILABLE
     memory_agent_explain planner_make_plan sql_tool_run chart_tool_build
     insights_agent_summarize sha256_hexdigest).
Local Abbreviation retry_loop :=
  (retry_loop time_time router_classify MEMORY_AGENT_AVAILABLE
     memory_agent_explain planner_make_plan sql_tool_run chart_tool_build
     insights_agent_summarize sha256_hexdigest).
Local Abbreviation run_query :=
  (run_query time_time router_classify MEMORY_AGENT_AVAILABLE
     memory_agent_explain planner_make_plan sql_tool_run chart_tool_build
     insights_agent_summarize sha256_hexdigest).

Ltac unfold_monad :=
  unfold bind, ret, call, record, read_clock, get_cache, put_cache in *;
  simpl in *.

Ltac no_event := exists []; rewrite app_nil_r.

(** [cache_tool.get] records the lookup and nothing else. *)
Lemma cache_tool_get_calls (key : string) (w : World Env) :
  calls (snd (cache_tool_get time_time key w))
  = calls w ++ [CallCacheGet key].
Proof.
  unfold cache_tool_get. unfold_monad.
  destruct (_cache_instance w) as [c|]; simpl.
  - destruct (CacheTool.contains key (CacheTool._cache c)); simpl;
      [|reflexivity].
    destruct (time_time (env w)) as [now e]; simpl.
    destruct (CacheTool.get _ now key c); reflexivity.
  - reflexivity.
Qed.

Lemma cache_tool_set_calls (key : string) (value : CacheValue)
  (ex : option Z) (w : World Env) :
  calls (snd (cache_tool_set time_time key value ex w))
  = calls w ++ [CallCacheSet key value ex].
Proof.
  unfold cache_tool_set. unfold_monad.
  destruct (_cache_instance w) as [c|]; simpl;
    destruct (time_time (env w)) as [now e]; reflexivity.
Qed.

(** Every node does what its summary says. *)
Lemma node_effect (n : Node) (s : GraphState) (w : World Env) :
  exists evs,
    calls (snd (node_function n s w)) = calls w ++ evs
    /\ NodeSpec sha256_hexdigest n s (fst (node_function n s w)) evs.
Proof.
  destruct n; simpl.
  - (* router *)
    unfold router_node. unfold_monad.
    destruct (router_classify _ _ (env w)) as [[i|e] env']; simpl;
      (eexists; split; [reflexivity|]); split; eauto.
  - (* memory *)
    unfold memory_node. destruct MEMORY_AGENT_AVAILABLE; simpl.
    + unfold_monad.
      destruct (memory_agent_explain _ (env w)) as [[x|e] env']; simpl;
        (eexists; split; [reflexivity|]); auto.
    + no_event. auto.
  - (* planner *)
    unfold planner_node. unfold_monad.
    destruct (planner_make_plan _ _ _ (env w)) as [[p|e] env']; simpl;
      (eexists; split; [reflexivity|]); split; eauto.
  - (* cache_check *)
    unfold cache_check_node.
    destruct (truthy_str (cache_key s)) eqn:T; simpl.
    + destruct (cache_key s) as [key|]; [|discriminate].
      unfold bind.
      pose proof (cache_tool_get_calls key w) as C.
      destruct (cache_tool_get time_time key w) as [[cached|] w']; simpl in *;
        (eexists; split; [exact C|]);
        (split; [right; eexists; reflexivity | auto]).
    + no_event. auto.
  - (* guardrail *)
    unfold guardrail_node. destruct (plan s) as [p|]; simpl.
    + unfold_monad.
      destruct (is_valid (validate p EmptyString)); simpl;
        (eexists; split; [reflexivity|]); auto.
    + no_event. auto.
  - (* sql_executor *)
    unfold sql_executor_node. destruct (plan s) as [p|]; simpl.
    + unfold_monad.
      destruct (sql_tool_run p (env w)) as [[rows|e] env']; simpl;
        (eexists; split; [reflexivity|]); auto.
    + no_event. auto.
  - (* chart *)
    unfold chart_node.
    destruct (plan s) as [p|]; [|no_event; auto].
    destruct (df_dict s) as [[|row rows]|]; try solve [no_event; auto].
    unfold_monad.
    destruct (chart_tool_build p _ (env w)) as [[spec|e] env']; simpl;
      (eexists; split; [reflexivity|]); auto.
  - (* insights *)
    unfold insights_node.
    destruct (plan s) as [p|]; [|no_event; auto].
    destruct (df_dict s) as [[|row rows]|]; try solve [no_event; auto].
    unfold_monad.
    destruct (insights_agent_summarize p _ (env w)) as [[i|e] env']; simpl;
      (eexists; split; [reflexivity|]); auto.
  - (* cache_store *)
    unfold cache_store_node.
    destruct (truthy_str (cache_key s)) eqn:K; simpl; [|no_event; auto].
    destruct (truthy_str (error s)) eqn:E; simpl; [no_event; auto|].
    destruct (truthy_list (df_dict s)) eqn:D; simpl; [|no_event; auto].
    destruct (negb (truthy_list (chart_spec s))
              && negb (truthy_obj (insight s))) eqn:A; [no_event; auto|].
    assert (St : storable s).
    { repeat split; auto. apply andb_false_iff in A as [A|A];
        apply negb_false_iff in A; auto. }
    destruct (cache_key s) as [key|]; [|discriminate].
    destruct (insight s) as [[i|d]|]; try solve [no_event; auto].
    + unfold bind.
      pose proof (cache_tool_set_calls key
                    (mkCacheValue (df_dict s) (chart_spec s)
                       (Some (model_dump i))) (Some 600) w) as C.
      destruct (cache_tool_set time_time key _ (Some 600) w) as [u w'].
      simpl in *. eexists; split; [exact C|]. split; [reflexivity|].
      right. split; [exact St|]. eauto.
    + unfold bind.
      pose proof (cache_tool_set_calls key
                    (mkCacheValue (df_dict s) (chart_spec s) None)
                    (Some 600) w) as C.
      destruct (cache_tool_set time_time key _ (Some 600) w) as [u w'].
      simpl in *. eexists; split; [exact C|]. split; [reflexivity|].
      right. split; [exact St|]. eauto.
Qed.

Lemma next_node_rank (n n' : Node) (s : GraphState) :
  next_node n s = Some n' -> (rank n' < rank n)%nat.
Proof.
  destruct n; simpl;
    repeat match goal with
           | |- context [if ?b then _ else _] => destruct b
           end;
    intros [= <-]; simpl; lia.
Qed.

(** Reasoning along the graph: an invariant [I] on (node about to run,
    state, record so far) that every node carries to its successor, and that
    gives [Q] where the graph ends, gives [Q] at the end of every run; and a
    run that starts with enough steps left does end. *)
Lemma run_from_sound
  (I : Node -> GraphState -> list Event -> Prop)
  (Q : GraphState -> list Event -> Prop) :
  (forall n s evs s' evs',
      I n s evs -> NodeSpec sha256_hexdigest n s s' evs' ->
      match next_node n s' with
      | Some n' => I n' s' (evs ++ Enter n :: evs')
      | None => Q s' (evs ++ Enter n :: evs')
      end) ->
  forall (limit : nat) (n : Node) (s : GraphState) (w w0 : World Env)
         (evs : list Event),
    (rank n <= limit)%nat -> calls w = calls w0 ++ evs -> I n s evs ->
    exists s' evs',
      fst (run_from limit n s w) = Ok s'
      /\ calls (snd (run_from limit n s w)) = calls w0 ++ evs'
      /\ Q s' evs'.
Proof.
  intros Step. induction limit as [|limit IH]; intros n s w w0 evs R C Hi.
  - destruct n; simpl in R; lia.
  - set (w1 := mkWorld (env w) (_cache_instance w) (calls w ++ [Enter n])).
    destruct (node_effect n s w1) as (evs' & C' & Sp).
    destruct (node_function n s w1) as [s' w2] eqn:N. simpl in C', Sp.
    assert (E : run_from (S limit) n s w
                = match next_node n s' with
                  | Some n' => run_from limit n' s' w2
                  | None => (Ok s', w2)
                  end).
    { simpl. unfold bind, record. fold w1. rewrite N.
      destruct (next_node n s'); reflexivity. }
    rewrite E.
    specialize (Step n s evs s' evs' Hi Sp).
    assert (C2 : calls w2 = calls w0 ++ (evs ++ Enter n :: evs')).
    { rewrite C'. unfold w1. simpl. rewrite C, <- !app_assoc. reflexivity. }
    destruct (next_node n s') as [n'|] eqn:X.
    + apply (IH n' s' w2 w0 (evs ++ Enter n :: evs')); auto.
      apply next_node_rank in X. lia.
    + exists s', (evs ++ Enter n :: evs'). auto.
Qed.

Lemma invoke_sound
  (I : Node -> GraphState -> list Event -> Prop)
  (Q : GraphState -> list Event -> Prop) :
  (forall n s evs s' evs',
      I n s evs -> NodeSpec sha256_hexdigest n s s' evs' ->
      match next_node n s' with
      | Some n' => I n' s' (evs ++ Enter n :: evs')
      | None => Q s' (evs ++ Enter n :: evs')
      end) ->
  forall (s : GraphState) (w : World Env),
    I router s [] ->
    exists s' evs',
      fst (invoke s w) = Ok s'
      /\ calls (snd (invoke s w)) = calls w ++ evs'
      /\ Q s' evs'.
Proof.
  intros Step s w Hi. unfold Orchestrator.invoke.
  apply (run_from_sound I Q Step) with (evs := []);
    [simpl; unfold recursion_limit; lia | now rewrite app_nil_r | exact Hi].
Qed.

Lemma cache_written_app (a b : list Event) :
  cache_written (a ++ b) <-> cache_written a \/ cache_written b.
Proof.
  unfold cache_written. split.
  - intros (k & v & ex & H). apply in_app_or in H as [H|H]; eauto 6.
  - intros [(k & v & ex & H)|(k & v & ex & H)]; exists k, v, ex;
      apply in_or_app; auto.
Qed.

Lemma should_skip_guardrail (s : GraphState) :
  (should_skip_execution s =? "guardrail")%string = true ->
  cache_hit s = false /\ truthy_str (error s) = false.
Proof.
  unfold should_skip_execution.
  destruct (cache_hit s); [discriminate|].
  destruct (truthy_str (error s)); [discriminate|]. auto.
Qed.

Ltac events_tac :=
  repeat match goal with
         | H : cache_written ?e, N : ~ cache_written ?e |- _ => elim (N H)
         | H : _ /\ _ |- _ => destruct H
         | H : exists _, _ |- _ => destruct H
         | H : cache_written (_ ++ _) |- _ => apply cache_written_app in H
         | H : In _ (_ ++ _) |- _ => apply in_app_or in H
         | H : _ \/ _ |- _ => destruct H
         | H : In _ (_ :: _) |- _ => simpl in H
         | H : In _ [] |- _ => destruct H
         | H : cache_written _ |- _ =>
             let k := fresh in let v := fresh in let ex := fresh in
             destruct H as (k & v & ex & H)
         | H : ?x = _ |- _ => is_var x; subst x
         end;
  subst; try discriminate; try contradiction; try congruence.

(** A run writes to the cache only from [cache_store], the last node, and
    only a storable state; no write happens after [memory] was entered or
    when the cache lookup hit. *)
Lemma invoke_cache_discipline (s : GraphState) (w : World Env) :
  exists s' evs,
    fst (invoke s w) = Ok s'
    /\ calls (snd (invoke s w)) = calls w ++ evs
    /\ (cache_written evs ->
        storable s' /\ cache_hit s' = false /\ ~ In (Enter memory) evs).
Proof.
  apply (invoke_sound
    (fun n s evs =>
       ~ cache_written evs
       /\ match n with
          | router => evs = []
          | memory => True
          | planner | cache_check => ~ In (Enter memory) evs
          | _ => ~ In (Enter memory) evs /\ cache_hit s = false
          end)
    (fun s' evs =>
       cache_written evs ->
       storable s' /\ cache_hit s' = false /\ ~ In (Enter memory) evs)).
  - intros n s0 evs s' evs' [NW Hn] Sp. destruct n; simpl in Sp.
    + (* router *)
      destruct Sp as [-> _]. subst evs. simpl.
      destruct (should_use_memory s' =? "memory")%string; split;
        try exact I; intro; events_tac.
    + (* memory *)
      simpl. intros W. exfalso. events_tac.
    + (* planner *)
      simpl. destruct Sp as [-> _]. split; intro; events_tac.
    + (* cache_check *)
      simpl.
      destruct (should_skip_execution s' =? "guardrail")%string eqn:G.
      * apply should_skip_guardrail in G as [G _].
        split; [intro; events_tac|]. split; [intro; events_tac | exact G].
      * intros W. exfalso. events_tac.
    + (* guardrail *)
      destruct Hn as [NM CH].
      assert (CH' : cache_hit s' = false).
      { destruct (plan s0); destruct Sp as [_ ->];
          [destruct (is_valid _)|]; exact CH. }
      assert (EV : forall ev, In ev evs' ->
                   is_cache_set ev = false /\ ev <> Enter memory).
      { destruct (plan s0); destruct Sp as [-> _]; intros ev Hev;
          simpl in Hev; [|contradiction].
        destruct Hev as [<-|[]]. split; [reflexivity | discriminate]. }
      simpl.
      destruct (should_continue_after_guardrail s' =? "sql")%string.
      * split; [|split; [|exact CH']].
        -- intros W. events_tac. destruct (EV _ H) as [F _]. discriminate.
        -- intros W. events_tac. destruct (EV _ H) as [_ F]. now elim F.
      * intros W. exfalso. events_tac.
        destruct (EV _ H) as [F _]. discriminate.
    + (* sql_executor *)
      destruct Hn as [NM CH]. simpl. destruct Sp as (E & CH' & _).
      split; [|split; [|congruence]]; intro; events_tac.
    + (* chart *)
      destruct Hn as [NM CH]. simpl. destruct Sp as (E & CH' & _).
      split; [|split; [|congruence]]; intro; events_tac.
    + (* insights *)
      destruct Hn as [NM CH]. simpl. destruct Sp as (E & CH' & _).
      split; [|split; [|congruence]]; intro; events_tac.
    + (* cache_store *)
      destruct Hn as [NM CH]. simpl. destruct Sp as (-> & [->|(St & k & v & ->)]).
      * intros W. exfalso. events_tac.
      * intros _. split; [exact St|]. split; [exact CH|].
        intro; events_tac.
  - split; [|reflexivity]. intro; events_tac.
Qed.

Ltac in_events :=
  repeat match goal with
         | H : _ /\ _ |- _ => destruct H
         | H : exists _, _ |- _ => destruct H
         | H : In _ (_ ++ _) |- _ => apply in_app_or in H
         | H : _ \/ _ |- _ => destruct H
         | H : In _ (_ :: _) |- _ => simpl in H
         | H : In _ [] |- _ => destruct H
         | H : ?x = _ |- _ => is_var x; subst x
         end;
  subst; try discriminate; try contradiction; try congruence.

Lemma Forall_snoc_events (P : Event -> Prop) (evs evs' : list Event)
  (n : Node) :
  Forall P evs -> P (Enter n) -> Forall P evs' ->
  Forall P (evs ++ Enter n :: evs').
Proof. intros A B C. apply Forall_app. split; [exact A | now constructor]. Qed.

(** The validator is only ever called with the empty SQL text; when it
    rejects, the run ends there with its message as the error, and the
    executor is not called. *)
Lemma invoke_validation (s : GraphState) (w : World Env) :
  exists s' evs,
    fst (invoke s w) = Ok s'
    /\ calls (snd (invoke s w)) = calls w ++ evs
    /\ Forall validates_empty_sql evs
    /\ forall p q,
         In (CallValidate p q) evs -> is_valid (validate p q) = false ->
         error s' = error_message (validate p q) /\ ~ In CallSqlRun evs.
Proof.
  apply (invoke_sound
    (fun n s evs =>
       Forall validates_empty_sql evs
       /\ match n with
          | router | memory | planner | cache_check | guardrail =>
              (forall p q, ~ In (CallValidate p q) evs) /\ ~ In CallSqlRun evs
          | _ =>
              forall p q, In (CallValidate p q) evs ->
                          is_valid (validate p q) = true
          end)
    (fun s' evs =>
       Forall validates_empty_sql evs
       /\ forall p q,
            In (CallValidate p q) evs -> is_valid (validate p q) = false ->
            error s' = error_message (validate p q) /\ ~ In CallSqlRun evs)).
  - intros n s0 evs s1 evs' [F Hn] Sp.
    assert (F' : Forall validates_empty_sql evs'
                 -> Forall validates_empty_sql (evs ++ Enter n :: evs')).
    { intros. apply Forall_snoc_events; simpl; auto. }
    destruct n; simpl in Sp.
    + (* router *)
      destruct Hn as [NV NS]. destruct Sp as [-> _]. simpl.
      destruct (should_use_memory s1 =? "memory")%string;
        (split; [apply F'; repeat constructor|]);
        (split; [intros p q W; apply (NV p q) | intros W; apply NS]);
        in_events.
    + (* memory *)
      destruct Hn as [NV NS]. simpl.
      split; [apply F'; destruct Sp as [[->| ->] _]; repeat constructor|].
      intros p q W. exfalso. apply (NV p q). in_events.
    + (* planner *)
      destruct Hn as [NV NS]. destruct Sp as [-> _]. simpl.
      split; [apply F'; repeat constructor|].
      split; [intros p q W; apply (NV p q) | intros W; apply NS]; in_events.
    + (* cache_check *)
      destruct Hn as [NV NS]. simpl.
      assert (Fe : Forall validates_empty_sql evs').
      { destruct Sp as [[->|[k ->]] _]; repeat constructor. }
      destruct (should_skip_execution s1 =? "guardrail")%string.
      * split; [now apply F'|].
        split; [intros p q W; apply (NV p q) | intros W; apply NS]; in_events.
      * split; [now apply F'|]. intros p q W. exfalso. apply (NV p q).
        in_events.
    + (* guardrail *)
      destruct Hn as [NV NS]. simpl.
      destruct (plan s0) as [p0|] eqn:P.
      * destruct Sp as [-> Es].
        assert (Fe : Forall validates_empty_sql
                       (evs ++ Enter guardrail
                            :: [CallValidate p0 EmptyString])).
        { apply F'. repeat constructor. }
        destruct (is_valid (validate p0 EmptyString)) eqn:V.
        -- subst s1.
           destruct (should_continue_after_guardrail s0 =? "sql")%string.
           ++ split; [exact Fe|]. intros p q W.
              apply in_app_or in W as [W|[W|[W|[]]]];
                [elim (NV p q W) | discriminate | congruence].
           ++ split; [exact Fe|]. intros p q W Inv.
              apply in_app_or in W as [W|[W|[W|[]]]];
                [elim (NV p q W) | discriminate | congruence].
        -- assert (T : truthy_str (error s1) = true).
           { subst s1. simpl. rewrite validate_empty_sql in *.
             now apply validate_plan_rules_message. }
           unfold should_continue_after_guardrail. rewrite T. simpl.
           split; [exact Fe|]. intros p q W Inv.
           apply in_app_or in W as [W|[W|[W|[]]]];
             [elim (NV p q W) | discriminate |].
           injection W as <- <-. subst s1. split; [reflexivity|].
           intros S. apply NS. in_events.
      * destruct Sp as [-> ->]. simpl.
        split; [apply F'; constructor|].
        intros p q W. exfalso. apply (NV p q). in_events.
    + (* sql_executor *)
      simpl. split; [apply F'; destruct Sp as [[->| ->] _]; repeat constructor|].
      intros p q W. apply Hn. in_events.
    + (* chart *)
      simpl. split; [apply F'; destruct Sp as [[->| ->] _]; repeat constructor|].
      intros p q W. apply Hn. in_events.
    + (* insights *)
      simpl. split; [apply F'; destruct Sp as [[->| ->] _]; repeat constructor|].
      intros p q W. apply Hn. in_events.
    + (* cache_store *)
      simpl.
      split; [apply F'; destruct Sp as [_ [->|(_ & k & v & ->)]];
              repeat constructor|].
      intros p q W Inv. exfalso.
      assert (V : is_valid (validate p q) = true); [|congruence].
      apply Hn. in_events.
  - split; [constructor|]. split; [intros p q []|intros []].
Qed.

(** *** The retry loop *)

Lemma retry_loop_eq (max_retries attempt : Z) (final_state : option GraphState)
  (initial_state : GraphState) (w : World Env) :
  retry_loop max_retries attempt final_state initial_state w
  = if Z_lt_dec attempt max_retries then
      match invoke initial_state w with
      | (Ok final_state', w') =>
          if negb (truthy_str (error final_state')) then
            (Some final_state', w')
          else
            retry_loop max_retries (attempt + 1) (Some final_state')
              (if attempt + 1 <? max_retries
               then set_error None initial_state else initial_state) w'
      | (Raise e, w') =>
          retry_loop max_retries (attempt + 1)
            (if attempt + 1 >=? max_retries
             then Some (set_error
                          (Some ("Query execution failed after "
                                 ++ str_of_int max_retries ++ " attempts: "
                                 ++ e)%string) initial_state)
             else final_state)
            initial_state w'
      end
    else (final_state, w).
Proof.
  rewrite retry_loop_unfold_eq. unfold retry_loop_unfold.
  destruct (Z_lt_dec attempt max_retries); simpl; [|reflexivity].
  unfold bind. destruct (invoke initial_state w) as [[fs|e] w']; simpl;
    [|reflexivity].
  destruct (truthy_str (error fs)); reflexivity.
Qed.

(** Without an attempt the loop leaves [final_state] as it was. *)
Lemma retry_loop_no_attempt (max_retries attempt : Z)
  (final_state : option GraphState) (initial_state : GraphState)
  (w : World Env) :
  max_retries <= attempt ->
  retry_loop max_retries attempt final_state initial_state w
  = (final_state, w).
Proof.
  intros H. rewrite retry_loop_eq.
  destruct (Z_lt_dec attempt max_retries); [lia | reflexivity].
Qed.

(** With an attempt left, or a state already in hand, the loop ends with a
    state. *)
Lemma retry_loop_some (k : nat) :
  forall (max_retries attempt : Z) (final_state : option GraphState)
         (initial_state : GraphState) (w : World Env),
    Z.to_nat (max_retries - attempt) = k ->
    final_state <> None \/ attempt < max_retries ->
    fst (retry_loop max_retries attempt final_state initial_state w) <> None.
Proof.
  induction k as [|k IH]; intros m a fs ini w K H; rewrite retry_loop_eq;
    destruct (Z_lt_dec a m) as [L|L]; try lia.
  - simpl. destruct H; [assumption | lia].
  - destruct (invoke ini w) as [[fs'|e] w'].
    + destruct (negb (truthy_str (error fs'))); [simpl; discriminate|].
      apply IH; [lia | left; discriminate].
    + apply IH; [lia|].
      destruct (a + 1 >=? m) eqn:G; [left; discriminate|].
      right. rewrite Z.geb_leb in G. apply Z.leb_gt in G. lia.
Qed.

(** [run_query] with no attempt allowed raises. *)
Lemma run_query_no_attempt (user_query : string)
  (conversation_history : option (list Message)) (max_retries : Z)
  (w : World Env) :
  max_retries <= 0 ->
  run_query user_query conversation_history max_retries w
  = (Raise "'NoneType' object has no attribute 'get'", w).
Proof.
  intros H. unfold Orchestrator.run_query, bind.
  rewrite retry_loop_no_attempt by exact H. reflexivity.
Qed.

(** [run_query] with at least one attempt allowed returns a response. *)
Lemma run_query_returns (user_query : string)
  (conversation_history : option (list Message)) (max_retries : Z)
  (w : World Env) :
  1 <= max_retries ->
  exists response,
    fst (run_query user_query conversation_history max_retries w)
    = Ok response.
Proof.
  intros H. unfold Orchestrator.run_query, bind.
  pose proof (@retry_loop_some (Z.to_nat (max_retries - 0)) max_retries 0 None
                (make_initial_state user_query conversation_history) w
                eq_refl) as S.
  destruct (retry_loop max_retries 0 None _ w) as [[fs|] w'].
  - eexists. reflexivity.
  - elim S; [right; lia | reflexivity].
Qed.

(** *** Counting the attempts *)

Lemma invocations_app (a b : list Event) :
  invocations (a ++ b) = (invocations a + invocations b)%nat.
Proof. unfold invocations. now rewrite filter_app, length_app. Qed.

Lemma node_spec_invocations (n : Node) (s s' : GraphState)
  (evs : list Event) :
  NodeSpec sha256_hexdigest n s s' evs -> invocations evs = 0%nat.
Proof.
  destruct n; simpl; try (destruct (plan s)); intros Sp; in_events;
    reflexivity.
Qed.

(** One run of the graph enters [router] once. *)
Lemma invoke_invocations (s : GraphState) (w : World Env) :
  exists s' evs,
    fst (invoke s w) = Ok s'
    /\ calls (snd (invoke s w)) = calls w ++ evs
    /\ invocations evs = 1%nat.
Proof.
  apply (invoke_sound
    (fun n s evs =>
       invocations evs = match n with router => 0%nat | _ => 1%nat end)
    (fun s' evs => invocations evs = 1%nat)); [|reflexivity].
  intros n s0 evs s' evs' Hi Sp.
  pose proof (node_spec_invocations _ _ _ _ Sp) as Z0.
  assert (C : invocations (evs ++ Enter n :: evs')
              = (invocations evs
                 + match n with router => 1 | _ => 0 end)%nat).
  { rewrite invocations_app.
    change (Enter n :: evs') with ([Enter n] ++ evs').
    rewrite invocations_app, Z0. destruct n; simpl; lia. }
  rewrite C, Hi.
  destruct n; simpl;
    repeat match goal with
           | |- context [if ?b then _ else _] => destruct b
           end; reflexivity.
Qed.

(** The loop starts the graph at most once per attempt left, and every
    attempt left was used when it ends with a state that carries an
    error. *)
Lemma retry_loop_attempts (k : nat) :
  forall (max_retries attempt : Z) (final_state : option GraphState)
         (initial_state : GraphState) (w : World Env),
    Z.to_nat (max_retries - attempt) = k ->
    exists evs,
      calls (snd (retry_loop max_retries attempt final_state initial_state w))
      = calls w ++ evs
      /\ (invocations evs <= k)%nat
      /\ forall fs,
           fst (retry_loop max_retries attempt final_state initial_state w)
           = Some fs ->
           truthy_str (error fs) = true -> invocations evs = k.
Proof.
  induction k as [|k IH]; intros m a fs0 ini w K; rewrite retry_loop_eq;
    destruct (Z_lt_dec a m) as [L|L]; try lia.
  - exists []. rewrite app_nil_r. simpl. auto.
  - destruct (invoke_invocations ini w) as (s' & evs & E1 & E2 & E3).
    destruct (invoke ini w) as [r w']. simpl in E1, E2. subst r.
    destruct (negb (truthy_str (error s'))) eqn:T.
    + exists evs. simpl. split; [exact E2|]. split; [lia|].
      intros fs [= <-] Tr. apply negb_true_iff in T. congruence.
    + match goal with
      | |- context [retry_loop m (a + 1) ?f ?i w'] =>
          destruct (IH m (a + 1) f i w') as (evs2 & F1 & F2 & F3); [lia|]
      end.
      exists (evs ++ evs2). rewrite F1, E2, <- app_assoc.
      split; [reflexivity|]. rewrite invocations_app, E3.
      split; [lia|]. intros fs Hf Tr. rewrite (F3 fs Hf Tr). reflexivity.
Qed.

(** [run_query] with at least one attempt allowed: it returns a response,
    having started the graph at most [max_retries] times, and exactly
    [max_retries] times when the response carries an error. *)
Lemma run_query_attempts (user_query : string)
  (conversation_history : option (list Message)) (max_retries : Z)
  (w : World Env) :
  1 <= max_retries ->
  exists response evs,
    fst (run_query user_query conversation_history max_retries w)
    = Ok response
    /\ calls (snd (run_query user_query conversation_history max_retries w))
       = calls w ++ evs
    /\ (invocations evs <= Z.to_nat max_retries)%nat
    /\ (truthy_str (r_error response) = true ->
        invocations evs = Z.to_nat max_retries).
Proof.
  intros H. unfold Orchestrator.run_query, bind.
  pose proof (@retry_loop_some (Z.to_nat (max_retries - 0)) max_retries 0 None
                (make_initial_state user_query conversation_history) w
                eq_refl) as S.
  destruct (@retry_loop_attempts (Z.to_nat (max_retries - 0)) max_retries 0
              None (make_initial_state user_query conversation_history) w
              eq_refl) as (evs & F1 & F2 & F3).
  rewrite Z.sub_0_r in *.
  destruct (retry_loop max_retries 0 None _ w) as [[fs|] w'].
  - eexists. exists evs. simpl in *. split; [reflexivity|].
    split; [exact F1|]. split; [exact F2|]. intros Tr. now apply (F3 fs).
  - elim S; [right; lia | reflexivity].
Qed.

End Facts.

End PipelineFacts.

Import PipelineFacts.

(** C4.  In every run of the graph, a write to the cache happens only if the
    terminal state has no error, has at least one result row, and has a
    chart specification or an insight; and no write happens in a run that
    entered [memory] (the explain-only path) or whose cache lookup hit. *)
Theorem cache_written_only_when_storable :
  forall (Env : Type) (time_time : Env -> Z * Env)
         (router_classify :
            string -> list Orchestrator.Message -> Env -> Exc string * Env)
         (MEMORY_AGENT_AVAILABLE : bool)
         (memory_agent_explain : string -> Env -> Exc string * Env)
         (planner_make_plan :
            string -> option string -> list Orchestrator.Message -> Env ->
            Exc Plan * Env)
         (sql_tool_run : Plan -> Env -> Exc (list Orchestrator.Row) * Env)
         (chart_tool_build :
            Plan -> list Orchestrator.Row -> Env ->
            Exc Orchestrator.ChartSpec * Env)
         (insights_agent_summarize :
            Plan -> list Orchestrator.Row -> Env ->
            Exc Orchestrator.Insight * Env)
         (sha256_hexdigest : string -> string)
         (initial_state : Orchestrator.GraphState)
         (w : Orchestrator.World Env),
    let run :=
      Orchestrator.invoke time_time router_classify MEMORY_AGENT_AVAILABLE
        memory_agent_explain planner_make_plan sql_tool_run chart_tool_build
        insights_agent_summarize sha256_hexdigest initial_state w in
    exists final_state evs,
      fst run = Ok final_state
      /\ Orchestrator.calls (snd run) = Orchestrator.calls w ++ evs
      /\ (cache_written evs ->
          truthy_str (Orchestrator.error final_state) = false
          /\ truthy_list (Orchestrator.df_dict final_state) = true
          /\ (truthy_list (Orchestrator.chart_spec final_state) = true
              \/ truthy_obj (Orchestrator.insight final_state) = true))
      /\ (In (Orchestrator.Enter Orchestrator.memory) evs ->
          ~ cache_written evs)
      /\ (Orchestrator.cache_hit final_state = true -> ~ cache_written evs).
Proof.
  intros. subst run.
  destruct (invoke_cache_discipline time_time router_classify
              MEMORY_AGENT_AVAILABLE memory_agent_explain planner_make_plan
              sql_tool_run chart_tool_build insights_agent_summarize
              sha256_hexdigest initial_state w) as (s' & evs & E1 & E2 & H).
  exists s', evs. split; [exact E1|]. split; [exact E2|]. split; [|split].
  - intros W. destruct (H W) as ((_ & A & B & C) & _). auto.
  - intros M W. destruct (H W) as (_ & _ & N). exact (N M).
  - intros C W. destruct (H W) as (_ & N & _). congruence.
Qed.

Lemma cache_written_only_when_storable_witness :
  exists final_state,
    fst (sample_invoke classify_trend
           (Orchestrator.make_initial_state "Show weekly issuance trend" None)
           sample_world) = Ok final_state
    /\ truthy_str (Orchestrator.error final_state) = false
    /\ truthy_list (Orchestrator.df_dict final_state) = true.
Proof.
  destruct (@cache_written_only_when_storable SampleEnv sample_time
              classify_trend true sample_explain sample_make_plan
              sample_sql_run sample_chart_build sample_summarize sample_hash
              (Orchestrator.make_initial_state "Show weekly issuance trend"
                 None) sample_world)
    as (final_state & evs & E1 & E2 & H & _).
  exists final_state. split; [exact E1|].
  assert (W : cache_written evs).
  { vm_compute in E2. rewrite <- E2. do 3 eexists. simpl.
    repeat (first [left; reflexivity | right]). }
  destruct (H W) as (A & B & _). auto.
Defined.

(** C9.  The pipeline calls the validator with the empty string as the SQL
    text, in every run.  On the empty text the keyword rule and the
    statement rule pass, so no rejection is flagged as a security event, and
    the answer of [validate] is the one of the segment rule and the window
    rule: it is the same for two plans with the same segment filters and
    window.  When the validator rejects, the run ends with its message as
    the error and the executor is not called. *)
Theorem pipeline_validates_plan_only :
  forall (Env : Type) (time_time : Env -> Z * Env)
         (router_classify :
            string -> list Orchestrator.Message -> Env -> Exc string * Env)
         (MEMORY_AGENT_AVAILABLE : bool)
         (memory_agent_explain : string -> Env -> Exc string * Env)
         (planner_make_plan :
            string -> option string -> list Orchestrator.Message -> Env ->
            Exc Plan * Env)
         (sql_tool_run : Plan -> Env -> Exc (list Orchestrator.Row) * Env)
         (chart_tool_build :
            Plan -> list Orchestrator.Row -> Env ->
            Exc Orchestrator.ChartSpec * Env)
         (insights_agent_summarize :
            Plan -> list Orchestrator.Row -> Env ->
            Exc Orchestrator.Insight * Env)
         (sha256_hexdigest : string -> string)
         (initial_state : Orchestrator.GraphState)
         (w : Orchestrator.World Env),
    let run :=
      Orchestrator.invoke time_time router_classify MEMORY_AGENT_AVAILABLE
        memory_agent_explain planner_make_plan sql_tool_run chart_tool_build
        insights_agent_summarize sha256_hexdigest initial_state w in
    (Guardrail._check_sql_safety EmptyString = Guardrail.valid
     /\ Guardrail._check_multiple_statements EmptyString = Guardrail.valid)
    /\ (forall plan,
           Guardrail.validate plan EmptyString = validate_plan_rules plan
           /\ Guardrail.security_event (Guardrail.validate plan EmptyString)
              = false)
    /\ (forall p1 p2,
           segments p1 = segments p2 -> window p1 = window p2 ->
           Guardrail.validate p1 EmptyString
           = Guardrail.validate p2 EmptyString)
    /\ exists final_state evs,
         fst run = Ok final_state
         /\ Orchestrator.calls (snd run) = Orchestrator.calls w ++ evs
         /\ (forall plan sql,
                In (Orchestrator.CallValidate plan sql) evs ->
                sql = EmptyString
                /\ Guardrail.security_event (Guardrail.validate plan sql)
                   = false
                /\ (Guardrail.is_valid (Guardrail.validate plan sql) = false ->
                    Orchestrator.error final_state
                    = Guardrail.error_message (validate_plan_rules plan)
                    /\ ~ In Orchestrator.CallSqlRun evs)).
Proof.
  intros. subst run. split; [split; reflexivity|]. split; [|split].
  - intros plan. split; [reflexivity|].
    apply validate_plan_rules_no_security_event.
  - intros p1 p2 Es Ew. rewrite !validate_empty_sql.
    unfold validate_plan_rules, Guardrail._validate_segment_filters,
      Guardrail._validate_time_window.
    rewrite Es, Ew. reflexivity.
  - destruct (invoke_validation time_time router_classify
                MEMORY_AGENT_AVAILABLE memory_agent_explain planner_make_plan
                sql_tool_run chart_tool_build insights_agent_summarize
                sha256_hexdigest initial_state w)
      as (s' & evs & E1 & E2 & F & H).
    exists s', evs. split; [exact E1|]. split; [exact E2|].
    intros plan sql Hin.
    assert (Q : sql = EmptyString).
    { rewrite Forall_forall in F. exact (F _ Hin). }
    subst sql. split; [reflexivity|].
    split; [apply validate_plan_rules_no_security_event|].
    intros V. exact (H plan EmptyString Hin V).
Qed.

Lemma pipeline_validates_plan_only_witness :
  exists final_state,
    fst (sample_invoke classify_trend
           (Orchestrator.make_initial_state "Show weekly issuance trend" None)
           sample_world) = Ok final_state
    /\ Guardrail.security_event
         (Guardrail.validate (sample_plan []) EmptyString) = false.
Proof.
  destruct (@pipeline_validates_plan_only SampleEnv sample_time
              classify_trend true sample_explain sample_make_plan
              sample_sql_run sample_chart_build sample_summarize sample_hash
              (Orchestrator.make_initial_state "Show weekly issuance trend"
                 None) sample_world)
    as (_ & _ & _ & final_state & evs & E1 & E2 & H).
  exists final_state. split; [exact E1|].
  apply (H (sample_plan []) EmptyString).
  vm_compute in E2. rewrite <- E2. simpl.
  repeat (first [left; reflexivity | right]).
Defined.

(** C8 (what the code does).  With [max_retries <= 0] the loop body never
    runs, [final_state] is still [None] when the response is built, and
    [run_query] raises instead of returning a result.  With
    [max_retries >= 1] it returns a response, after at most [max_retries]
    runs of the graph, and after exactly [max_retries] runs when the
    response carries an error. *)
Theorem run_query_without_attempt_raises :
  forall (Env : Type) (time_time : Env -> Z * Env)
         (router_classify :
            string -> list Orchestrator.Message -> Env -> Exc string * Env)
         (MEMORY_AGENT_AVAILABLE : bool)
         (memory_agent_explain : string -> Env -> Exc string * Env)
         (planner_make_plan :
            string -> option string -> list Orchestrator.Message -> Env ->
            Exc Plan * Env)
         (sql_tool_run : Plan -> Env -> Exc (list Orchestrator.Row) * Env)
         (chart_tool_build :
            Plan -> list Orchestrator.Row -> Env ->
            Exc Orchestrator.ChartSpec * Env)
         (insights_agent_summarize :
            Plan -> list Orchestrator.Row -> Env ->
            Exc Orchestrator.Insight * Env)
         (sha256_hexdigest : string -> string)
         (user_query : string)
         (conversation_history : option (list Orchestrator.Message))
         (max_retries : Z) (w : Orchestrator.World Env),
    let result :=
      Orchestrator.run_query time_time router_classify MEMORY_AGENT_AVAILABLE
        memory_agent_explain planner_make_plan sql_tool_run chart_tool_build
        insights_agent_summarize sha256_hexdigest user_query
        conversation_history max_retries w in
    (max_retries <= 0 ->
     result = (Raise "'NoneType' object has no attribute 'get'", w))
    /\ (1 <= max_retries ->
        exists response evs,
          fst result = Ok response
          /\ Orchestrator.calls (snd result) = Orchestrator.calls w ++ evs
          /\ (invocations evs <= Z.to_nat max_retries)%nat
          /\ (truthy_str (Orchestrator.r_error response) = true ->
              invocations evs = Z.to_nat max_retries)).
Proof.
  intros. subst result. split.
  - intros H. now apply run_query_no_attempt.
  - intros H. now apply run_query_attempts.
Qed.

Lemma run_query_without_attempt_raises_witness :
  sample_run_query classify_trend "Show weekly issuance trend" None 0
    sample_world
  = (Raise "'NoneType' object has no attribute 'get'", sample_world)
  /\ exists response,
       fst (sample_run_query classify_fails "Show weekly issuance trend" None
              2 sample_world) = Ok response.
Proof.
  split.
  - apply (proj1 (@run_query_without_attempt_raises SampleEnv sample_time
             classify_trend true sample_explain sample_make_plan
             sample_sql_run sample_chart_build sample_summarize sample_hash
             "Show weekly issuance trend" None 0 sample_world)).
    lia.
  - destruct (proj2 (@run_query_without_attempt_raises SampleEnv sample_time
                classify_fails true sample_explain sample_make_plan
                sample_sql_run sample_chart_build sample_summarize
                sample_hash "Show weekly issuance trend" None 2 sample_world))
      as (response & evs & E & _); [lia|].
    exists response. exact E.
Defined.

(* ===================================================================== *)
(** ** agents/guardrail.py: the statement rule and the shape of results *)
(* ===================================================================== *)

Module StatementFacts.

Import Guardrail PyFacts GuardrailFacts.
Local Open Scope string_scope.

Lemma contains_char_count (c : ascii) (s : string) :
  contains_char c s = negb (count_char c s =? 0)%nat.
Proof.
  induction s as [|a s IH]; simpl; [reflexivity|].
  destruct (Ascii.eqb a c); simpl; [reflexivity | exact IH].
Qed.

Lemma count_char_app (c : ascii) (s t : string) :
  count_char c (s ++ t) = (count_char c s + count_char c t)%nat.
Proof. induction s as [|a s IH]; simpl; [reflexivity | rewrite IH; lia]. Qed.

Lemma space_not_char (c a : ascii) :
  is_space c = false -> is_space a = true -> Ascii.eqb a c = false.
Proof.
  intros Hc Ha. destruct (Ascii.eqb a c) eqn:E; [|reflexivity].
  apply Ascii.eqb_eq in E. congruence.
Qed.

Lemma count_char_all_space (c : ascii) (ws : string) :
  is_space c = false -> all_space ws = true -> count_char c ws = 0%nat.
Proof.
  intros Hc. induction ws as [|a ws IH]; simpl; [reflexivity|].
  intros H. apply andb_true_iff in H as [Ha Hws].
  now rewrite (@space_not_char c a Hc Ha), IH.
Qed.

(** [lstrip] removes a prefix of white space, and nothing else. *)
Lemma lstrip_split (s : string) :
  exists ws, s = ws ++ lstrip s /\ all_space ws = true.
Proof.
  induction s as [|a s (ws & E & H)]; simpl.
  - now exists EmptyString.
  - destruct (is_space a) eqn:Ha.
    + exists (String a ws). simpl. now rewrite Ha, H, <- E.
    + now exists EmptyString.
Qed.

(** [rstrip] removes a suffix of white space, and nothing else. *)
Lemma rstrip_split (s : string) :
  exists ws, s = rstrip s ++ ws /\ all_space ws = true.
Proof.
  induction s as [|a s (ws & E & H)]; simpl.
  - now exists EmptyString.
  - destruct (rstrip s) as [|b r] eqn:R.
    + simpl in E. subst ws. destruct (is_space a) eqn:Ha.
      * exists (String a s). simpl. now rewrite Ha, H.
      * exists s. now split.
    + exists ws. split; [|exact H]. simpl in E. simpl. now rewrite <- E.
Qed.

Lemma count_char_strip (c : ascii) (s : string) :
  is_space c = false -> count_char c (strip s) = count_char c s.
Proof.
  intros Hc. unfold strip.
  destruct (lstrip_split s) as (w1 & E1 & H1).
  destruct (rstrip_split (lstrip s)) as (w2 & E2 & H2).
  rewrite E1 at 2. rewrite E2 at 2.
  rewrite !count_char_app, (@count_char_all_space c w1 Hc H1),
    (@count_char_all_space c w2 Hc H2). lia.
Qed.

Lemma endswith_char_split (c : ascii) (s : string) :
  endswith_char c s = true -> s = drop_last s ++ String c EmptyString.
Proof.
  induction s as [|a s IH]; [discriminate|].
  destruct s as [|b s].
  - simpl. intros H. apply Ascii.eqb_eq in H. now subst.
  - intros H. change (endswith_char c (String b s) = true) in H.
    change (String a (String b s)
            = String a (drop_last (String b s) ++ String c EmptyString)).
    now rewrite <- IH.
Qed.

Lemma endswith_char_app (c : ascii) (s : string) :
  endswith_char c (s ++ String c EmptyString) = true.
Proof.
  induction s as [|a s IH]; simpl; [apply Ascii.eqb_refl|].
  destruct (s ++ String c EmptyString) eqn:E; [|exact IH].
  destruct s; discriminate.
Qed.

Lemma lstrip_app (a : string) (c : ascii) (b : string) :
  is_space c = false ->
  exists a', lstrip (a ++ String c b) = a' ++ String c b.
Proof.
  intros Hc. induction a as [|x a (a' & IH)]; simpl.
  - rewrite Hc. now exists EmptyString.
  - destruct (is_space x).
    + now exists a'.
    + now exists (String x a).
Qed.

Lemma rstrip_all_space (ws : string) :
  all_space ws = true -> rstrip ws = EmptyString.
Proof.
  induction ws as [|a ws IH]; simpl; [reflexivity|].
  intros H. apply andb_true_iff in H as [Ha Hws].
  now rewrite (IH Hws), Ha.
Qed.

Lemma rstrip_app (a : string) (c : ascii) (ws : string) :
  is_space c = false -> all_space ws = true ->
  rstrip (a ++ String c ws) = a ++ String c EmptyString.
Proof.
  intros Hc Hws. induction a as [|x a IH]; simpl.
  - now rewrite (@rstrip_all_space ws Hws), Hc.
  - rewrite IH. destruct a; reflexivity.
Qed.

Lemma semicolon_not_space : is_space ";" = false.
Proof. reflexivity. Qed.

(** The statement rule in terms of the number of semicolons. *)
Lemma check_multiple_statements_count (sql : string) :
  is_valid (_check_multiple_statements sql) = true <->
  (count_char ";" sql = 0%nat
   \/ (count_char ";" sql = 1%nat /\ endswith_char ";" (strip sql) = true)).
Proof.
  unfold _check_multiple_statements.
  pose proof (@count_char_strip _ sql semicolon_not_space) as C.
  destruct (endswith_char ";" (strip sql)) eqn:E.
  - pose proof (@endswith_char_split _ _ E) as Sp.
    assert (N : count_char ";" sql
                = S (count_char ";" (drop_last (strip sql)))).
    { rewrite <- C. rewrite Sp at 1. rewrite count_char_app. simpl. lia. }
    rewrite contains_char_count.
    destruct (count_char ";" (drop_last (strip sql))) as [|n] eqn:D; simpl.
    + split; [intros _; right; split; [exact N | reflexivity] | reflexivity].
    + split; [discriminate|]. intros [H|[H _]]; lia.
  - rewrite contains_char_count, C.
    destruct (count_char ";" sql) as [|n]; simpl.
    + split; [now left | reflexivity].
    + split; [discriminate|]. intros [H|[_ H]]; discriminate.
Qed.

Lemma check_multiple_statements_spec (sql : string) :
  is_valid (_check_multiple_statements sql) = true <-> single_statement sql.
Proof.
  rewrite check_multiple_statements_count. unfold single_statement. split.
  - intros [H|[H E]]; [now left|]. right.
    destruct (lstrip_split sql) as (w1 & E1 & H1).
    destruct (rstrip_split (lstrip sql)) as (w2 & E2 & H2).
    apply endswith_char_split in E. fold (strip sql) in E2.
    exists (w1 ++ drop_last (strip sql)), w2. split; [|split].
    + rewrite E1 at 1. rewrite E2 at 1. rewrite E at 1.
      now rewrite <- !append_assoc.
    + rewrite E1, E2, E in H. rewrite !count_char_app in H.
      rewrite count_char_app. simpl in H. lia.
    + exact H2.
  - intros [H|(body & ws & -> & Hb & Hw)]; [now left|]. right. split.
    + rewrite !count_char_app, Hb. simpl.
      now rewrite (@count_char_all_space _ ws semicolon_not_space Hw).
    + unfold strip. simpl.
      destruct (@lstrip_app body ";" ws semicolon_not_space) as (a' & ->).
      rewrite (@rstrip_app a' _ ws semicolon_not_space Hw).
      apply endswith_char_app.
Qed.

Lemma check_multiple_statements_result (sql : string) :
  _check_multiple_statements sql = valid
  \/ _check_multiple_statements sql =
     mkValidationResult false
       (Some "SQL query contains multiple statements (semicolons not allowed)")
       true.
Proof.
  unfold _check_multiple_statements.
  destruct (contains_char _ _); [now right | now left].
Qed.

End StatementFacts.

Import StatementFacts.

Module ValidateFacts.

Import Guardrail PyFacts GuardrailFacts SegmentFacts.
Local Open Scope string_scope.

Lemma wordlike_keyword (kw : string) :
  In kw DANGEROUS_KEYWORDS -> wordlike kw.
Proof. exact (proj1 (Forall_forall _ _) keywords_wordlike kw). Qed.

Lemma first_keyword_app (before after : list string) (kw s : string) :
  (forall k, In k before -> re_search_word k s = false) ->
  re_search_word kw s = true ->
  first_keyword (before ++ kw :: after) s = Some kw.
Proof.
  intros Hb Hk. induction before as [|k before IH]; simpl.
  - now rewrite Hk.
  - rewrite (Hb k (or_introl eq_refl)). apply IH.
    intros k' Hin. apply Hb. now right.
Qed.

Lemma not_whole_word_search (kw sql : string) :
  wordlike kw ->
  ~ whole_word kw sql <-> re_search_word kw (upper sql) = false.
Proof.
  intros W. rewrite <- (re_search_word_upper sql W).
  destruct (re_search_word kw (upper sql)); split; try congruence;
    intros H; now elim H.
Qed.

(** The keyword rule passes exactly the texts without a denylisted whole
    word. *)
Lemma check_sql_safety_valid (sql : string) :
  _check_sql_safety sql = valid <->
  forall kw, In kw DANGEROUS_KEYWORDS -> ~ whole_word kw sql.
Proof.
  split.
  - intros E kw Hin Hw.
    assert (F : is_valid (_check_sql_safety sql) = false)
      by (apply check_sql_safety_spec; exists kw; auto).
    rewrite E in F. discriminate.
  - intros H. destruct (check_sql_safety_result sql) as [E|(kw & Hin & E)];
      [exact E|]. exfalso.
    assert (F : is_valid (_check_sql_safety sql) = false) by now rewrite E.
    apply check_sql_safety_spec in F as (kw' & Hin' & Hw).
    exact (H kw' Hin' Hw).
Qed.

Lemma check_multiple_statements_valid (sql : string) :
  _check_multiple_statements sql = valid <-> single_statement sql.
Proof.
  rewrite <- check_multiple_statements_spec.
  destruct (check_multiple_statements_result sql) as [E|E]; rewrite E;
    unfold valid; simpl; split; congruence.
Qed.

Lemma validate_segment_filters_valid (plan : Plan) :
  _validate_segment_filters plan = valid <->
  forall f, In f SEGMENT_FIELDS -> offending plan f = false.
Proof.
  rewrite <- first_offender_none, validate_segment_filters_spec.
  destruct (first_offender plan); unfold valid; split; congruence.
Qed.

Lemma segment_error_truthy (plan : Plan) (field : string) :
  truthy_str (Some (segment_error plan field)) = true.
Proof. reflexivity. Qed.

End ValidateFacts.

Import ValidateFacts.

(** X1.  The statement rule accepts exactly the ASCII texts that hold a
    single statement: no semicolon at all, or one semicolon followed by
    white space only (white space around the text is ignored).  Every other
    text is rejected with the multiple-statements message and flagged as a
    security event.  (The white space of a text with other characters is
    that of Unicode, which is not modelled; the shape of the answer holds
    for every text.) *)
Theorem statement_rule_single_statement :
  forall sql : string,
    (is_ascii sql = true ->
     (Guardrail._check_multiple_statements sql = Guardrail.valid
      <-> single_statement sql))
    /\ (Guardrail._check_multiple_statements sql = Guardrail.valid
        \/ Guardrail._check_multiple_statements sql =
           Guardrail.mkValidationResult false
             (Some "SQL query contains multiple statements (semicolons not allowed)"%string)
             true).
Proof.
  intros sql. split.
  - intros _. apply check_multiple_statements_valid.
  - apply check_multiple_statements_result.
Qed.

Lemma statement_rule_single_statement_witness :
  Guardrail._check_multiple_statements "  SELECT 1 FROM cps_tb ;  "
  = Guardrail.valid
  /\ ~ single_statement "SELECT 1; SELECT 2".
Proof.
  split.
  - apply (proj1 (statement_rule_single_statement
                    "  SELECT 1 FROM cps_tb ;  ") eq_refl). right.
    exists "  SELECT 1 FROM cps_tb "%string, "  "%string.
    repeat split.
  - intros H.
    apply (proj1 (statement_rule_single_statement "SELECT 1; SELECT 2")
             eq_refl) in H.
    discriminate H.
Defined.

(** X2.  [validate] accepts a plan and an ASCII text exactly when no
    denylisted keyword occurs in the text as a whole word, the text is a
    single statement, and no segment filter of the plan is offending; the
    window of the plan plays no part. *)
Theorem validate_accepts_iff :
  forall (plan : Plan) (sql : string),
    is_ascii sql = true ->
    Guardrail.validate plan sql = Guardrail.valid
    <->
    ((forall kw, In kw Guardrail.DANGEROUS_KEYWORDS -> ~ whole_word kw sql)
     /\ single_statement sql
     /\ (forall f, In f SEGMENT_FIELDS -> offending plan f = false)).
Proof.
  intros plan sql _.
  rewrite <- check_sql_safety_valid, <- check_multiple_statements_valid,
    <- validate_segment_filters_valid.
  unfold Guardrail.validate. rewrite validate_time_window_valid.
  destruct (check_sql_safety_result sql) as [E1|(kw & _ & E1)]; rewrite E1;
    simpl; [|split; [discriminate | intros (H & _); discriminate]].
  destruct (check_multiple_statements_result sql) as [E2|E2]; rewrite E2;
    simpl; [|split; [discriminate | intros (_ & H & _); discriminate]].
  rewrite validate_segment_filters_spec.
  destruct (first_offender plan); simpl.
  - split; [discriminate | intros (_ & _ & H); discriminate].
  - split; auto.
Qed.

Lemma validate_accepts_iff_witness :
  (forall kw, In kw Guardrail.DANGEROUS_KEYWORDS ->
     ~ whole_word kw "SELECT updated_at FROM cps_tb;")
  /\ single_statement "SELECT updated_at FROM cps_tb;"
  /\ (forall f, In f SEGMENT_FIELDS ->
        offending (sample_plan [("channel", SStr "ALL")]) f = false).
Proof.
  apply (proj1 (@validate_accepts_iff
                  (sample_plan [("channel", SStr "ALL")])
                  "SELECT updated_at FROM cps_tb;" eq_refl)).
  vm_compute. reflexivity.
Defined.

(** X3.  The security flag of [validate] tells the two text rules from the
    two plan rules: on an ASCII text it is raised exactly when the text
    holds a denylisted whole word or more than one statement, whatever the
    plan; and on every text a flagged result is never valid. *)
Theorem security_event_iff_text_rule_fails :
  forall (plan : Plan) (sql : string),
    (is_ascii sql = true ->
     (Guardrail.security_event (Guardrail.validate plan sql) = true
      <->
      ((exists kw, In kw Guardrail.DANGEROUS_KEYWORDS /\ whole_word kw sql)
       \/ ~ single_statement sql)))
    /\ Guardrail.is_valid (Guardrail.validate plan sql)
       && Guardrail.security_event (Guardrail.validate plan sql) = false.
Proof.
  intros plan sql.
  rewrite <- check_sql_safety_spec, <- check_multiple_statements_valid.
  unfold Guardrail.validate. rewrite validate_time_window_valid.
  destruct (check_sql_safety_result sql) as [E1|(kw & _ & E1)]; rewrite E1;
    simpl; [|split; [intros _; split; auto | reflexivity]].
  destruct (check_multiple_statements_result sql) as [E2|E2]; rewrite E2;
    simpl.
  - rewrite validate_segment_filters_spec.
    destruct (first_offender plan); simpl;
      (split; [intros _; split;
               [discriminate | intros [H|H]; [discriminate | now elim H]]
              | reflexivity]).
  - split; [|reflexivity]. intros _. split; [|reflexivity]. intros _. right.
    discriminate.
Qed.

Lemma security_event_iff_text_rule_fails_witness :
  Guardrail.security_event
    (Guardrail.validate (sample_plan [("channel", SStr "Fax")])
       "SELECT 1; SELECT 2") = true
  /\ ~ ((exists kw, In kw Guardrail.DANGEROUS_KEYWORDS
                    /\ whole_word kw "SELECT 1")
        \/ ~ single_statement "SELECT 1").
Proof.
  split.
  - apply (proj1 (security_event_iff_text_rule_fails
                    (sample_plan [("channel", SStr "Fax")])
                    "SELECT 1; SELECT 2") eq_refl). right.
    intros H. apply check_multiple_statements_valid in H. discriminate H.
  - intros H.
    apply (proj1 (security_event_iff_text_rule_fails
                    (sample_plan [("channel", SStr "Fax")]) "SELECT 1")
             eq_refl) in H.
    discriminate H.
Defined.

(** X4.  The result of [validate] is well formed: it is either the plain
    valid result (no message, no flag), or an invalid one that carries a
    non-empty message, so that a caller testing the message for truth sees
    every rejection. *)
Theorem validate_result_shape :
  forall (plan : Plan) (sql : string),
    Guardrail.validate plan sql = Guardrail.valid
    \/ (Guardrail.is_valid (Guardrail.validate plan sql) = false
        /\ exists msg,
             Guardrail.error_message (Guardrail.validate plan sql) = Some msg
             /\ truthy_str (Some msg) = true).
Proof.
  intros plan sql. unfold Guardrail.validate.
  rewrite validate_time_window_valid.
  destruct (check_sql_safety_result sql) as [E1|(kw & _ & E1)]; rewrite E1;
    simpl; [|right; split; [reflexivity|]; eexists; split; reflexivity].
  destruct (check_multiple_statements_result sql) as [E2|E2]; rewrite E2;
    simpl; [|right; split; [reflexivity|]; eexists; split; reflexivity].
  rewrite validate_segment_filters_spec.
  destruct (first_offender plan) as [f|]; simpl; [|now left].
  right. split; [reflexivity|]. exists (segment_error plan f).
  split; [reflexivity | exact (segment_error_truthy plan f)].
Qed.

(** X5.  When several keywords of the denylist occur in an ASCII text, and
    whatever else is wrong with the text or the plan, [validate] reports the
    keyword that comes first in the order of the denylist. *)
Theorem first_denylisted_keyword_reported :
  forall (plan : Plan) (sql : string) (before after : list string)
         (kw : string),
    is_ascii sql = true ->
    Guardrail.DANGEROUS_KEYWORDS = (before ++ kw :: after)%list ->
    whole_word kw sql ->
    (forall k, In k before -> ~ whole_word k sql) ->
    Guardrail.validate plan sql
    = Guardrail.mkValidationResult false
        (Some ("SQL query contains forbidden keyword: " ++ kw)%string) true.
Proof.
  intros plan sql before after kw _ E Hw Hb.
  assert (Win : forall k, In k (before ++ kw :: after) -> wordlike k)
    by (rewrite <- E; apply wordlike_keyword).
  unfold Guardrail.validate, Guardrail._check_sql_safety. rewrite E.
  rewrite (@first_keyword_app before after kw (upper sql)); [reflexivity| |].
  - intros k Hin. apply not_whole_word_search; [|now apply Hb].
    apply Win, in_or_app. now left.
  - apply re_search_word_upper; [|exact Hw].
    apply Win, in_or_app. right. now left.
Qed.

Lemma first_denylisted_keyword_reported_witness :
  Guardrail.validate (sample_plan [("channel", SStr "Fax")])
    "drop table t; update u set x = 1"
  = Guardrail.mkValidationResult false
      (Some "SQL query contains forbidden keyword: UPDATE"%string) true.
Proof.
  apply (@first_denylisted_keyword_reported
           (sample_plan [("channel", SStr "Fax")])
           "drop table t; update u set x = 1"
           ["INSERT"%string]
           ["DELETE"; "DROP"; "ALTER"; "CREATE"; "TRUNCATE"; "REPLACE";
            "MERGE"]%string
           "UPDATE"%string).
  - reflexivity.
  - reflexivity.
  - exists "drop table t; "%string, "update"%string, " u set x = 1"%string.
    repeat split.
  - intros k [<-|[]]. apply not_whole_word_search; [repeat split|].
    vm_compute. reflexivity.
Defined.

(* ===================================================================== *)
(** ** tools/cache_tool.py: histories, reads and sweeps *)
(* ===================================================================== *)

Module CacheHistoryFacts.

Import CacheTool CacheFacts.

Section Facts.

Variable V : Type.
Variable serialize deserialize : V -> V.

Local Abbreviation OD := (OrderedDict V).
Local Abbreviation LRU := (InMemoryLRUCache V).
Local Abbreviation run := (CacheTool.run serialize deserialize).
Local Abbreviation step := (CacheTool.step serialize deserialize).

Lemma run_snoc (c : LRU) (ops : list (Op V)) (op : Op V) :
  run c (ops ++ [op]) = step (run c ops) op.
Proof. unfold CacheTool.run. now rewrite fold_left_app. Qed.

Lemma last_set_snoc (key : string) (ops : list (Op V)) (op : Op V) :
  last_set key (ops ++ [op])
  = match op with
    | OpSet now k v ex =>
        if (k =? key)%string then Some (now, v, ex) else last_set key ops
    | _ => last_set key ops
    end.
Proof.
  induction ops as [|o ops IH]; simpl.
  - destruct op as [| now k v ex | |]; try reflexivity;
      destruct (k =? key)%string; reflexivity.
  - rewrite IH. destruct op as [| now k v ex | |]; try reflexivity;
      destruct (k =? key)%string; reflexivity.
Qed.

Lemma NoDup_run (cap dttl : Z) (ops : list (Op V)) :
  NoDup (keys (_cache (run (init V cap dttl) ops))).
Proof.
  assert (R : recency_inv (0 + List.length ops)
                (fun k => last_access serialize deserialize
                            (init V cap dttl) ops 0
                            (fun _ => 0%nat) k)
                (_cache (run (init V cap dttl) ops))).
  { apply recency_run. repeat split; constructor. }
  exact (proj1 R).
Qed.

Lemma In_move_to_end (k : string) (d : OD) (kv : string * CacheEntry V) :
  In kv (move_to_end k d) -> In kv d.
Proof.
  unfold move_to_end. destruct (getitem k d) as [e|] eqn:G; [|auto].
  intros H. apply in_app_or in H as [H|[<-|[]]].
  - now apply In_delitem in H as [H _].
  - now apply getitem_In.
Qed.

(** The entries of a cache reached from the empty one are those of the
    latest [set] of their keys. *)
Lemma entries_of_last_set (cap dttl : Z) (ops : list (Op V)) :
  forall k e,
    In (k, e) (_cache (run (init V cap dttl) ops)) ->
    exists now v ex,
      last_set k ops = Some (now, v, ex)
      /\ e = CacheEntry_init now (serialize v)
               match ex with Some t => t | None => dttl end.
Proof.
  induction ops as [|op ops IH] using rev_ind; intros k e.
  - intros [].
  - rewrite run_snoc, last_set_snoc.
    pose proof (run_default_ttl serialize deserialize ops
                  (init V cap dttl)) as T. simpl in T.
    set (c := run (init V cap dttl) ops) in *.
    destruct op as [now k0|now k0 v0 ex0| |clock]; simpl.
    + unfold get. destruct (getitem k0 (_cache c)) as [e0|] eqn:G;
        [|apply IH].
      destruct (is_expired now e0); simpl; intros H; apply IH.
      * now apply In_delitem in H as [H _].
      * now apply In_move_to_end in H.
    + rewrite set_cache. cbv zeta. intros H.
      assert (H' : In (k, e)
                     (delitem k0 (_cache c)
                      ++ [(k0, CacheEntry_init now (serialize v0)
                                 match ex0 with
                                 | Some t => t
                                 | None => default_ttl c
                                 end)])).
      { destruct (_ >? _); [|exact H].
        destruct (delitem k0 (_cache c) ++ _); [exact H | now right]. }
      apply in_app_or in H' as [H'|[[= <- <-]|[]]].
      * assert (N : k0 <> k).
        { intros ->. apply (not_In_keys_delitem k (_cache c)).
          apply in_map_iff. now exists (k, e). }
        apply String.eqb_neq in N. rewrite N. apply IH.
        now apply In_delitem in H' as [H' _].
      * rewrite String.eqb_refl, T. now exists now, v0, ex0.
    + intros [].
    + intros H. apply IH. now apply fold_delitem_incl in H.
Qed.

Lemma get_hit (r : Z) (key : string) (c : LRU) (v : V) :
  fst (get deserialize r key c) = Some v ->
  exists e, getitem key (_cache c) = Some e
            /\ is_expired r e = false /\ v = deserialize (value e).
Proof.
  unfold get. destruct (getitem key (_cache c)) as [e|]; [|discriminate].
  destruct (is_expired r e) eqn:X; simpl; [discriminate|].
  intros [= <-]. now exists e.
Qed.

(** The item just written is found by the next read of its key. *)
Lemma getitem_after_set (now : Z) (key : string) (v : V) (ex : option Z)
  (c : LRU) :
  1 <= max_size c ->
  getitem key (_cache (set serialize now key v ex c))
  = Some (CacheEntry_init now (serialize v)
            match ex with Some t => t | None => default_ttl c end).
Proof.
  intros M. rewrite set_cache. cbv zeta.
  set (e := CacheEntry_init _ _ _).
  assert (G : forall d : OD, ~ In key (keys d) ->
                getitem key (d ++ [(key, e)]) = Some e).
  { intros d N. rewrite getitem_app_absent by exact N. simpl.
    now rewrite String.eqb_refl. }
  pose proof (not_In_keys_delitem key (_cache c)) as N.
  destruct (delitem key (_cache c)) as [|[k0 e0] d] eqn:D.
  - simpl. destruct (1 >? max_size c) eqn:X.
    + apply Z.gtb_lt in X. lia.
    + simpl. now rewrite String.eqb_refl.
  - destruct (_ >? _).
    + simpl. apply G. intros H. apply N. now right.
    + now apply G.
Qed.

(** Deleting by key the expired items of a dict whose keys are distinct
    leaves the other items, in order. *)
Lemma fold_delitem_filter (ks : list string) (d : OD) :
  fold_left (fun d key => delitem key d) ks d
  = filter (fun kv => negb (existsb (String.eqb (fst kv)) ks)) d.
Proof.
  revert d. induction ks as [|k ks IH]; intros d; simpl.
  - induction d as [|kv d IHd]; simpl; [reflexivity | now rewrite <- IHd].
  - rewrite IH. unfold delitem.
    induction d as [|kv d IHd]; simpl; [reflexivity|].
    destruct (fst kv =? k)%string; simpl; [exact IHd|].
    destruct (existsb _ ks); simpl; [exact IHd | now rewrite IHd].
Qed.

Lemma NoDup_keys_fst_inj (d : OD) (kv kv' : string * CacheEntry V) :
  NoDup (keys d) -> In kv d -> In kv' d -> fst kv = fst kv' -> kv = kv'.
Proof.
  induction d as [|x d IH]; simpl; [intros _ []|].
  intros ND H H' E. apply NoDup_cons_iff in ND as [Hn ND].
  destruct H as [->|H], H' as [->|H']; auto.
  - elim Hn. rewrite E. now apply in_map.
  - elim Hn. rewrite <- E. now apply in_map.
Qed.

Lemma cleanup_expired_cache (clock : string -> Z) (c : LRU) :
  NoDup (keys (_cache c)) ->
  _cache (snd (cleanup_expired clock c)) = filter (kept clock) (_cache c).
Proof.
  intros ND. unfold cleanup_expired. simpl. rewrite fold_delitem_filter.
  apply filter_ext_in. intros kv Hin. unfold kept. f_equal.
  destruct (is_expired (clock (fst kv)) (snd kv)) eqn:X.
  - apply existsb_exists. exists (fst kv). split; [|apply String.eqb_refl].
    apply in_map, filter_In. now split.
  - destruct (existsb _ _) eqn:Ex; [|reflexivity].
    apply existsb_exists in Ex as (k & Hk & E). apply String.eqb_eq in E.
    apply in_map_iff in Hk as (kv' & <- & Hkv').
    apply filter_In in Hkv' as [Hin' X'].
    rewrite (@NoDup_keys_fst_inj (_cache c) kv kv' ND Hin Hin' E) in X.
    congruence.
Qed.

Lemma getitem_move_to_end (k k' : string) (d : OD) :
  getitem k' (move_to_end k d) = getitem k' d.
Proof.
  unfold move_to_end. destruct (getitem k d) as [e|] eqn:G; [|reflexivity].
  destruct (String.eqb_spec k k') as [<-|N].
  - rewrite getitem_app_absent by apply not_In_keys_delitem. simpl.
    now rewrite String.eqb_refl, G.
  - rewrite <- (@getitem_delitem_other V k' k d N).
    destruct (getitem k' (delitem k d)) as [e'|] eqn:G'.
    + now apply getitem_app_present.
    + rewrite getitem_app_absent.
      * simpl. apply String.eqb_neq in N. now rewrite N.
      * intros H. apply contains_keys in H. unfold contains in H.
        now rewrite G' in H.
Qed.

End Facts.

End CacheHistoryFacts.

Import CacheHistoryFacts.

(** X6.  Whatever operations are issued on a cache created with capacity
    [cap], it never holds more than [cap] entries (none when [cap] is not
    positive), its keys are pairwise distinct, and its two settings never
    change. *)
Theorem cache_within_capacity :
  forall (V : Type) (serialize deserialize : V -> V) (cap dttl : Z)
         (ops : list (CacheTool.Op V)),
    let c := CacheTool.run serialize deserialize
               (CacheTool.init V cap dttl) ops in
    0 <= CacheTool.size c <= Z.max 0 cap
    /\ NoDup (CacheTool.keys (CacheTool._cache c))
    /\ CacheTool.max_size c = cap
    /\ CacheTool.default_ttl c = dttl.
Proof.
  intros V serialize deserialize cap dttl ops c.
  assert (Sz : size_inv c).
  { apply size_run. unfold size_inv. simpl. lia. }
  unfold size_inv in Sz. unfold c in Sz at 2. rewrite run_max_size in Sz.
  simpl in Sz. unfold CacheTool.size. repeat split.
  - lia.
  - exact Sz.
  - apply NoDup_run.
  - apply run_max_size.
  - apply run_default_ttl.
Qed.

(** X7.  A read never returns a stale or foreign value: in a cache reached
    from the empty one by any history, a hit on [key] at time [r] returns
    the value of the latest [set] of [key] in that history (passed through
    the two conversions), and [r] is not after the expiry instant of that
    [set]. *)
Theorem get_returns_latest_set :
  forall (V : Type) (serialize deserialize : V -> V) (cap dttl : Z)
         (ops : list (CacheTool.Op V)) (r : Z) (key : string) (v : V),
    fst (CacheTool.get deserialize r key
           (CacheTool.run serialize deserialize
              (CacheTool.init V cap dttl) ops)) = Some v ->
    exists now v0 ex,
      last_set key ops = Some (now, v0, ex)
      /\ v = deserialize (serialize v0)
      /\ r <= now + match ex with Some t => t | None => dttl end.
Proof.
  intros V serialize deserialize cap dttl ops r key v H.
  apply get_hit in H as (e & G & X & ->).
  apply getitem_In in G.
  apply entries_of_last_set in G as (now & v0 & ex & L & ->).
  exists now, v0, ex. split; [exact L|]. split; [reflexivity|].
  unfold CacheTool.is_expired in X. simpl in X.
  rewrite Z.gtb_ltb in X. apply Z.ltb_ge in X. exact X.
Qed.

Lemma get_returns_latest_set_witness :
  exists now v0 ex,
    last_set "key1"
      [CacheTool.OpSet 0 "key1" 1%nat None;
       CacheTool.OpSet 1 "key2" 2%nat None;
       CacheTool.OpSet 2 "key1" 3%nat (Some 10);
       CacheTool.OpGet 3 "key2"]
    = Some (now, v0, ex)
    /\ 3%nat = (S v0 - 1)%nat
    /\ 12 <= now + match ex with Some t => t | None => 60 end.
Proof.
  apply (@get_returns_latest_set nat S (fun n => (n - 1)%nat) 2 60
           [CacheTool.OpSet 0 "key1" 1%nat None;
            CacheTool.OpSet 1 "key2" 2%nat None;
            CacheTool.OpSet 2 "key1" 3%nat (Some 10);
            CacheTool.OpGet 3 "key2"] 12 "key1" 3%nat).
  reflexivity.
Defined.

(** X8.  Round trip: in any cache with room for at least one entry, a value
    written under [key] at time [s] is returned (passed through the two
    conversions) by a read of [key] at any time [r] up to and including the
    expiry instant [s + ttl], and that read leaves the entry last in the
    order. *)
Theorem set_then_get_round_trip :
  forall (V : Type) (serialize deserialize : V -> V)
         (c : CacheTool.InMemoryLRUCache V) (s r : Z) (key : string)
         (value : V) (ex : option Z),
    let ttl := match ex with
               | Some t => t
               | None => CacheTool.default_ttl c
               end in
    let c1 := CacheTool.set serialize s key value ex c in
    1 <= CacheTool.max_size c ->
    r <= s + ttl ->
    fst (CacheTool.get deserialize r key c1)
    = Some (deserialize (serialize value))
    /\ exists d,
         CacheTool._cache (snd (CacheTool.get deserialize r key c1))
         = (d ++ [(key, CacheTool.CacheEntry_init s (serialize value) ttl)])%list.
Proof.
  intros V serialize deserialize c s r key value ex ttl c1 M R.
  pose proof (@getitem_after_set V serialize s key value ex c M) as G.
  fold ttl in G. fold c1 in G. unfold CacheTool.get. rewrite G.
  unfold CacheTool.is_expired. simpl.
  assert (X : (r >? s + ttl) = false).
  { rewrite Z.gtb_ltb. apply Z.ltb_ge. exact R. }
  rewrite X. simpl. split; [reflexivity|].
  unfold CacheTool.move_to_end. rewrite G. eexists. reflexivity.
Qed.

Lemma set_then_get_round_trip_witness :
  fst (CacheTool.get (fun n => (n - 1)%nat) 60 "key1"
         (CacheTool.set S 0 "key1" 7%nat None (CacheTool.init nat 1 60)))
  = Some 7%nat.
Proof.
  destruct (@set_then_get_round_trip nat S (fun n => (n - 1)%nat)
              (CacheTool.init nat 1 60) 0 60 "key1" 7%nat None)
    as [H _]; [simpl; lia | simpl; lia | exact H].
Defined.

(** X9.  A read touches the entry of its own key only.  In a cache reached
    from the empty one, [get key] leaves the entry stored under every other
    key as it was; on a hit the entry of [key] and the number of entries are
    unchanged; when it returns nothing, no entry of [key] is left. *)
Theorem get_preserves_other_entries :
  forall (V : Type) (serialize deserialize : V -> V) (cap dttl : Z)
         (ops : list (CacheTool.Op V)) (r : Z) (key : string),
    let c := CacheTool.run serialize deserialize
               (CacheTool.init V cap dttl) ops in
    let c' := snd (CacheTool.get deserialize r key c) in
    (forall k, k <> key ->
       CacheTool.getitem k (CacheTool._cache c')
       = CacheTool.getitem k (CacheTool._cache c))
    /\ (fst (CacheTool.get deserialize r key c) <> None ->
        CacheTool.getitem key (CacheTool._cache c')
        = CacheTool.getitem key (CacheTool._cache c)
        /\ CacheTool.size c' = CacheTool.size c)
    /\ (fst (CacheTool.get deserialize r key c) = None ->
        CacheTool.contains key (CacheTool._cache c') = false).
Proof.
  intros V serialize deserialize cap dttl ops r key c c'.
  pose proof (@NoDup_run V serialize deserialize cap dttl ops) as ND.
  fold c in ND. unfold c'. unfold CacheTool.get.
  destruct (CacheTool.getitem key (CacheTool._cache c)) as [e|] eqn:G.
  - destruct (CacheTool.is_expired r e); simpl.
    + split; [|split].
      * intros k N. apply getitem_delitem_other. congruence.
      * intros H. now elim H.
      * intros _. apply contains_false, not_In_keys_delitem.
    + split; [|split].
      * intros k _. apply getitem_move_to_end.
      * intros _. split; [now rewrite getitem_move_to_end|].
        unfold CacheTool.size, CacheTool.move_to_end. simpl. rewrite G.
        rewrite length_app. simpl.
        assert (Hin : In key (CacheTool.keys (CacheTool._cache c))).
        { apply contains_keys. unfold CacheTool.contains. now rewrite G. }
        pose proof (@length_delitem V key (CacheTool._cache c) ND Hin). lia.
      * discriminate.
  - simpl. split; [|split].
    + reflexivity.
    + intros H. now elim H.
    + intros _. unfold CacheTool.contains. now rewrite G.
Qed.

(** X10.  A sweep removes the expired entries and nothing else.  In a cache
    reached from the empty one, [cleanup_expired] keeps exactly the entries
    that are not expired at the clock reading taken for them, in their
    order; the count it returns is the number of entries that went; and a
    second sweep seeing the same readings removes nothing. *)
Theorem cleanup_expired_removes_expired_only :
  forall (V : Type) (serialize deserialize : V -> V) (cap dttl : Z)
         (ops : list (CacheTool.Op V)) (clock : string -> Z),
    let c := CacheTool.run serialize deserialize
               (CacheTool.init V cap dttl) ops in
    let c' := snd (CacheTool.cleanup_expired clock c) in
    CacheTool._cache c' = filter (kept clock) (CacheTool._cache c)
    /\ fst (CacheTool.cleanup_expired clock c) + CacheTool.size c'
       = CacheTool.size c
    /\ fst (CacheTool.cleanup_expired clock c') = 0
    /\ CacheTool._cache (snd (CacheTool.cleanup_expired clock c'))
       = CacheTool._cache c'.
Proof.
  intros V serialize deserialize cap dttl ops clock c c'.
  pose proof (@NoDup_run V serialize deserialize cap dttl ops) as ND.
  fold c in ND.
  pose proof (@cleanup_expired_cache V clock c ND) as E. fold c' in E.
  clearbody c' c.
  assert (Z0 : filter (fun kv => CacheTool.is_expired (clock (fst kv)) (snd kv))
                 (CacheTool._cache c') = []).
  { rewrite E. clear. induction (CacheTool._cache c) as [|kv d IH];
      simpl; [reflexivity|]. unfold kept at 1.
    destruct (CacheTool.is_expired (clock (fst kv)) (snd kv)) eqn:X; simpl;
      [exact IH | now rewrite X]. }
  split; [exact E|]. split; [|split].
  - unfold CacheTool.size. rewrite E. unfold CacheTool.cleanup_expired.
    simpl. rewrite length_map.
    pose proof (filter_length
                  (fun kv => CacheTool.is_expired (clock (fst kv)) (snd kv))
                  (CacheTool._cache c)) as L.
    unfold kept.
    change (fun kv : string * CacheTool.CacheEntry V =>
              negb (CacheTool.is_expired (clock (fst kv)) (snd kv)))
      with (fun kv : string * CacheTool.CacheEntry V =>
              negb ((fun kv => CacheTool.is_expired (clock (fst kv)) (snd kv))
                      kv)).
    lia.
  - unfold CacheTool.cleanup_expired. simpl. now rewrite Z0.
  - unfold CacheTool.cleanup_expired. simpl. now rewrite Z0.
Qed.

(* ===================================================================== *)
(** ** agents/__init__.py: the routes through the graph *)
(* ===================================================================== *)

Module GraphFacts.

Import Guardrail Orchestrator PipelineFacts.

Section Facts.

Variable Env : Type.
Variable time_time : Env -> Z * Env.
Variable router_classify :
  string -> list Message -> Env -> Exc string * Env.
Variable MEMORY_AGENT_AVAILABLE : bool.
Variable memory_agent_explain : string -> Env -> Exc string * Env.
Variable planner_make_plan :
  string -> option string -> list Message -> Env -> Exc Plan * Env.
Variable sql_tool_run : Plan -> Env -> Exc (list Row) * Env.
Variable chart_tool_build : Plan -> list Row -> Env -> Exc ChartSpec * Env.
Variable insights_agent_summarize :
  Plan -> list Row -> Env -> Exc Insight * Env.
Variable sha256_hexdigest : string -> string.

Local Abbreviation node_function :=
  (node_function time_time router_classify MEMORY_AGENT_AVAILABLE
     memory_agent_explain planner_make_plan sql_tool_run chart_tool_build
     insights_agent_summarize sha256_hexdigest).
Local Abbreviation run_from :=
  (run_from time_time router_classify MEMORY_AGENT_AVAILABLE
     memory_agent_explain planner_make_plan sql_tool_run chart_tool_build
     insights_agent_summarize sha256_hexdigest).
Local Abbreviation invoke :=
  (invoke time_time router_classify MEMORY_AGENT_AVAILABLE
     memory_agent_explain planner_make_plan sql_tool_run chart_tool_build
     insights_agent_summarize sha256_hexdigest).

Ltac unfold_monad :=
  unfold bind, ret, call, record, read_clock, get_cache, put_cache in *;
  simpl in *.

Ltac no_event := exists []; rewrite app_nil_r.

(** Every node does what its full description says. *)
Lemma node_effect_full (n : Node) (s : GraphState) (w : World Env) :
  exists evs,
    calls (snd (node_function n s w)) = calls w ++ evs
    /\ NodeEffect sha256_hexdigest n s (fst (node_function n s w)) evs.
Proof.
  destruct n; simpl.
  - (* router *)
    unfold router_node. unfold_monad.
    destruct (router_classify _ _ (env w)) as [[i|e] env']; simpl;
      (eexists; split; [reflexivity|]); split; eauto.
  - (* memory *)
    unfold memory_node. destruct MEMORY_AGENT_AVAILABLE; simpl.
    + unfold_monad.
      destruct (memory_agent_explain _ (env w)) as [[x|e] env']; simpl;
        (eexists; split; [reflexivity|]); right; (split; [reflexivity|]);
        first [left; eexists; reflexivity | right; do 2 eexists; reflexivity].
    + no_event. split; [reflexivity|]. left. split; [reflexivity|].
      eexists. reflexivity.
  - (* planner *)
    unfold planner_node. unfold_monad.
    destruct (planner_make_plan _ _ _ (env w)) as [[p|e] env']; simpl;
      (eexists; split; [reflexivity|]); split; eauto.
  - (* cache_check *)
    unfold cache_check_node.
    destruct (truthy_str (cache_key s)) eqn:T; simpl.
    + destruct (cache_key s) as [key|] eqn:K; [|discriminate].
      unfold bind.
      pose proof (@cache_tool_get_calls Env time_time key w) as C.
      destruct (cache_tool_get time_time key w) as [[cached|] w']; simpl in *;
        (eexists; split; [exact C|]); right; exists key;
        (split; [reflexivity|]); (split; [reflexivity|]);
        first [left; reflexivity | right; eexists; reflexivity].
    + no_event. split; [reflexivity|]. left. auto.
  - (* guardrail *)
    unfold guardrail_node. destruct (plan s) as [p|]; simpl.
    + unfold_monad.
      destruct (is_valid (validate p EmptyString)); simpl;
        (eexists; split; [reflexivity|]); auto.
    + no_event. auto.
  - (* sql_executor *)
    unfold sql_executor_node. destruct (plan s) as [p|]; simpl.
    + unfold_monad.
      destruct (sql_tool_run p (env w)) as [[rows|e] env']; simpl;
        (eexists; split; [reflexivity|]); split; eauto.
    + no_event. auto.
  - (* chart *)
    unfold chart_node.
    destruct (plan s) as [p|] eqn:P;
      [|no_event; split; [reflexivity|]; left; repeat split; auto].
    destruct (df_dict s) as [[|row rows]|] eqn:D;
      try solve [no_event; split; [reflexivity|]; left; repeat split; auto].
    unfold_monad.
    destruct (chart_tool_build p _ (env w)) as [[spec|e] env']; simpl;
      (eexists; split; [reflexivity|]); right;
      (split; [reflexivity|]); (split; [discriminate|]);
      (split; [reflexivity|]);
      first [left; reflexivity | right; eexists; reflexivity].
  - (* insights *)
    unfold insights_node.
    destruct (plan s) as [p|] eqn:P;
      [|no_event; split; [reflexivity|]; left; repeat split; auto].
    destruct (df_dict s) as [[|row rows]|] eqn:D;
      try solve [no_event; split; [reflexivity|]; left; repeat split; auto].
    unfold_monad.
    destruct (insights_agent_summarize p _ (env w)) as [[i|e] env']; simpl;
      (eexists; split; [reflexivity|]); right;
      (split; [reflexivity|]); (split; [discriminate|]);
      (split; [reflexivity|]);
      first [left; reflexivity | right; eexists; reflexivity].
  - (* cache_store *)
    unfold cache_store_node.
    destruct (truthy_str (cache_key s)) eqn:K; simpl; [|no_event; auto].
    destruct (truthy_str (error s)) eqn:E; simpl; [no_event; auto|].
    destruct (truthy_list (df_dict s)) eqn:D; simpl; [|no_event; auto].
    destruct (negb (truthy_list (chart_spec s))
              && negb (truthy_obj (insight s))) eqn:A; [no_event; auto|].
    assert (St : storable s).
    { repeat split; auto. apply andb_false_iff in A as [A|A];
        apply negb_false_iff in A; auto. }
    destruct (cache_key s) as [key|] eqn:Ck; [|discriminate].
    unfold bundle.
    destruct (insight s) as [[i|d]|]; try solve [no_event; auto].
    + unfold bind.
      pose proof (@cache_tool_set_calls Env time_time key
                    (mkCacheValue (df_dict s) (chart_spec s)
                       (Some (model_dump i))) (Some 600) w) as C.
      destruct (cache_tool_set time_time key _ (Some 600) w) as [u w'].
      simpl in *. eexists; split; [exact C|]. split; [reflexivity|].
      right. split; [exact St|]. eauto.
    + unfold bind.
      pose proof (@cache_tool_set_calls Env time_time key
                    (mkCacheValue (df_dict s) (chart_spec s) None)
                    (Some 600) w) as C.
      destruct (cache_tool_set time_time key _ (Some 600) w) as [u w'].
      simpl in *. eexists; split; [exact C|]. split; [reflexivity|].
      right. split; [exact St|]. eauto.
Qed.

(** Reasoning along the graph with the full descriptions of the nodes. *)
Lemma run_from_effects
  (I : Node -> GraphState -> list Event -> Prop)
  (Q : GraphState -> list Event -> Prop) :
  (forall n s evs s' evs',
      I n s evs -> NodeEffect sha256_hexdigest n s s' evs' ->
      match next_node n s' with
      | Some n' => I n' s' (evs ++ Enter n :: evs')
      | None => Q s' (evs ++ Enter n :: evs')
      end) ->
  forall (limit : nat) (n : Node) (s : GraphState) (w w0 : World Env)
         (evs : list Event),
    (rank n <= limit)%nat -> calls w = calls w0 ++ evs -> I n s evs ->
    exists s' evs',
      fst (run_from limit n s w) = Ok s'
      /\ calls (snd (run_from limit n s w)) = calls w0 ++ evs'
      /\ Q s' evs'.
Proof.
  intros Step. induction limit as [|limit IH]; intros n s w w0 evs R C Hi.
  - destruct n; simpl in R; lia.
  - set (w1 := mkWorld (env w) (_cache_instance w) (calls w ++ [Enter n])).
    destruct (node_effect_full n s w1) as (evs' & C' & Sp).
    destruct (node_function n s w1) as [s' w2] eqn:N. simpl in C', Sp.
    assert (E : run_from (S limit) n s w
                = match next_node n s' with
                  | Some n' => run_from limit n' s' w2
                  | None => (Ok s', w2)
                  end).
    { simpl. unfold bind, record. fold w1. rewrite N.
      destruct (next_node n s'); reflexivity. }
    rewrite E.
    specialize (Step n s evs s' evs' Hi Sp).
    assert (C2 : calls w2 = calls w0 ++ (evs ++ Enter n :: evs')).
    { rewrite C'. unfold w1. simpl. rewrite C, <- !app_assoc. reflexivity. }
    destruct (next_node n s') as [n'|] eqn:X.
    + apply (IH n' s' w2 w0 (evs ++ Enter n :: evs')); auto.
      apply next_node_rank in X. lia.
    + exists s', (evs ++ Enter n :: evs'). auto.
Qed.

Lemma invoke_effects
  (I : Node -> GraphState -> list Event -> Prop)
  (Q : GraphState -> list Event -> Prop) :
  (forall n s evs s' evs',
      I n s evs -> NodeEffect sha256_hexdigest n s s' evs' ->
      match next_node n s' with
      | Some n' => I n' s' (evs ++ Enter n :: evs')
      | None => Q s' (evs ++ Enter n :: evs')
      end) ->
  forall (s : GraphState) (w : World Env),
    I router s [] ->
    exists s' evs',
      fst (invoke s w) = Ok s'
      /\ calls (snd (invoke s w)) = calls w ++ evs'
      /\ Q s' evs'.
Proof.
  intros Step s w Hi. unfold Orchestrator.invoke.
  apply (run_from_effects I Q Step) with (evs := []);
    [simpl; unfold recursion_limit; lia | now rewrite app_nil_r | exact Hi].
Qed.

Lemma entered_app (a b : list Event) :
  entered (a ++ b) = (entered a ++ entered b)%list.
Proof.
  induction a as [|ev a IH]; simpl; [reflexivity|].
  destruct ev; simpl; now rewrite IH.
Qed.

End Facts.

End GraphFacts.

Import GraphFacts.

Module RouteFacts.

Import Guardrail Orchestrator.
Local Open Scope string_scope.

Lemma entered_snoc (evs : list Event) (n : Node) (evs' : list Event) :
  entered (evs ++ Enter n :: evs')
  = (entered evs ++ n :: entered evs')%list.
Proof. now rewrite entered_app. Qed.

Lemma use_memory_iff (s : GraphState) :
  (should_use_memory s =? "memory") = true <-> intent s = Some "explain".
Proof.
  unfold should_use_memory. destruct (intent s) as [i|].
  - destruct (String.eqb_spec i "explain") as [->|N]; simpl.
    + split; reflexivity.
    + split; [discriminate | intros [= E]; now elim N].
  - simpl. split; discriminate.
Qed.

Lemma continue_after_guardrail (s : GraphState) :
  (should_continue_after_guardrail s =? "sql") = negb (truthy_str (error s)).
Proof.
  unfold should_continue_after_guardrail.
  now destruct (truthy_str (error s)).
Qed.

Lemma skip_execution (s : GraphState) :
  (should_skip_execution s =? "guardrail")
  = negb (cache_hit s) && negb (truthy_str (error s)).
Proof.
  unfold should_skip_execution.
  destruct (cache_hit s); [reflexivity|].
  now destruct (truthy_str (error s)).
Qed.

(** A plan the validator accepts with the empty text has no offending
    segment filter, and a rejection carries a non-empty message. *)
Lemma validate_empty_accepts (p : Plan) :
  is_valid (validate p EmptyString) = true ->
  validate p EmptyString = valid
  /\ forall f, In f SEGMENT_FIELDS -> offending p f = false.
Proof.
  rewrite SegmentFacts.validate_empty_sql,
    SegmentFacts.validate_plan_rules_segments,
    SegmentFacts.validate_segment_filters_spec.
  destruct (first_offender p) eqn:F; [discriminate|]. intros _.
  split; [reflexivity|]. now apply SegmentFacts.first_offender_none.
Qed.

Lemma validate_empty_rejects (p : Plan) :
  is_valid (validate p EmptyString) = false ->
  truthy_str (error_message (validate p EmptyString)) = true.
Proof.
  rewrite SegmentFacts.validate_empty_sql.
  apply SegmentFacts.validate_plan_rules_message.
Qed.

End RouteFacts.

Import RouteFacts.

Section Routes.

Variable Env : Type.
Variable time_time : Env -> Z * Env.
Variable router_classify :
  string -> list Orchestrator.Message -> Env -> Exc string * Env.
Variable MEMORY_AGENT_AVAILABLE : bool.
Variable memory_agent_explain : string -> Env -> Exc string * Env.
Variable planner_make_plan :
  string -> option string -> list Orchestrator.Message -> Env ->
  Exc Plan * Env.
Variable sql_tool_run : Plan -> Env -> Exc (list Orchestrator.Row) * Env.
Variable chart_tool_build :
  Plan -> list Orchestrator.Row -> Env -> Exc Orchestrator.ChartSpec * Env.
Variable insights_agent_summarize :
  Plan -> list Orchestrator.Row -> Env -> Exc Orchestrator.Insight * Env.
Variable sha256_hexdigest : string -> string.

Import Orchestrator.

Local Abbreviation invoke :=
  (Orchestrator.invoke time_time router_classify MEMORY_AGENT_AVAILABLE
     memory_agent_explain planner_make_plan sql_tool_run chart_tool_build
     insights_agent_summarize sha256_hexdigest).

Ltac effect_cases :=
  repeat match goal with
         | H : _ /\ _ |- _ => destruct H
         | H : exists _, _ |- _ => destruct H
         | H : _ \/ _ |- _ => destruct H
         end;
  subst.

Ltac step_simpl := cbn [next_node entered app]; cbv beta iota.

Ltac fields :=
  cbn [user_query conversation_history intent plan sql df_dict chart_spec
       insight error cache_key cache_hit set_intent set_plan set_df_dict
       set_chart_spec set_insight set_error set_cache_key set_cache_hit
       served] in *.

(** X11.  Every run of the graph ends normally (no node raises and the step
    bound is never reached) after one of four routes: the explain route
    [router, memory], taken exactly when the router's intent is "explain";
    the short route that stops after [cache_check], on a cache hit or an
    earlier error; the rejected route that stops after [guardrail] with an
    error; or the full route through [cache_store], which is followed to its
    end even when the query fails.  The query text and the conversation
    history are never changed. *)
Theorem invoke_routes :
  forall (initial_state : GraphState) (w : World Env),
    exists final_state evs,
      fst (invoke initial_state w) = Ok final_state
      /\ calls (snd (invoke initial_state w)) = calls w ++ evs
      /\ user_query final_state = user_query initial_state
      /\ conversation_history final_state
         = conversation_history initial_state
      /\ ((entered evs = route_explain
           /\ intent final_state = Some "explain"%string)
          \/ (entered evs = route_short
              /\ intent final_state <> Some "explain"%string
              /\ (cache_hit final_state = true
                  \/ truthy_str (error final_state) = true))
          \/ (entered evs = route_rejected
              /\ intent final_state <> Some "explain"%string
              /\ cache_hit final_state = false
              /\ truthy_str (error final_state) = true)
          \/ (entered evs = route_full
              /\ intent final_state <> Some "explain"%string
              /\ cache_hit final_state = false)).
Proof.
  intros s0 w.
  apply (@invoke_effects Env time_time router_classify
    MEMORY_AGENT_AVAILABLE memory_agent_explain planner_make_plan
    sql_tool_run chart_tool_build insights_agent_summarize sha256_hexdigest
    (fun n s evs =>
       user_query s = user_query s0
       /\ conversation_history s = conversation_history s0
       /\ match n with
          | router => evs = []
          | memory =>
              entered evs = [router] /\ intent s = Some "explain"%string
          | planner =>
              entered evs = [router] /\ intent s <> Some "explain"%string
          | cache_check =>
              entered evs = [router; planner]
              /\ intent s <> Some "explain"%string
          | guardrail =>
              entered evs = route_short
              /\ intent s <> Some "explain"%string
              /\ cache_hit s = false /\ truthy_str (error s) = false
          | sql_executor =>
              entered evs = route_rejected
              /\ intent s <> Some "explain"%string /\ cache_hit s = false
          | chart =>
              entered evs = (route_rejected ++ [sql_executor])%list
              /\ intent s <> Some "explain"%string /\ cache_hit s = false
          | insights =>
              entered evs = (route_rejected ++ [sql_executor; chart])%list
              /\ intent s <> Some "explain"%string /\ cache_hit s = false
          | cache_store =>
              entered evs
              = (route_rejected ++ [sql_executor; chart; insights])%list
              /\ intent s <> Some "explain"%string /\ cache_hit s = false
          end)
    (fun s' evs =>
       user_query s' = user_query s0
       /\ conversation_history s' = conversation_history s0
       /\ ((entered evs = route_explain
            /\ intent s' = Some "explain"%string)
           \/ (entered evs = route_short
               /\ intent s' <> Some "explain"%string
               /\ (cache_hit s' = true \/ truthy_str (error s') = true))
           \/ (entered evs = route_rejected
               /\ intent s' <> Some "explain"%string
               /\ cache_hit s' = false
               /\ truthy_str (error s') = true)
           \/ (entered evs = route_full
               /\ intent s' <> Some "explain"%string
               /\ cache_hit s' = false)))).
  - intros n s evs s' evs' (U & C & Hn) Sp.
    destruct n; simpl in Sp.
    + (* router *)
      subst evs.
      assert (F : user_query s' = user_query s0
                  /\ conversation_history s' = conversation_history s0).
      { effect_cases; simpl; auto. }
      destruct F as [U' C']. simpl.
      destruct (should_use_memory s' =? "memory")%string eqn:M.
      * apply use_memory_iff in M. effect_cases; simpl in *; auto.
      * assert (N : intent s' <> Some "explain"%string).
        { intros E. apply use_memory_iff in E. congruence. }
        effect_cases; simpl in *; auto.
    + (* memory *)
      simpl. destruct Hn as [En In'].
      effect_cases; rewrite entered_snoc, En; simpl; auto 6.
    + (* planner *)
      simpl. destruct Hn as [En In'].
      effect_cases; rewrite entered_snoc, En; simpl; auto 6.
    + (* cache_check *)
      destruct Hn as [En In']. cbn [next_node]. rewrite skip_execution.
      assert (F : user_query s' = user_query s0
                  /\ conversation_history s' = conversation_history s0
                  /\ intent s' = intent s
                  /\ entered (evs ++ Enter cache_check :: evs') = route_short).
      { rewrite entered_snoc, En. effect_cases; simpl; auto. }
      destruct F as (U' & C' & I' & E'). rewrite <- I' in In'.
      destruct (cache_hit s') eqn:H; simpl.
      * split; [exact U'|]. split; [exact C'|]. right. left. auto.
      * destruct (truthy_str (error s')) eqn:T; simpl.
        -- split; [exact U'|]. split; [exact C'|]. right. left. auto.
        -- auto 6.
    + (* guardrail *)
      destruct Hn as (En & In' & H & T). cbn [next_node].
      rewrite continue_after_guardrail.
      assert (F : user_query s' = user_query s0
                  /\ conversation_history s' = conversation_history s0
                  /\ intent s' = intent s /\ cache_hit s' = cache_hit s
                  /\ entered (evs ++ Enter guardrail :: evs')
                     = route_rejected).
      { rewrite entered_snoc, En.
        destruct (plan s); [destruct (Guardrail.is_valid _)|]; effect_cases; simpl;
          auto. }
      destruct F as (U' & C' & I' & H' & E').
      rewrite <- I' in In'. rewrite <- H' in H.
      destruct (truthy_str (error s')) eqn:T'; simpl.
      * split; [exact U'|]. split; [exact C'|]. right. right. left. auto.
      * auto 6.
    + (* sql_executor *)
      destruct Hn as (En & In' & H). simpl.
      rewrite entered_snoc, En.
      destruct (plan s); effect_cases; simpl; auto 6.
    + (* chart *)
      destruct Hn as (En & In' & H). simpl.
      rewrite entered_snoc, En. effect_cases; simpl; auto 6.
    + (* insights *)
      destruct Hn as (En & In' & H). simpl.
      rewrite entered_snoc, En. effect_cases; simpl; auto 6.
    + (* cache_store *)
      destruct Hn as (En & In' & H). simpl.
      rewrite entered_snoc, En. effect_cases; simpl; auto 8.
  - auto.
Qed.

Ltac not_in_events :=
  let H := fresh in
  intros H;
  repeat match goal with
         | H : In _ (_ ++ _) |- _ => apply in_app_or in H
         | H : _ \/ _ |- _ => destruct H
         | H : In _ (_ :: _) |- _ => simpl in H
         | H : In _ [] |- _ => destruct H
         end;
  try discriminate; try contradiction; auto.

(** X12.  The SQL tool is run at most once in a run of the graph, and only
    on a plan that the validator has just accepted: the call to the
    executor is immediately preceded by the validation of the very plan the
    run ends with, that validation succeeded, and so no segment filter of
    the plan is offending. *)
Theorem sql_runs_only_on_accepted_plan :
  forall (initial_state : GraphState) (w : World Env),
    exists final_state evs,
      fst (invoke initial_state w) = Ok final_state
      /\ calls (snd (invoke initial_state w)) = calls w ++ evs
      /\ (In CallSqlRun evs ->
          exists p before after,
            plan final_state = Some p
            /\ evs = (before
                      ++ [CallValidate p EmptyString; Enter sql_executor;
                          CallSqlRun] ++ after)%list
            /\ ~ In CallSqlRun before /\ ~ In CallSqlRun after
            /\ Guardrail.validate p EmptyString = Guardrail.valid
            /\ forall f, In f SEGMENT_FIELDS -> offending p f = false).
Proof.
  intros s0 w.
  set (ran := fun (s : GraphState) (evs : list Event) =>
         exists p before after,
           plan s = Some p
           /\ evs = (before
                     ++ [CallValidate p EmptyString; Enter sql_executor;
                         CallSqlRun] ++ after)%list
           /\ ~ In CallSqlRun before /\ ~ In CallSqlRun after
           /\ Guardrail.validate p EmptyString = Guardrail.valid
           /\ forall f, In f SEGMENT_FIELDS -> offending p f = false).
  assert (Keep : forall s s' evs n evs',
             ran s evs -> plan s' = plan s -> ~ In CallSqlRun evs' ->
             ran s' (evs ++ Enter n :: evs')).
  { intros s s' evs n evs' (p & b & a & P & -> & Nb & Na & V & O) P' N.
    exists p, b, (a ++ Enter n :: evs')%list.
    split; [congruence|]. split; [now rewrite <- !app_assoc|].
    split; [exact Nb|]. split; [|auto]. not_in_events. }
  apply (@invoke_effects Env time_time router_classify
    MEMORY_AGENT_AVAILABLE memory_agent_explain planner_make_plan
    sql_tool_run chart_tool_build insights_agent_summarize sha256_hexdigest
    (fun n s evs =>
       match n with
       | router | memory | planner | cache_check => ~ In CallSqlRun evs
       | guardrail =>
           ~ In CallSqlRun evs /\ truthy_str (error s) = false
       | sql_executor =>
           exists p before,
             plan s = Some p
             /\ evs = (before ++ [CallValidate p EmptyString])%list
             /\ ~ In CallSqlRun before
             /\ Guardrail.validate p EmptyString = Guardrail.valid
             /\ forall f, In f SEGMENT_FIELDS -> offending p f = false
       | chart | insights | cache_store => ran s evs
       end)
    (fun s' evs => In CallSqlRun evs -> ran s' evs)).
  - intros n s evs s' evs' Hn Sp.
    destruct n; simpl in Sp.
    + (* router *)
      simpl. destruct Sp as [-> _].
      destruct (should_use_memory s' =? "memory")%string; not_in_events.
    + (* memory *)
      simpl. intros H. exfalso. revert H.
      effect_cases; not_in_events.
    + (* planner *)
      simpl. destruct Sp as [-> _]. not_in_events.
    + (* cache_check *)
      cbn [next_node]. rewrite skip_execution.
      assert (N : ~ In CallSqlRun (evs ++ Enter cache_check :: evs')).
      { effect_cases; not_in_events. }
      destruct (cache_hit s'); simpl; [intros H; now elim N|].
      destruct (truthy_str (error s')) eqn:T; simpl;
        [intros H; now elim N | auto].
    + (* guardrail *)
      destruct Hn as [N T]. cbn [next_node].
      rewrite continue_after_guardrail.
      destruct (plan s) as [p|] eqn:P.
      * destruct Sp as [-> Es].
        destruct (Guardrail.is_valid (Guardrail.validate p EmptyString))
          eqn:V.
        -- subst s'. rewrite T. simpl.
           apply validate_empty_accepts in V as [V O].
           exists p, (evs ++ [Enter guardrail])%list.
           split; [exact P|]. split; [now rewrite <- app_assoc|].
           split; [not_in_events | auto].
        -- apply validate_empty_rejects in V. subst s'. simpl. rewrite V.
           simpl. intros H. exfalso. revert H. not_in_events.
      * destruct Sp as [-> ->]. simpl. intros H. exfalso. revert H.
        not_in_events.
    + (* sql_executor *)
      destruct Hn as (p & b & P & -> & Nb & V & O). simpl.
      rewrite P in Sp. destruct Sp as [-> Es].
      exists p, b, []. split; [|split; [|split; [|split]]]; auto.
      * effect_cases; simpl; exact P.
      * now rewrite <- app_assoc.
    + (* chart *)
      simpl. apply Keep with (s := s); [exact Hn | effect_cases; reflexivity |].
      effect_cases; not_in_events.
    + (* insights *)
      simpl. apply Keep with (s := s); [exact Hn | effect_cases; reflexivity |].
      effect_cases; not_in_events.
    + (* cache_store *)
      simpl. intros _.
      apply Keep with (s := s); [exact Hn | effect_cases; reflexivity |].
      effect_cases; not_in_events.
  - simpl. intros [].
Qed.

(** X13.  The errors a run can end with, by route, for a run that starts
    without an error (as every attempt of [run_query] does): a failed
    explanation on the explain route; a failed classification or a failed
    planning on the short route; the message of the first offending segment
    filter on the rejected route; a failed query on the full route.  The
    branches "No plan to validate" and "No plan to execute" are never
    taken: a run that reaches [guardrail] has a plan. *)
Theorem invoke_error_provenance :
  forall (initial_state : GraphState) (w : World Env),
    truthy_str (error initial_state) = false ->
    exists final_state evs,
      fst (invoke initial_state w) = Ok final_state
      /\ calls (snd (invoke initial_state w)) = calls w ++ evs
      /\ (truthy_str (error final_state) = true ->
          (entered evs = route_explain
           /\ exists e,
                error final_state
                = Some ("Explanation retrieval failed: " ++ e)%string)
          \/ (entered evs = route_short
              /\ ((exists e,
                     error final_state
                     = Some ("Intent classification failed: " ++ e)%string)
                  \/ (exists e,
                        error final_state
                        = Some ("Query planning failed: " ++ e)%string)))
          \/ (entered evs = route_rejected
              /\ exists p f,
                   plan final_state = Some p
                   /\ first_offender p = Some f
                   /\ error final_state = Some (segment_error p f))
          \/ (entered evs = route_full
              /\ exists e,
                   error final_state
                   = Some ("Query execution failed: " ++ e)%string)).
Proof.
  intros s0 w T0.
  set (early := fun s : GraphState =>
         truthy_str (error s) = false
         \/ (exists e,
               error s = Some ("Intent classification failed: " ++ e)%string)
         \/ (exists e,
               error s = Some ("Query planning failed: " ++ e)%string)).
  set (late := fun s : GraphState =>
         truthy_str (error s) = false
         \/ exists e,
              error s = Some ("Query execution failed: " ++ e)%string).
  apply (@invoke_effects Env time_time router_classify
    MEMORY_AGENT_AVAILABLE memory_agent_explain planner_make_plan
    sql_tool_run chart_tool_build insights_agent_summarize sha256_hexdigest
    (fun n s evs =>
       match n with
       | router => evs = [] /\ truthy_str (error s) = false
       | memory => entered evs = [router] /\ truthy_str (error s) = false
       | planner =>
           entered evs = [router]
           /\ (truthy_str (error s) = false
               \/ exists e,
                    error s
                    = Some ("Intent classification failed: " ++ e)%string)
       | cache_check =>
           entered evs = [router; planner] /\ early s
           /\ (truthy_str (error s) = false -> plan s <> None)
       | guardrail =>
           entered evs = route_short /\ truthy_str (error s) = false
           /\ plan s <> None
       | sql_executor =>
           entered evs = route_rejected /\ truthy_str (error s) = false
           /\ plan s <> None
       | chart =>
           entered evs = (route_rejected ++ [sql_executor])%list /\ late s
       | insights =>
           entered evs = (route_rejected ++ [sql_executor; chart])%list
           /\ late s
       | cache_store =>
           entered evs
           = (route_rejected ++ [sql_executor; chart; insights])%list
           /\ late s
       end)
    (fun s' evs =>
       truthy_str (error s') = true ->
       (entered evs = route_explain
        /\ exists e,
             error s' = Some ("Explanation retrieval failed: " ++ e)%string)
       \/ (entered evs = route_short
           /\ ((exists e,
                  error s'
                  = Some ("Intent classification failed: " ++ e)%string)
               \/ (exists e,
                     error s' = Some ("Query planning failed: " ++ e)%string)))
       \/ (entered evs = route_rejected
           /\ exists p f,
                plan s' = Some p /\ first_offender p = Some f
                /\ error s' = Some (segment_error p f))
       \/ (entered evs = route_full
           /\ exists e,
                error s' = Some ("Query execution failed: " ++ e)%string))).
  - intros n s evs s' evs' Hn Sp.
    destruct n; unfold NodeEffect in Sp.
    + (* router *)
      destruct Hn as [-> T]. step_simpl.
      destruct (should_use_memory s' =? "memory")%string eqn:M.
      * apply use_memory_iff in M. effect_cases; fields;
          [auto | discriminate].
      * effect_cases; fields; eauto.
    + (* memory *)
      destruct Hn as [En T]. step_simpl. rewrite entered_snoc, En.
      effect_cases; fields; intros T'; try congruence; left; eauto.
    + (* planner *)
      destruct Hn as [En T]. step_simpl. rewrite entered_snoc, En.
      effect_cases; fields; (split; [reflexivity|]);
        (split; [unfold early; fields; eauto
                | intros T'; simpl in T'; congruence]).
    + (* cache_check *)
      destruct Hn as (En & Ea & P). cbn [next_node].
      rewrite skip_execution.
      assert (F : error s' = error s /\ plan s' = plan s
                  /\ entered (evs ++ Enter cache_check :: evs')
                     = route_short).
      { rewrite entered_snoc, En. effect_cases; fields; auto. }
      destruct F as (E' & P' & R').
      destruct (cache_hit s'); simpl negb; simpl andb; cbv beta iota.
      * intros T. right. left. split; [exact R'|].
        rewrite E' in *. destruct Ea as [Ea|Ea]; [congruence | exact Ea].
      * destruct (truthy_str (error s')) eqn:T; simpl negb; cbv beta iota.
        -- intros _. right. left. split; [exact R'|].
           rewrite E' in *. destruct Ea as [Ea|Ea]; [congruence | exact Ea].
        -- rewrite E' in T. rewrite P'. auto.
    + (* guardrail *)
      destruct Hn as (En & T & P). cbn [next_node].
      rewrite continue_after_guardrail.
      destruct (plan s) as [p|] eqn:Pl; [|now elim P].
      destruct Sp as [-> Es]. rewrite entered_snoc, En.
      destruct (Guardrail.is_valid (Guardrail.validate p EmptyString))
        eqn:V; subst s'.
      * rewrite T. simpl negb. step_simpl. rewrite Pl.
        split; [reflexivity|]. split; [reflexivity | discriminate].
      * pose proof (validate_empty_rejects _ V) as Tm.
        cbn [error set_error]. rewrite Tm. simpl negb. step_simpl.
        intros _.
        right. right. left. split; [reflexivity|].
        revert V. rewrite SegmentFacts.validate_empty_sql,
          SegmentFacts.validate_plan_rules_segments,
          SegmentFacts.validate_segment_filters_spec.
        destruct (first_offender p) as [f|] eqn:F; [|discriminate].
        intros _. exists p, f. auto.
    + (* sql_executor *)
      destruct Hn as (En & T & P). step_simpl. rewrite entered_snoc, En.
      destruct (plan s) as [p|] eqn:Pl; [|now elim P].
      unfold late. effect_cases; fields; (split; [reflexivity|]); eauto.
    + (* chart *)
      destruct Hn as (En & L). step_simpl. rewrite entered_snoc, En.
      unfold late in *. effect_cases; fields; (split; [reflexivity|]);
        eauto.
    + (* insights *)
      destruct Hn as (En & L). step_simpl. rewrite entered_snoc, En.
      unfold late in *. effect_cases; fields; (split; [reflexivity|]);
        eauto.
    + (* cache_store *)
      destruct Hn as (En & L). step_simpl. rewrite entered_snoc, En.
      unfold late in *. intros T.
      effect_cases; fields; try congruence; right; right; right; eauto.
  - cbv beta iota. auto.
Qed.

(** X14.  The chart builder and the summarizer work on fresh rows only.  In
    a run that starts without rows (as every attempt of [run_query] does),
    each of the two is called exactly when the run was not served from the
    cache and the query returned at least one row; in that case the SQL tool
    was run and the run ends without an error, whatever the chart builder
    and the summarizer answer: their failures are never reported. *)
Theorem chart_and_summary_need_rows :
  forall (initial_state : GraphState) (w : World Env),
    truthy_list (df_dict initial_state) = false ->
    exists final_state evs,
      fst (invoke initial_state w) = Ok final_state
      /\ calls (snd (invoke initial_state w)) = calls w ++ evs
      /\ (In CallChartBuild evs <->
          cache_hit final_state = false
          /\ truthy_list (df_dict final_state) = true)
      /\ (In CallSummarize evs <->
          cache_hit final_state = false
          /\ truthy_list (df_dict final_state) = true)
      /\ (cache_hit final_state = false
          /\ truthy_list (df_dict final_state) = true ->
          In CallSqlRun evs /\ truthy_str (error final_state) = false).
Proof.
  intros s0 w D0.
  set (quiet := fun evs : list Event =>
         ~ In CallChartBuild evs /\ ~ In CallSummarize evs).
  set (rows := fun (s : GraphState) (evs : list Event) =>
         truthy_list (df_dict s) = true /\ truthy_str (error s) = false
         /\ plan s <> None /\ In CallSqlRun evs).
  assert (Qa : forall evs n evs',
             quiet evs -> quiet evs' -> quiet (evs ++ Enter n :: evs')).
  { intros evs n evs' [A B] [A' B']. split; not_in_events. }
  apply (@invoke_effects Env time_time router_classify
    MEMORY_AGENT_AVAILABLE memory_agent_explain planner_make_plan
    sql_tool_run chart_tool_build insights_agent_summarize sha256_hexdigest
    (fun n s evs =>
       match n with
       | router | memory | planner | cache_check =>
           quiet evs /\ truthy_list (df_dict s) = false
       | guardrail =>
           quiet evs /\ truthy_list (df_dict s) = false
           /\ cache_hit s = false
       | sql_executor =>
           quiet evs /\ truthy_list (df_dict s) = false
           /\ cache_hit s = false /\ truthy_str (error s) = false
       | chart =>
           quiet evs /\ cache_hit s = false
           /\ (rows s evs \/ truthy_list (df_dict s) = false)
       | insights =>
           ~ In CallSummarize evs /\ cache_hit s = false
           /\ ((rows s evs /\ In CallChartBuild evs)
               \/ (truthy_list (df_dict s) = false
                   /\ ~ In CallChartBuild evs))
       | cache_store =>
           cache_hit s = false
           /\ ((rows s evs /\ In CallChartBuild evs /\ In CallSummarize evs)
               \/ (truthy_list (df_dict s) = false
                   /\ ~ In CallChartBuild evs /\ ~ In CallSummarize evs))
       end)
    (fun s' evs =>
       (In CallChartBuild evs <->
        cache_hit s' = false /\ truthy_list (df_dict s') = true)
       /\ (In CallSummarize evs <->
           cache_hit s' = false /\ truthy_list (df_dict s') = true)
       /\ (cache_hit s' = false /\ truthy_list (df_dict s') = true ->
           In CallSqlRun evs /\ truthy_str (error s') = false))).
  - assert (End : forall (c d t : bool) evs,
               quiet evs -> (c = true \/ d = false) ->
               (In CallChartBuild evs <-> c = false /\ d = true)
               /\ (In CallSummarize evs <-> c = false /\ d = true)
               /\ (c = false /\ d = true ->
                   In CallSqlRun evs /\ t = false)).
    { intros c d t evs [A B] H.
      split; [|split]; [split; [intros X; now elim A|]
                        | split; [intros X; now elim B|] |];
        intros [C D]; destruct H; congruence. }
    intros n s evs s' evs' Hn Sp.
    destruct n; unfold NodeEffect in Sp.
    + (* router *)
      destruct Hn as [Qu D]. step_simpl.
      assert (F : quiet (evs ++ Enter router :: evs')
                  /\ truthy_list (df_dict s') = false).
      { split; [apply Qa; [exact Qu|]; effect_cases; split; not_in_events
               | effect_cases; fields; exact D]. }
      destruct (should_use_memory s' =? "memory")%string; exact F.
    + (* memory *)
      destruct Hn as [Qu D]. step_simpl.
      apply End; [apply Qa; [exact Qu|]; effect_cases; split; not_in_events|].
      right. effect_cases; fields; exact D.
    + (* planner *)
      destruct Hn as [Qu D]. step_simpl.
      split; [apply Qa; [exact Qu|]; effect_cases; split; not_in_events
             | effect_cases; fields; exact D].
    + (* cache_check *)
      destruct Hn as [Qu D]. cbn [next_node]. rewrite skip_execution.
      assert (Qu' : quiet (evs ++ Enter cache_check :: evs')).
      { apply Qa; [exact Qu|]. effect_cases; split; not_in_events. }
      destruct (cache_hit s') eqn:H; simpl negb; simpl andb; cbv beta iota.
      * apply End; auto.
      * assert (D' : truthy_list (df_dict s') = false).
        { effect_cases; fields; try exact D. discriminate. }
        destruct (negb (truthy_str (error s'))); cbv beta iota.
        -- auto.
        -- apply End; auto.
    + (* guardrail *)
      destruct Hn as (Qu & D & H). cbn [next_node].
      rewrite continue_after_guardrail.
      assert (F : quiet (evs ++ Enter guardrail :: evs')
                  /\ truthy_list (df_dict s') = false
                  /\ cache_hit s' = false).
      { destruct (plan s); [destruct (Guardrail.is_valid _)|];
          effect_cases; fields;
          (split; [apply Qa; [exact Qu|]; split; not_in_events | auto]). }
      destruct F as (Qu' & D' & H').
      destruct (truthy_str (error s')) eqn:T; simpl negb; cbv beta iota.
      * apply End; auto.
      * auto.
    + (* sql_executor *)
      destruct Hn as (Qu & D & H & T). step_simpl.
      destruct (plan s) as [p|] eqn:P.
      * destruct Sp as [-> [[r ->]|[e ->]]]; fields.
        -- split; [apply Qa; [exact Qu|]; split; not_in_events|].
           split; [exact H|].
           destruct (truthy_list (Some r)) eqn:R; [left | now right].
           unfold rows. fields. rewrite P.
           repeat split; auto; [discriminate|].
           apply in_or_app. right. right. now left.
        -- split; [apply Qa; [exact Qu|]; split; not_in_events|].
           split; [exact H | now right].
      * destruct Sp as [-> ->]. fields.
        split; [apply Qa; [exact Qu|]; split; not_in_events|].
        split; [exact H | now right].
    + (* chart *)
      destruct Hn as ([A B] & H & R). step_simpl.
      destruct Sp as [(-> & -> & N)|(-> & Pn & Dn & Es)].
      * split; [not_in_events|]. split; [exact H|]. right.
        split; [|not_in_events].
        destruct R as [(Dr & _ & Pr & _)|Dr]; [|exact Dr].
        destruct N; congruence.
      * destruct R as [(Dr & Tr & Pr & Sr)|Dr]; [|congruence].
        split; [not_in_events|].
        split; [effect_cases; fields; exact H|]. left.
        split; [|apply in_or_app; right; right; now left].
        unfold rows. effect_cases; fields; repeat split; auto;
          apply in_or_app; now left.
    + (* insights *)
      destruct Hn as (B & H & R). step_simpl.
      destruct Sp as [(-> & -> & N)|(-> & Pn & Dn & Es)].
      * split; [exact H|]. right.
        destruct R as [((Dr & _ & Pr & _) & _)|(Dr & A)];
          [destruct N; congruence|].
        split; [exact Dr|]. split; not_in_events.
      * destruct R as [((Dr & Tr & Pr & Sr) & C)|(Dr & _)]; [|congruence].
        split; [effect_cases; fields; exact H|]. left.
        split; [|split; apply in_or_app; [now left | right; right; now left]].
        unfold rows. effect_cases; fields; repeat split; auto;
          apply in_or_app; now left.
    + (* cache_store *)
      destruct Hn as (H & R). step_simpl.
      destruct Sp as [-> Ev].
      assert (Nev : quiet evs').
      { effect_cases; split; not_in_events. }
      destruct Nev as [Na Nb].
      destruct R as [((Dr & Tr & Pr & Sr) & C & S)|(Dr & A & B)].
      * split; [|split]; [split; [auto | intros _; apply in_or_app; now left]
                         | split; [auto | intros _; apply in_or_app; now left]
                         | intros _; split; [apply in_or_app; now left
                                            | exact Tr]].
      * apply End; [split; not_in_events | now right].
  - split; [split; intros []|exact D0].
Qed.

(** X15.  The explain route answers from the memory agent alone.  A run
    whose intent is "explain" enters [router] and [memory] and nothing
    else, calls no collaborator besides the classifier and the memory
    agent, always ends with an insight titled "Explanation" (a fallback
    text when the agent is missing or fails), and leaves the plan, the
    rows, the chart and the cache fields of the state as they were. *)
Theorem explain_route_uses_memory_only :
  forall (initial_state : GraphState) (w : World Env),
    exists final_state evs,
      fst (invoke initial_state w) = Ok final_state
      /\ calls (snd (invoke initial_state w)) = calls w ++ evs
      /\ (intent final_state = Some "explain"%string ->
          (evs = [Enter router; CallClassify; Enter memory]
           \/ evs = [Enter router; CallClassify; Enter memory; CallExplain])
          /\ (exists text, insight final_state = explanation text)
          /\ plan final_state = plan initial_state
          /\ df_dict final_state = df_dict initial_state
          /\ chart_spec final_state = chart_spec initial_state
          /\ cache_key final_state = cache_key initial_state
          /\ cache_hit final_state = cache_hit initial_state
          /\ (error final_state = error initial_state
              \/ exists e,
                   error final_state
                   = Some ("Explanation retrieval failed: " ++ e)%string)).
Proof.
  intros s0 w.
  apply (@invoke_effects Env time_time router_classify
    MEMORY_AGENT_AVAILABLE memory_agent_explain planner_make_plan
    sql_tool_run chart_tool_build insights_agent_summarize sha256_hexdigest
    (fun n s evs =>
       match n with
       | router => evs = [] /\ s = s0
       | memory =>
           evs = [Enter router; CallClassify]
           /\ exists i, s = set_intent (Some i) s0
       | _ => intent s <> Some "explain"%string
       end)
    (fun s' evs =>
       intent s' = Some "explain"%string ->
       (evs = [Enter router; CallClassify; Enter memory]
        \/ evs = [Enter router; CallClassify; Enter memory; CallExplain])
       /\ (exists text, insight s' = explanation text)
       /\ plan s' = plan s0
       /\ df_dict s' = df_dict s0
       /\ chart_spec s' = chart_spec s0
       /\ cache_key s' = cache_key s0
       /\ cache_hit s' = cache_hit s0
       /\ (error s' = error s0
           \/ exists e,
                error s'
                = Some ("Explanation retrieval failed: " ++ e)%string))).
  - intros n s evs s' evs' Hn Sp.
    destruct n; unfold NodeEffect in Sp.
    + (* router *)
      destruct Hn as [-> ->]. step_simpl.
      destruct (should_use_memory s' =? "memory")%string eqn:M.
      * apply use_memory_iff in M. destruct Sp as [-> [[i ->]|[e ->]]].
        -- split; [reflexivity | eauto].
        -- discriminate M.
      * intros E. apply use_memory_iff in E. congruence.
    + (* memory *)
      destruct Hn as [-> [i ->]]. step_simpl. intros _.
      effect_cases; fields; repeat split; eauto.
    + (* planner *)
      step_simpl. effect_cases; fields; exact Hn.
    + (* cache_check *)
      cbn [next_node].
      assert (N : intent s' <> Some "explain"%string).
      { effect_cases; fields; exact Hn. }
      destruct (should_skip_execution s' =? "guardrail")%string;
        cbv beta iota; [exact N | intros E; now elim N].
    + (* guardrail *)
      cbn [next_node].
      assert (N : intent s' <> Some "explain"%string).
      { destruct (plan s); [destruct (Guardrail.is_valid _)|];
          effect_cases; fields; exact Hn. }
      destruct (should_continue_after_guardrail s' =? "sql")%string;
        cbv beta iota; [exact N | intros E; now elim N].
    + (* sql_executor *)
      step_simpl. destruct (plan s); effect_cases; fields; exact Hn.
    + (* chart *)
      step_simpl. effect_cases; fields; exact Hn.
    + (* insights *)
      step_simpl. effect_cases; fields; exact Hn.
    + (* cache_store *)
      step_simpl. intros E. exfalso. effect_cases; fields; now elim Hn.
  - split; reflexivity.
Qed.

End Routes.

Lemma invoke_error_provenance_witness :
  exists final_state evs,
    fst (sample_invoke classify_fails
           (Orchestrator.make_initial_state "Show weekly issuance trend" None)
           sample_world) = Ok final_state
    /\ Orchestrator.calls
         (snd (sample_invoke classify_fails
                 (Orchestrator.make_initial_state
                    "Show weekly issuance trend" None) sample_world))
       = Orchestrator.calls sample_world ++ evs
    /\ (truthy_str (Orchestrator.error final_state) = true ->
        (entered evs = route_explain
         /\ exists e,
              Orchestrator.error final_state
              = Some ("Explanation retrieval failed: " ++ e)%string)
        \/ (entered evs = route_short
            /\ ((exists e,
                   Orchestrator.error final_state
                   = Some ("Intent classification failed: " ++ e)%string)
                \/ (exists e,
                      Orchestrator.error final_state
                      = Some ("Query planning failed: " ++ e)%string)))
        \/ (entered evs = route_rejected
            /\ exists p f,
                 Orchestrator.plan final_state = Some p
                 /\ first_offender p = Some f
                 /\ Orchestrator.error final_state
                    = Some (segment_error p f))
        \/ (entered evs = route_full
            /\ exists e,
                 Orchestrator.error final_state
                 = Some ("Query execution failed: " ++ e)%string)).
Proof.
  apply (@invoke_error_provenance SampleEnv sample_time classify_fails true
           sample_explain sample_make_plan sample_sql_run sample_chart_build
           sample_summarize sample_hash
           (Orchestrator.make_initial_state "Show weekly issuance trend" None)
           sample_world).
  reflexivity.
Defined.

Lemma chart_and_summary_need_rows_witness :
  exists final_state evs,
    fst (sample_invoke classify_trend
           (Orchestrator.make_initial_state "Show weekly issuance trend" None)
           sample_world) = Ok final_state
    /\ Orchestrator.calls
         (snd (sample_invoke classify_trend
                 (Orchestrator.make_initial_state
                    "Show weekly issuance trend" None) sample_world))
       = Orchestrator.calls sample_world ++ evs
    /\ (In Orchestrator.CallChartBuild evs <->
        Orchestrator.cache_hit final_state = false
        /\ truthy_list (Orchestrator.df_dict final_state) = true)
    /\ (In Orchestrator.CallSummarize evs <->
        Orchestrator.cache_hit final_state = false
        /\ truthy_list (Orchestrator.df_dict final_state) = true)
    /\ (Orchestrator.cache_hit final_state = false
        /\ truthy_list (Orchestrator.df_dict final_state) = true ->
        In Orchestrator.CallSqlRun evs
        /\ truthy_str (Orchestrator.error final_state) = false).
Proof.
  apply (@chart_and_summary_need_rows SampleEnv sample_time classify_trend
           true sample_explain sample_make_plan sample_sql_run
           sample_chart_build sample_summarize sample_hash
           (Orchestrator.make_initial_state "Show weekly issuance trend" None)
           sample_world).
  reflexivity.
Defined.

(* ===================================================================== *)
(** ** agents/__init__.py and tools/cache_tool.py: what is stored is what
       is served *)
(* ===================================================================== *)

Section CacheNodes.

Variable Env : Type.
Variable time_time : Env -> Z * Env.

Import Orchestrator.

Local Abbreviation cache_tool_get := (Orchestrator.cache_tool_get time_time).
Local Abbreviation cache_tool_set := (Orchestrator.cache_tool_set time_time).
Local Abbreviation cache_check_node :=
  (Orchestrator.cache_check_node time_time).
Local Abbreviation cache_store_node :=
  (Orchestrator.cache_store_node time_time).

(** The singleton after a write through the module-level [set]. *)
Lemma cache_tool_set_instance (key : string) (value : CacheValue)
  (ex : option Z) (w : World Env) (now : Z) (e : Env) :
  time_time (env w) = (now, e) ->
  _cache_instance (snd (cache_tool_set key value ex w))
  = Some (CacheTool.set (fun v => v) now key value ex
            match _cache_instance w with
            | Some c => c
            | None => CacheTool.init CacheValue 100 600
            end).
Proof.
  intros T. unfold Orchestrator.cache_tool_set, bind, record, get_cache,
    read_clock, put_cache. simpl.
  destruct (_cache_instance w); simpl; rewrite T; reflexivity.
Qed.

(** A lookup through the module-level [get] that finds a live entry. *)
Lemma cache_tool_get_live (key : string) (w : World Env) (c : Cache)
  (entry : CacheTool.CacheEntry CacheValue) (now : Z) (e : Env) :
  _cache_instance w = Some c ->
  CacheTool.getitem key (CacheTool._cache c) = Some entry ->
  time_time (env w) = (now, e) ->
  CacheTool.is_expired now entry = false ->
  fst (cache_tool_get key w) = Some (CacheTool.value entry).
Proof.
  intros I G T X. unfold Orchestrator.cache_tool_get, bind, record, get_cache,
    read_clock, put_cache, ret. simpl. rewrite I.
  unfold CacheTool.contains. rewrite G. simpl. rewrite T.
  unfold CacheTool.get. rewrite G, X. reflexivity.
Qed.

(** X16.  What [cache_store_node] stores is what [cache_check_node] serves.
    Let a state without an error, with rows, and with a chart or an insight
    object be stored under its cache key in a cache with room for at least
    one entry.  A later lookup of the same key, on the same cache and at
    most 600 seconds after the write, is a hit: the state it returns has
    [cache_hit] set, the rows and the chart of the stored state, and its
    insight in dict form. *)
Theorem stored_result_is_served :
  forall (s t : GraphState) (w w2 : World Env) (key : string)
         (stored_at read_at : Z) (e1 e2 : Env),
    cache_key s = Some key ->
    storable s ->
    (forall d, insight s <> Some (InsightDict d)) ->
    (forall c, _cache_instance w = Some c -> 1 <= CacheTool.max_size c) ->
    time_time (env w) = (stored_at, e1) ->
    _cache_instance w2 = _cache_instance (snd (cache_store_node s w)) ->
    cache_key t = Some key ->
    time_time (env w2) = (read_at, e2) ->
    read_at <= stored_at + 600 ->
    fst (cache_check_node t w2) = served (bundle s) t
    /\ cache_hit (fst (cache_check_node t w2)) = true
    /\ df_dict (fst (cache_check_node t w2)) = df_dict s
    /\ chart_spec (fst (cache_check_node t w2)) = chart_spec s.
Proof.
  intros s t w w2 key stored_at read_at e1 e2 K (Tk & Te & Td & Tc) Nd Cap
    T1 I2 K2 T2 R.
  set (c0 := match _cache_instance w with
             | Some c => c
             | None => CacheTool.init CacheValue 100 600
             end).
  assert (M : 1 <= CacheTool.max_size c0).
  { unfold c0. destruct (_cache_instance w) as [c|] eqn:I;
      [now apply Cap | simpl; lia]. }
  assert (I1 : _cache_instance (snd (cache_store_node s w))
               = Some (CacheTool.set (fun v => v) stored_at key (bundle s)
                         (Some 600) c0)).
  { unfold Orchestrator.cache_store_node. rewrite Tk, Te, Td. simpl.
    assert (A : negb (truthy_list (chart_spec s))
                && negb (truthy_obj (insight s)) = false).
    { destruct Tc as [Tc|Tc]; rewrite Tc; simpl;
        [reflexivity | apply andb_false_r]. }
    rewrite A, K. unfold bundle.
    destruct (insight s) as [[i|d]|] eqn:In'.
    - unfold bind. 
      pose proof (@cache_tool_set_instance key
                    (mkCacheValue (df_dict s) (chart_spec s)
                       (Some (model_dump i))) (Some 600) w stored_at e1 T1)
        as C.
      destruct (Orchestrator.cache_tool_set time_time key _ (Some 600) w).
      exact C.
    - elim (Nd d). reflexivity.
    - unfold bind.
      pose proof (@cache_tool_set_instance key
                    (mkCacheValue (df_dict s) (chart_spec s) None)
                    (Some 600) w stored_at e1 T1) as C.
      destruct (Orchestrator.cache_tool_set time_time key _ (Some 600) w).
      exact C. }
  rewrite I1 in I2.
  pose proof (@getitem_after_set CacheValue (fun v => v) stored_at key
                (bundle s) (Some 600) c0 M) as G.
  match type of G with
  | _ = Some ?entry =>
      assert (X : CacheTool.is_expired read_at entry = false)
  end.
  { unfold CacheTool.is_expired. simpl. rewrite Z.gtb_ltb.
    apply Z.ltb_ge. exact R. }
  pose proof (@cache_tool_get_live key w2 _ _ read_at e2 I2 G T2 X) as H.
  assert (E : fst (cache_check_node t w2) = served (bundle s) t).
  { unfold Orchestrator.cache_check_node. rewrite K2.
    rewrite K in Tk. rewrite Tk. cbn [negb]. unfold bind.
    destruct (Orchestrator.cache_tool_get time_time key w2) as [r w3].
    simpl in H. subst r. reflexivity. }
  rewrite E. repeat split.
Qed.

End CacheNodes.

Lemma stored_result_is_served_witness :
  let s := Orchestrator.mkGraphState "Show weekly issuance trend" []
             (Some "trend") (Some (sample_plan [])) None
             (Some [[("week", "2024-W01")]]) None
             (Some (Orchestrator.InsightObject
                      (Orchestrator.mkInsight "Trend Analysis"
                         "Issuance shows stable trend." [] [])))
             None (Some "k1") false in
  let t := Orchestrator.set_cache_key (Some "k1")
             (Orchestrator.make_initial_state "Show weekly issuance trend"
                None) in
  let w1 := snd (Orchestrator.cache_store_node sample_time s sample_world) in
  Orchestrator.cache_hit (fst (Orchestrator.cache_check_node sample_time t w1))
  = true
  /\ Orchestrator.df_dict
       (fst (Orchestrator.cache_check_node sample_time t w1))
     = Some [[("week", "2024-W01")]].
Proof.
  cbv zeta.
  destruct (@stored_result_is_served SampleEnv sample_time
              (Orchestrator.mkGraphState "Show weekly issuance trend" []
                 (Some "trend") (Some (sample_plan [])) None
                 (Some [[("week", "2024-W01")]]) None
                 (Some (Orchestrator.InsightObject
                          (Orchestrator.mkInsight "Trend Analysis"
                             "Issuance shows stable trend." [] [])))
                 None (Some "k1") false)
              (Orchestrator.set_cache_key (Some "k1")
                 (Orchestrator.make_initial_state
                    "Show weekly issuance trend" None))
              sample_world
              (snd (Orchestrator.cache_store_node sample_time
                      (Orchestrator.mkGraphState "Show weekly issuance trend"
                         [] (Some "trend") (Some (sample_plan [])) None
                         (Some [[("week", "2024-W01")]]) None
                         (Some (Orchestrator.InsightObject
                                  (Orchestrator.mkInsight "Trend Analysis"
                                     "Issuance shows stable trend." [] [])))
                         None (Some "k1") false) sample_world))
              "k1" 0 1 1%nat 2%nat)
    as (_ & H & D & _).
  - reflexivity.
  - repeat split; auto.
  - intros d. discriminate.
  - intros c. discriminate.
  - reflexivity.
  - reflexivity.
  - reflexivity.
  - reflexivity.
  - lia.
  - split; [exact H | exact D].
Defined.

(* ===================================================================== *)
(** ** tools/sql_tool.py: the filter clauses of an accepted plan *)
(* ===================================================================== *)

Module FilterFacts.

Import Guardrail SqlTool SegmentFacts ValidateFacts.
Local Open Scope string_scope.

Lemma seg_eqb_eq (a b : SegValue) : seg_eqb a b = true -> a = b.
Proof.
  destruct a as [x|x], b as [y|y]; simpl; try discriminate; intros H.
  - apply String.eqb_eq in H. now subst.
  - apply Z.eqb_eq in H. now subst.
Qed.

Lemma seg_in_In (v : SegValue) (xs : list SegValue) :
  seg_in v xs = true -> In v xs.
Proof.
  unfold seg_in. intros H. apply existsb_exists in H as (a & Hin & E).
  apply seg_eqb_eq in E. now subst.
Qed.

Lemma clause_allowed (field : string) (v : SegValue) :
  In field SEGMENT_FIELDS ->
  In v (subscript ALLOWED_SEGMENTS field) ->
  In (clause_for field v) allowed_clauses.
Proof.
  intros Hf Hv. unfold allowed_clauses. apply in_flat_map.
  exists (field, subscript ALLOWED_SEGMENTS field). split.
  - simpl in Hf.
    repeat (destruct Hf as [<-|Hf]; [simpl; tauto|]). contradiction.
  - simpl. now apply in_map.
Qed.

(** A populated filter of an accepted plan holds an allowed value, or the
    sentinel where the sentinel is let through. *)
Lemma accepted_value (plan : Plan) (field : string) (v : SegValue) :
  offending plan field = false ->
  attr field (segments plan) = Some v ->
  truthy_seg (Some v) = true ->
  (accepts_ALL field = true /\ v = SStr "ALL")
  \/ In v (subscript ALLOWED_SEGMENTS field).
Proof.
  unfold offending, value_accepted. intros O A T. rewrite A, T in O.
  simpl in O. apply negb_false_iff, orb_true_iff in O as [O|O].
  - left. apply andb_true_iff in O as [O1 O2]. apply seg_eqb_eq in O2. auto.
  - right. now apply seg_in_In.
Qed.

End FilterFacts.

Import FilterFacts.

(** X17.  The filter clauses built for a plan that the segment rule accepts
    come from a fixed list: each of the seven placeholders is the empty
    string or one of the clauses [AND field = 'value'] (for [term], without
    quotes) made from an allowed value of its field.  No other text of the
    plan reaches the query through a segment filter. *)
Theorem accepted_plan_filters_allowed :
  forall plan : Plan,
    Guardrail._validate_segment_filters plan = Guardrail.valid ->
    map fst (SqlTool._build_segment_filters plan)
    = ["channel_filter"; "grade_filter"; "prod_type_filter";
       "repeat_type_filter"; "term_filter"; "fico_band_filter";
       "purpose_filter"]%string
    /\ Forall (fun clause => clause = EmptyString \/ In clause allowed_clauses)
         (map snd (SqlTool._build_segment_filters plan)).
Proof.
  intros plan V. split; [reflexivity|].
  pose proof (proj1 (validate_segment_filters_valid plan) V) as O. clear V. rename O into V.
  assert (ALL : forall field,
             In field ["channel"; "grade"; "prod_type"]%string ->
             (if truthy_seg (attr field (segments plan))
                 && Guardrail.is_not_ALL (attr field (segments plan))
              then clause_for field
                     match attr field (segments plan) with
                     | Some v => v
                     | None => SStr EmptyString
                     end
              else EmptyString) = EmptyString
             \/ In (if truthy_seg (attr field (segments plan))
                       && Guardrail.is_not_ALL (attr field (segments plan))
                    then clause_for field
                           match attr field (segments plan) with
                           | Some v => v
                           | None => SStr EmptyString
                           end
                    else EmptyString) allowed_clauses).
  { intros field Hf.
    assert (Hs : In field SEGMENT_FIELDS).
    { simpl in Hf. simpl. tauto. }
    destruct (attr field (segments plan)) as [v|] eqn:A; [|now left].
    destruct (truthy_seg (Some v)) eqn:T; [|now left].
    destruct (Guardrail.is_not_ALL (Some v)) eqn:N; [|now left].
    right. simpl andb. cbv iota.
    destruct (accepted_value plan field (V field Hs) A T) as [[_ ->]|Hin];
      [discriminate N | now apply clause_allowed]. }
  assert (PLAIN : forall field,
             In field ["repeat_type"; "term"; "cr_fico_band";
                       "purpose"]%string ->
             (if truthy_seg (attr field (segments plan))
              then clause_for field
                     match attr field (segments plan) with
                     | Some v => v
                     | None => SStr EmptyString
                     end
              else EmptyString) = EmptyString
             \/ In (if truthy_seg (attr field (segments plan))
                    then clause_for field
                           match attr field (segments plan) with
                           | Some v => v
                           | None => SStr EmptyString
                           end
                    else EmptyString) allowed_clauses).
  { intros field Hf.
    assert (Hs : In field SEGMENT_FIELDS).
    { simpl in Hf. simpl. tauto. }
    assert (Ha : accepts_ALL field = false).
    { simpl in Hf.
      repeat (destruct Hf as [<-|Hf]; [reflexivity|]). contradiction. }
    destruct (attr field (segments plan)) as [v|] eqn:A; [|now left].
    destruct (truthy_seg (Some v)) eqn:T; [|now left].
    right.
    destruct (accepted_value plan field (V field Hs) A T) as [[E _]|Hin];
      [congruence | now apply clause_allowed]. }
  unfold SqlTool._build_segment_filters. cbn [map snd].
  pose proof (ALL "channel"%string) as C1.
  pose proof (ALL "grade"%string) as C2.
  pose proof (ALL "prod_type"%string) as C3.
  pose proof (PLAIN "repeat_type"%string) as C4.
  pose proof (PLAIN "term"%string) as C5.
  pose proof (PLAIN "cr_fico_band"%string) as C6.
  pose proof (PLAIN "purpose"%string) as C7.
  unfold channel, grade, prod_type, repeat_type, term, cr_fico_band, purpose.
  apply Forall_forall. intros clause Hin. cbn [In] in Hin.
  destruct Hin as [<-|[<-|[<-|[<-|[<-|[<-|[<-|[]]]]]]]].
  - specialize (C1 ltac:(simpl; tauto)).
    destruct (attr "channel" (segments plan)); [exact C1 | now left].
  - specialize (C2 ltac:(simpl; tauto)).
    destruct (attr "grade" (segments plan)); [exact C2 | now left].
  - specialize (C3 ltac:(simpl; tauto)).
    destruct (attr "prod_type" (segments plan)); [exact C3 | now left].
  - specialize (C4 ltac:(simpl; tauto)).
    destruct (attr "repeat_type" (segments plan)); [exact C4 | now left].
  - specialize (C5 ltac:(simpl; tauto)).
    destruct (attr "term" (segments plan)); [exact C5 | now left].
  - specialize (C6 ltac:(simpl; tauto)).
    destruct (attr "cr_fico_band" (segments plan)); [exact C6 | now left].
  - specialize (C7 ltac:(simpl; tauto)).
    destruct (attr "purpose" (segments plan)); [exact C7 | now left].
Qed.

Lemma accepted_plan_filters_allowed_witness :
  Forall (fun clause => clause = EmptyString \/ In clause allowed_clauses)
    (map snd
       (SqlTool._build_segment_filters
          (sample_plan [("channel", SStr "Email"); ("grade", SStr "ALL");
                        ("term", SInt 36)]))).
Proof.
  apply (@accepted_plan_filters_allowed
           (sample_plan [("channel", SStr "Email"); ("grade", SStr "ALL");
                         ("term", SInt 36)])).
  reflexivity.
Defined.

(* ===================================================================== *)
(** ** agents/planner.py: the rules applied to a parsed plan *)
(* ===================================================================== *)

Module PlannerFacts.

Import Planner.
Local Open Scope string_scope.

Ltac plan_fields :=
  cbn [intent table metric date_col window granularity segments chart
       set_granularity set_chart set_table set_date_col set_metric] in *.

(** Decide the tests of the rules one after the other, outermost first. *)
Ltac decide_tests :=
  repeat (plan_fields;
          match goal with
          | H : ?b = _ |- context [if ?b then _ else _] => rewrite H
          | H : ?o = _ |- context [match ?o with Some _ => _ | None => _ end] =>
              rewrite H
          | |- context [if ?b then _ else _] =>
              lazymatch b with
              | context [if _ then _ else _] => fail
              | context [match _ with Some _ => _ | None => _ end] => fail
              | _ => destruct b eqn:?
              end
          | |- context [match ?o with Some _ => _ | None => _ end] =>
              lazymatch o with
              | context [if _ then _ else _] => fail
              | _ => destruct o eqn:?
              end
          end);
  plan_fields.

Lemma apply_default_rules_intent (p : Plan) (q : string) :
  intent (_apply_default_rules p q) = intent p
  /\ window (_apply_default_rules p q) = window p
  /\ segments (_apply_default_rules p q) = segments p.
Proof.
  unfold _apply_default_rules. cbv zeta. decide_tests; auto.
Qed.

Lemma apply_default_rules_table (p : Plan) (q : string) :
  table (_apply_default_rules p q)
  = (if forecast_intent (intent p) then "forecast_df" else "cps_tb")
  /\ date_col (_apply_default_rules p q)
     = (if forecast_intent (intent p) then "date" else date_col p).
Proof.
  unfold _apply_default_rules, forecast_intent. cbv zeta.
  decide_tests; auto.
Qed.

Lemma apply_default_rules_chart (p : Plan) (q : string) :
  chart (_apply_default_rules p q)
  = match lookup chart_mapping (intent p) with
    | Some c => c
    | None => chart p
    end.
Proof.
  unfold _apply_default_rules. cbv zeta. decide_tests; auto.
Qed.

Lemma apply_default_rules_granularity (p : Plan) (q : string) :
  In (granularity (_apply_default_rules p q))
    ["daily"; "weekly"; "monthly"; granularity p].
Proof.
  unfold _apply_default_rules. cbv zeta. decide_tests; simpl; auto.
Qed.

Lemma validate_plan_frame (p : Plan) :
  intent (_validate_plan p) = intent p
  /\ table (_validate_plan p) = table p
  /\ window (_validate_plan p) = window p
  /\ granularity (_validate_plan p) = granularity p
  /\ segments (_validate_plan p) = segments p
  /\ chart (_validate_plan p) = chart p.
Proof.
  unfold _validate_plan. cbv zeta. decide_tests; auto 7.
Qed.

Lemma validate_plan_date_col (p : Plan) :
  date_col (_validate_plan p)
  = if (table p =? "forecast_df")%string then "date"
    else if (table p =? "cps_tb")%string && (date_col p =? "date")%string
         then "app_submit_d" else date_col p.
Proof.
  unfold _validate_plan. cbv zeta.
  destruct (table p =? "forecast_df")%string eqn:E1;
    destruct (date_col p =? "date")%string eqn:E2;
    destruct (table p =? "cps_tb")%string eqn:E3;
    cbn [andb negb]; plan_fields; rewrite ?E1, ?E2, ?E3;
    change ("date" =? "date")%string with true; cbn [andb negb];
    plan_fields;
    try (apply String.eqb_eq in E1; apply String.eqb_eq in E3; congruence);
    try (apply String.eqb_eq in E2);
    (destruct (intent p =? "forecast_vs_actual")%string;
     [destruct (_ && _)|]); plan_fields; auto.
Qed.

Lemma apply_default_rules_metric (p : Plan) (q : string) :
  metric (_apply_default_rules p q)
  = if str_in (intent p) ["trend"; "variance"]
       && contains "_count" (metric p)
    then if negb (contains "number" (lower q))
            && negb (contains "count" (lower q))
         then replace "_count" "_amnt" (metric p) else metric p
    else metric p.
Proof.
  unfold _apply_default_rules. cbv zeta. decide_tests; reflexivity.
Qed.

Lemma validate_plan_metric (p : Plan) :
  metric (_validate_plan p)
  = if (intent p =? "forecast_vs_actual")%string
    then if negb (contains "forecast" (lower (metric p)))
            && negb (contains "actual" (lower (metric p)))
         then "issued_amnt" else metric p
    else metric p.
Proof.
  unfold _validate_plan. cbv zeta. decide_tests; reflexivity.
Qed.

Ltac settle :=
  repeat (progress
            (cbn [andb negb]; plan_fields;
             change ("date" =? "date")%string with true;
             change ("app_submit_d" =? "date")%string with false;
             repeat match goal with
                    | H : (?x =? ?y)%string = _
                      |- context [(?x =? ?y)%string] => rewrite H
                    | H : ?b = _ |- context [if ?b then _ else _] =>
                        rewrite H
                    end)).

(** A second pass of [_validate_plan] changes nothing. *)
Lemma validate_plan_idempotent (p : Plan) :
  _validate_plan (_validate_plan p) = _validate_plan p.
Proof.
  destruct p as [i t m d w g s c].
  assert (L : negb (contains "forecast" (lower "issued_amnt"))
              && negb (contains "actual" (lower "issued_amnt")) = true)
    by reflexivity.
  unfold _validate_plan. cbv zeta. plan_fields.
  destruct (t =? "forecast_df")%string eqn:E1;
    destruct (d =? "date")%string eqn:E2;
    destruct (t =? "cps_tb")%string eqn:E3;
    try (apply String.eqb_eq in E1; apply String.eqb_eq in E3; congruence);
    settle;
    (destruct (i =? "forecast_vs_actual")%string eqn:E4; settle;
     [|reflexivity]);
    (destruct (negb (contains "forecast" (lower m))
               && negb (contains "actual" (lower m))) eqn:M);
    settle; rewrite ?L; settle; reflexivity.
Qed.

End PlannerFacts.

Import PlannerFacts.

(** X18.  [_validate_plan] repairs the date column and nothing but the date
    column and the metric: a plan on the forecast table gets the date column
    "date", a plan on the application table never keeps it, a plan on any
    other table is left with its date column; the intent, table, window,
    granularity, segments and chart are untouched; and a second pass changes
    nothing. *)
Theorem validate_plan_consistent :
  forall p : Plan,
    let p' := Planner._validate_plan p in
    (intent p' = intent p /\ table p' = table p /\ window p' = window p
     /\ granularity p' = granularity p /\ segments p' = segments p
     /\ chart p' = chart p)
    /\ (table p = "forecast_df"%string -> date_col p' = "date"%string)
    /\ (table p = "cps_tb"%string -> date_col p' <> "date"%string)
    /\ (table p <> "forecast_df"%string -> table p <> "cps_tb"%string ->
        date_col p' = date_col p)
    /\ Planner._validate_plan p' = p'.
Proof.
  intros p p'. split; [apply validate_plan_frame|].
  pose proof (validate_plan_date_col p) as D. fold p' in D.
  split; [|split; [|split]].
  - intros E. rewrite D, E. reflexivity.
  - intros E. rewrite D, E. simpl.
    destruct (String.eqb_spec (date_col p) "date"); [discriminate | assumption].
  - intros N1 N2. rewrite D.
    apply String.eqb_neq in N1, N2. now rewrite N1, N2.
  - apply validate_plan_idempotent.
Qed.

(** X19.  After the post-processing that [make_plan] applies to a parsed
    plan, the table, the date column and the chart type follow from the
    intent, whatever the parsed plan said: a forecast intent reads the
    forecast table by "date", every other intent reads the application table
    by a column other than "date", and an intent of the chart table gets its
    chart.  The intent, window and segments are those of the parsed plan,
    the granularity is the parsed one or one of the three automatic ones,
    and the result needs no further repair. *)
Theorem post_process_normalises :
  forall (p : Plan) (user_query : string),
    let p' := Planner.post_process p user_query in
    (intent p' = intent p /\ window p' = window p
     /\ segments p' = segments p)
    /\ (if forecast_intent (intent p)
        then table p' = "forecast_df"%string /\ date_col p' = "date"%string
        else table p' = "cps_tb"%string /\ date_col p' <> "date"%string)
    /\ chart p' = match Planner.lookup Planner.chart_mapping (intent p) with
                  | Some c => c
                  | None => chart p
                  end
    /\ In (granularity p')
         ["daily"; "weekly"; "monthly"; granularity p]%string
    /\ Planner._validate_plan p' = p'.
Proof.
  intros p q p'. unfold p', Planner.post_process.
  set (a := Planner._apply_default_rules p q).
  destruct (validate_plan_frame a) as (F1 & F2 & F3 & F4 & F5 & F6).
  destruct (apply_default_rules_intent p q) as (A1 & A2 & A3).
  destruct (apply_default_rules_table p q) as (A4 & A5).
  fold a in A1, A2, A3, A4, A5.
  pose proof (validate_plan_date_col a) as D.
  split; [|split; [|split; [|split]]].
  - rewrite F1, F3, F5. auto.
  - rewrite F2, D, A4, A5.
    destruct (forecast_intent (intent p)); simpl; [auto|].
    split; [reflexivity|].
    destruct (String.eqb_spec (date_col p) "date"); [discriminate | assumption].
  - rewrite F6. apply apply_default_rules_chart.
  - rewrite F4. apply apply_default_rules_granularity.
  - apply validate_plan_idempotent.
Qed.

Module ReplaceFacts.

Import Planner PyFacts.
Local Open Scope string_scope.

Lemma startswith_split (p s : string) :
  startswith p s = true -> exists r, s = p ++ r.
Proof.
  unfold startswith. destruct (strip_prefix p s) as [r|] eqn:E;
    [|discriminate].
  intros _. exists r. now apply strip_prefix_spec.
Qed.

Lemma replace_count_here (r : string) :
  replace "_count" "_amnt" ("_count" ++ r)
  = "_amnt" ++ replace "_count" "_amnt" r.
Proof. reflexivity. Qed.

Lemma replace_count_next (c : ascii) (s : string) :
  startswith "_count" (String c s) = false ->
  replace "_count" "_amnt" (String c s)
  = String c (replace "_count" "_amnt" s).
Proof. unfold replace. simpl. intros H. now rewrite H. Qed.

Lemma startswith_cons (a : ascii) (p : string) (c : ascii) (s : string) :
  startswith (String a p) (String c s) = Ascii.eqb a c && startswith p s.
Proof.
  unfold startswith. cbn [strip_prefix]. now destruct (Ascii.eqb a c).
Qed.

(** A word without an underscore that begins the result began the text. *)
Lemma replace_count_prefix (u s : string) :
  contains_char "_" u = false ->
  startswith u (replace "_count" "_amnt" s) = true ->
  startswith u s = true.
Proof.
  revert s. induction u as [|a u IH]; intros s Hu H; [reflexivity|].
  simpl in Hu. apply orb_false_iff in Hu as [Ha Hu].
  destruct s as [|c s]; [discriminate H|].
  destruct (startswith "_count" (String c s)) eqn:P.
  - apply startswith_split in P as [r E]. rewrite E in H.
    rewrite replace_count_here in H.
    change ("_amnt" ++ replace "_count" "_amnt" r)
      with (String "_" ("amnt" ++ replace "_count" "_amnt" r)) in H.
    rewrite startswith_cons, Ha in H. discriminate.
  - rewrite replace_count_next in H by exact P.
    rewrite startswith_cons in *.
    destruct (Ascii.eqb a c); [|discriminate]. cbn [andb] in *.
    apply IH; assumption.
Qed.

Lemma contains_count_amnt (x : string) :
  contains "_count" ("_amnt" ++ x) = contains "_count" x.
Proof. reflexivity. Qed.

(** No occurrence of "_count" is left by the replacement. *)
Lemma replace_count_none (n : nat) :
  forall s, (String.length s <= n)%nat ->
            contains "_count" (replace "_count" "_amnt" s) = false.
Proof.
  induction n as [|n IH]; intros s L.
  - destruct s; [reflexivity | simpl in L; lia].
  - destruct s as [|c s]; [reflexivity|].
    destruct (startswith "_count" (String c s)) eqn:P.
    + apply startswith_split in P as [r E]. rewrite E.
      rewrite replace_count_here, contains_count_amnt. apply IH.
      rewrite E in L. simpl in L. lia.
    + rewrite replace_count_next by exact P.
      change (contains "_count" (String c (replace "_count" "_amnt" s)))
        with (startswith "_count" (String c (replace "_count" "_amnt" s))
              || contains "_count" (replace "_count" "_amnt" s)).
      rewrite IH by (simpl in L; lia). rewrite orb_false_r.
      destruct (startswith "_count"
                  (String c (replace "_count" "_amnt" s))) eqn:Q;
        [|reflexivity].
      exfalso. rewrite startswith_cons in P, Q.
      destruct (Ascii.eqb "_" c); [|discriminate Q]. cbn [andb] in P, Q.
      apply replace_count_prefix in Q; [congruence | reflexivity].
Qed.

End ReplaceFacts.

Import ReplaceFacts.

(** X20.  Trend and variance plans default to amounts.  Unless the query
    mentions "number" or "count" (in any letter case), the metric of a
    trend or variance plan holds no "_count" after the post-processing of
    [make_plan]: every occurrence has been replaced by "_amnt". *)
Theorem trend_metrics_default_to_amounts :
  forall (p : Plan) (user_query : string),
    str_in (intent p) ["trend"; "variance"]%string = true ->
    contains "number" (lower user_query) = false ->
    contains "count" (lower user_query) = false ->
    contains "_count" (metric (Planner.post_process p user_query)) = false
    /\ (contains "_count" (metric p) = false ->
        metric (Planner.post_process p user_query) = metric p).
Proof.
  intros p q I N C.
  assert (F : (intent p =? "forecast_vs_actual")%string = false).
  { pose proof I as I'. unfold str_in in I'. cbn [existsb] in I'.
    rewrite orb_false_r in I'.
    apply orb_true_iff in I' as [I'|I']; apply String.eqb_eq in I';
      rewrite I'; reflexivity. }
  assert (M : metric (Planner.post_process p q)
              = if contains "_count" (metric p)
                then replace "_count" "_amnt" (metric p) else metric p).
  { unfold Planner.post_process.
    rewrite validate_plan_metric, apply_default_rules_metric.
    rewrite (proj1 (apply_default_rules_intent p q)), F, I, N, C.
    reflexivity. }
  rewrite M. split.
  - destruct (contains "_count" (metric p)) eqn:E; [|exact E].
    now apply (@replace_count_none (String.length (metric p))).
  - intros E. now rewrite E.
Qed.

Lemma trend_metrics_default_to_amounts_witness :
  contains "_count"
    (metric
       (Planner.post_process
          (mkPlan "trend" "cps_tb" "app_submit_count" "app_submit_d"
             "last_30d" "weekly" [] "line")
          "Show weekly submissions")) = false.
Proof.
  apply (@trend_metrics_default_to_amounts
           (mkPlan "trend" "cps_tb" "app_submit_count" "app_submit_d"
              "last_30d" "weekly" [] "line")
           "Show weekly submissions"); reflexivity.
Defined.

(** X21.  A forecast-versus-actual plan whose parsed metric mentions neither
    "forecast" nor "actual" (in any letter case) leaves the post-processing
    of [make_plan] with the metric "issued_amnt", whatever it asked for, and
    the SQL tool then reads the issuance columns of the forecast table: the
    submission and approval columns are reached only through a metric that
    names "forecast" or "actual". *)
Theorem forecast_plans_default_to_issuance :
  forall (p : Plan) (user_query : string),
    intent p = "forecast_vs_actual"%string ->
    contains "forecast" (lower (metric p)) = false ->
    contains "actual" (lower (metric p)) = false ->
    metric (Planner.post_process p user_query) = "issued_amnt"%string
    /\ table (Planner.post_process p user_query) = "forecast_df"%string
    /\ SqlForecast._build_forecast_columns
         (metric (Planner.post_process p user_query))
       = SqlForecast.issuance_columns.
Proof.
  intros p q I F A.
  assert (M : metric (Planner.post_process p q) = "issued_amnt"%string).
  { unfold Planner.post_process.
    rewrite validate_plan_metric, apply_default_rules_metric.
    rewrite (proj1 (apply_default_rules_intent p q)), I.
    change (str_in "forecast_vs_actual" ["trend"; "variance"]%string)
      with false.
    cbn [andb]. change ("forecast_vs_actual" =? "forecast_vs_actual")%string
      with true. cbv iota.
    now rewrite F, A. }
  split; [exact M|]. split.
  - unfold Planner.post_process.
    rewrite (proj1 (proj2 (validate_plan_frame _))).
    rewrite (proj1 (apply_default_rules_table p q)), I. reflexivity.
  - rewrite M. reflexivity.
Qed.

Lemma forecast_plans_default_to_issuance_witness :
  metric
    (Planner.post_process
       (mkPlan "forecast_vs_actual" "forecast_df" "app_submit_amnt" "date"
          "last_full_month" "weekly" [] "grouped_bar")
       "How did submissions compare to forecast last month?")
  = "issued_amnt"%string.
Proof.
  apply (@forecast_plans_default_to_issuance
           (mkPlan "forecast_vs_actual" "forecast_df" "app_submit_amnt" "date"
              "last_full_month" "weekly" [] "grouped_bar")
           "How did submissions compare to forecast last month?");
    reflexivity.
Defined.

(* ===================================================================== *)
(** ** agents/router.py and agents/__init__.py: a failing classifier *)
(* ===================================================================== *)

Module RouterFacts.

Import Orchestrator.
Local Open Scope string_scope.


(** [classify] never raises. *)
Lemma classify_call_ok (Env : Type)
  (openai_intent : string -> list Message -> Env -> Exc (option string) * Env)
  (q : string) (h : list Message) (e : Env) :
  exists i, fst (Router.classify_call openai_intent q h e) = Ok i.
Proof.
  unfold Router.classify_call.
  destruct (Router.classify openai_intent q h e) as [i e']. now exists i.
Qed.

End RouterFacts.

Import RouterFacts.

Section ClassifierFailure.

Variable Env : Type.
Variable time_time : Env -> Z * Env.
Variable openai_intent :
  string -> list Orchestrator.Message -> Env -> Exc (option string) * Env.
Variable MEMORY_AGENT_AVAILABLE : bool.
Variable memory_agent_explain : string -> Env -> Exc string * Env.
Variable planner_make_plan :
  string -> option string -> list Orchestrator.Message -> Env ->
  Exc Plan * Env.
Variable sql_tool_run : Plan -> Env -> Exc (list Orchestrator.Row) * Env.
Variable chart_tool_build :
  Plan -> list Orchestrator.Row -> Env -> Exc Orchestrator.ChartSpec * Env.
Variable insights_agent_summarize :
  Plan -> list Orchestrator.Row -> Env -> Exc Orchestrator.Insight * Env.
Variable sha256_hexdigest : string -> string.

Import Orchestrator.

Local Abbreviation invoke :=
  (Orchestrator.invoke time_time (Router.classify_call openai_intent)
     MEMORY_AGENT_AVAILABLE memory_agent_explain planner_make_plan
     sql_tool_run chart_tool_build insights_agent_summarize sha256_hexdigest).
Local Abbreviation run_from :=
  (Orchestrator.run_from time_time (Router.classify_call openai_intent)
     MEMORY_AGENT_AVAILABLE memory_agent_explain planner_make_plan
     sql_tool_run chart_tool_build insights_agent_summarize sha256_hexdigest).

Ltac effect_cases :=
  repeat match goal with
         | H : _ /\ _ |- _ => destruct H
         | H : exists _, _ |- _ => destruct H
         | H : _ \/ _ |- _ => destruct H
         end;
  subst.

Ltac step_simpl := cbn [next_node entered app]; cbv beta iota.

Ltac fields :=
  cbn [user_query conversation_history intent plan sql df_dict chart_spec
       insight error cache_key cache_hit set_intent set_plan set_df_dict
       set_chart_spec set_insight set_error set_cache_key set_cache_hit
       served] in *.


End ClassifierFailure.

